(** * IPv6 address engine: the address codec and the subnet planner

    A shallow embedding of [src/utils/ipv6Parser.ts] (class [IPv6Parser]) and
    of [src/utils/subnetting.ts] (class [IPv6Subnetting]), with the part of
    the ECMAScript runtime the two classes rely on, followed by the
    properties of the specification checked against them.

    Conventions of the embedding.
    - A JavaScript string is a [string]: a sequence of code units below 256
      (Latin-1).  Code units above 255 are never digits, signs, colons, dots
      or slashes; they are white space, line terminators or foreign
      characters, as some Latin-1 code units are.
    - A JavaScript number held in an address word is a [JS.Number]: an
      integer-valued double, [NaN] or an infinity.  [-0] is identified with
      [0]; no operator used by the program tells them apart.
    - Prefix lengths, octets, indices, counts and big integers are [Z].
    - [throw]/[try]/[catch] are explicit: a computation that may throw
      returns a [JS.Completion]. *)

From Stdlib Require Import ZArith List Bool Lia Ascii String.
From Stdlib Require Import Permutation.
Import ListNotations.

Local Open Scope string_scope.
Local Open Scope list_scope.
Local Open Scope Z_scope.

Notation "s1 +:+ s2" := (String.append s1 s2)
  (at level 60, right associativity) : string_scope.

(** ** The ECMAScript runtime used by the program *)

Module JS.

(** *** Characters and strings *)

Definition code (c : ascii) : Z := Z.of_N (N_of_ascii c).

Definition charOf (n : Z) : ascii := ascii_of_N (Z.to_N n).

(** WhiteSpace and LineTerminator code units below 256: TAB, LF, VT, FF, CR,
    SP and NBSP. *)
Definition isWhiteSpace (c : ascii) : bool :=
  let n := code c in
  ((9 <=? n) && (n <=? 13)) || (n =? 32) || (n =? 160).

(** The code units a regular-expression [.] refuses. *)
Definition isLineTerminator (c : ascii) : bool :=
  let n := code c in (n =? 10) || (n =? 13).

(** [\d] *)
Definition isDigit (c : ascii) : bool :=
  let n := code c in (48 <=? n) && (n <=? 57).

Definition isEmpty (s : string) : bool :=
  match s with EmptyString => true | String _ _ => false end.

Fixpoint allChars (p : ascii -> bool) (s : string) : bool :=
  match s with
  | EmptyString => true
  | String c s' => p c && allChars p s'
  end.

Fixpoint replicate (n : nat) (c : ascii) : string :=
  match n with
  | O => EmptyString
  | S k => String c (replicate k c)
  end.

Fixpoint chars (s : string) : list string :=
  match s with
  | EmptyString => []
  | String c s' => String c EmptyString :: chars s'
  end.

(** [s.replace(/c/g, '')] for a character [c]. *)
Fixpoint removeAll (c : ascii) (s : string) : string :=
  match s with
  | EmptyString => EmptyString
  | String x s' =>
      if (x =? c)%char then removeAll c s' else String x (removeAll c s')
  end.

(** [String.prototype.trim] *)
Fixpoint trimStart (s : string) : string :=
  match s with
  | EmptyString => EmptyString
  | String c s' => if isWhiteSpace c then trimStart s' else s
  end.

Fixpoint trimEnd (s : string) : string :=
  match s with
  | EmptyString => EmptyString
  | String c s' =>
      let t := trimEnd s' in
      if isWhiteSpace c && isEmpty t then EmptyString else String c t
  end.

Definition trim (s : string) : string := trimEnd (trimStart s).

(** [String.prototype.padStart] with a one-character filler. *)
Definition padStart (s : string) (n : nat) (c : ascii) : string :=
  replicate (n - String.length s) c +:+ s.

(** [String.prototype.split] with a non-empty separator: the separator is
    searched from left to right, and a match resumes after its last
    character.  [skip] counts the characters of a matched separator still to
    be passed over. *)
Fixpoint split_go (sep : string) (skip : nat) (cur s : string) : list string :=
  match s with
  | EmptyString => [cur]
  | String c s' =>
      match skip with
      | S k => split_go sep k cur s'
      | O =>
          if String.prefix sep s
          then cur :: split_go sep (String.length sep - 1) EmptyString s'
          else split_go sep 0 (cur +:+ String c EmptyString) s'
      end
  end.

Definition split (s sep : string) : list string :=
  split_go sep 0 EmptyString s.

(** [Array.prototype.join] on strings. *)
Definition join (l : list string) (sep : string) : string :=
  String.concat sep l.

(** *** Numbers *)

Inductive Number : Type :=
| NaN
| PosInfinity
| NegInfinity
| Num (z : Z).

(** The double nearest to an integer (ties to even): exact up to 53
    significant bits, an infinity from [2^1024] on. *)
Definition roundToDouble (z : Z) : Number :=
  let a := Z.abs z in
  let n := Z.log2 a + 1 in
  if n <=? 53 then Num z
  else
    let sh := n - 53 in
    let q := Z.shiftr a sh in
    let r := Z.land a (Z.ones sh) in
    let half := 2 ^ (sh - 1) in
    let q' := if (half <? r) || ((r =? half) && Z.odd q) then q + 1 else q in
    let m := Z.shiftl q' sh in
    if 2 ^ 1024 <=? m
    then (if z <? 0 then NegInfinity else PosInfinity)
    else Num (Z.sgn z * m).

(** [===] on numbers. *)
Definition strictEq (a b : Number) : bool :=
  match a, b with
  | Num x, Num y => x =? y
  | PosInfinity, PosInfinity => true
  | NegInfinity, NegInfinity => true
  | _, _ => false
  end.

(** [a > b] on numbers. *)
Definition gt (a b : Number) : bool :=
  match a, b with
  | NaN, _ | _, NaN => false
  | PosInfinity, PosInfinity => false
  | PosInfinity, _ => true
  | _, PosInfinity => false
  | NegInfinity, _ => false
  | _, NegInfinity => true
  | Num x, Num y => y <? x
  end.

Definition isNaN (a : Number) : bool :=
  match a with NaN => true | _ => false end.

(** The value of a digit character in any radix up to 36. *)
Definition digitValue (c : ascii) : option Z :=
  let n := code c in
  if (48 <=? n) && (n <=? 57) then Some (n - 48)
  else if (97 <=? n) && (n <=? 122) then Some (n - 87)
  else if (65 <=? n) && (n <=? 90) then Some (n - 55)
  else None.

Definition radixDigit (R : Z) (c : ascii) : option Z :=
  match digitValue c with
  | Some d => if d <? R then Some d else None
  | None => None
  end.

(** The longest prefix of radix-[R] digits, as an integer; [None] when the
    prefix is empty. *)
Fixpoint parseDigits (R : Z) (s : string) (acc : option Z) : option Z :=
  match s with
  | EmptyString => acc
  | String c s' =>
      match radixDigit R c with
      | Some d =>
          parseDigits R s'
            (Some (match acc with Some a => a * R + d | None => d end))
      | None => acc
      end
  end.

Definition stripSign (s : string) : bool * string :=
  match s with
  | String "-" r => (true, r)
  | String "+" r => (false, r)
  | _ => (false, s)
  end.

Definition stripHexPrefix (s : string) : string :=
  match s with
  | String "0" (String "x" r) => r
  | String "0" (String "X" r) => r
  | _ => s
  end.

(** [parseInt(s, R)] for an explicit radix [R] in 2..36: leading white space
    is skipped, a sign is accepted, [0x] is accepted in radix 16, and
    whatever follows the digits is ignored. *)
Definition parseInt (s : string) (R : Z) : Number :=
  let (neg, s1) := stripSign (trimStart s) in
  let s2 := if R =? 16 then stripHexPrefix s1 else s1 in
  match parseDigits R s2 None with
  | None => NaN
  | Some v => roundToDouble (if neg then - v else v)
  end.

(** The value of a string that [\d+] matched, as [parseInt(s, 10)] and
    [Number(s)] compute it.  The double they return is this integer rounded,
    which is the integer itself below [2^53]; the program only compares it
    with 128 or 255 before use, and rounding is monotone. *)
Definition decimalValue (s : string) : Z :=
  match parseDigits 10 s None with
  | Some v => v
  | None => 0
  end.

Definition digitChar (d : Z) : ascii :=
  if d <? 10 then charOf (48 + d) else charOf (87 + d).

Fixpoint digitsOf (fuel : nat) (R z : Z) (acc : string) : string :=
  match fuel with
  | O => acc
  | S f =>
      if z <=? 0 then acc
      else digitsOf f R (z / R) (String (digitChar (z mod R)) acc)
  end.

(** The radix-[R] numeral of a non-negative integer.  Every step divides by
    [R >= 2], so one more step than the binary logarithm reaches zero. *)
Definition numeral (R z : Z) : string :=
  if z <=? 0 then "0"
  else digitsOf (S (Z.to_nat (Z.log2 z))) R z EmptyString.

Definition signedNumeral (R z : Z) : string :=
  if z <? 0 then "-" +:+ numeral R (- z) else numeral R z.

(** [Number.prototype.toString(R)] on the numbers of this model.  The
    program calls it with radix 16 or 2, where the digits of an
    integer-valued double are exact, and with radix 10 on integers below
    [2^53] only. *)
Definition toString (n : Number) (R : Z) : string :=
  match n with
  | NaN => "NaN"
  | PosInfinity => "Infinity"
  | NegInfinity => "-Infinity"
  | Num z => signedNumeral R z
  end.

(** [BigInt.prototype.toString()]; a big integer is a [Z]. *)
Definition bigIntToString (z : Z) : string := signedNumeral 10 z.

(** Template-literal interpolation of a small integer. *)
Definition show (z : Z) : string := toString (Num z) 10.

(** *** 32-bit integer operators *)

Definition wrap32 (z : Z) : Z := (z + 2 ^ 31) mod 2 ^ 32 - 2 ^ 31.

Definition ToInt32 (n : Number) : Z :=
  match n with
  | Num z => wrap32 z
  | _ => 0
  end.

(** [a << b], [a >> b], [a & b], [a | b], [~a]: the shift count is taken
    modulo 32. *)
Definition shl (a b : Z) : Z := wrap32 (Z.shiftl (wrap32 a) (b mod 32)).
Definition sar (a b : Z) : Z := Z.shiftr (wrap32 a) (b mod 32).
Definition band (a b : Z) : Z := Z.land (wrap32 a) (wrap32 b).
Definition bor (a b : Z) : Z := Z.lor (wrap32 a) (wrap32 b).
Definition bnot (a : Z) : Z := Z.lnot (wrap32 a).

(** *** Arrays of numbers *)

(** [a[i]]; a missing element reads as [undefined], which every operator
    applied to an address word treats as [NaN]. *)
Definition get (a : list Number) (i : Z) : Number :=
  if i <? 0 then NaN else nth (Z.to_nat i) a NaN.

Fixpoint update (a : list Number) (i : nat) (v : Number) : list Number :=
  match a, i with
  | [], _ => []
  | _ :: t, O => v :: t
  | h :: t, S k => h :: update t k v
  end.

(** [a[i] = v] for [i >= 0]; past the end the array grows, the holes
    reading as [undefined]. *)
Definition set (a : list Number) (i : Z) (v : Number) : list Number :=
  let k := Z.to_nat i in
  if (k <? List.length a)%nat then update a k v
  else a ++ repeat NaN (k - List.length a) ++ [v].

(** [Array.prototype.slice(lo, hi)] with relative indices. *)
Definition relIndex (len k : Z) : Z :=
  if k <? 0 then Z.max (len + k) 0 else Z.min k len.

Definition slice {A : Type} (a : list A) (lo hi : Z) : list A :=
  let len := Z.of_nat (List.length a) in
  let from := relIndex len lo in
  let to := relIndex len hi in
  firstn (Z.to_nat (to - from)) (skipn (Z.to_nat from) a).

Definition sliceFrom {A : Type} (a : list A) (lo : Z) : list A :=
  slice a lo (Z.of_nat (List.length a)).

(** [for (let i = lo; i < hi; i++) body] as a fold over the indices. *)
Definition forRange {S : Type} (lo hi : Z) (body : Z -> S -> S) (s : S) : S :=
  fold_left (fun st k => body (lo + Z.of_nat k) st)
            (seq 0 (Z.to_nat (hi - lo))) s.

(** *** Completions *)

Inductive Completion (A : Type) : Type :=
| Normal (a : A)
| Throw (message : string).

Arguments Normal {A} a.
Arguments Throw {A} message.

Definition bind {A B : Type} (c : Completion A) (k : A -> Completion B)
  : Completion B :=
  match c with
  | Normal a => k a
  | Throw m => Throw m
  end.

(** *** Base64 *)

Definition base64Alphabet : string :=
  "ABCDEFGHIJKLMNOPQRSTUVWXYZabcdefghijklmnopqrstuvwxyz0123456789+/".

Definition base64Char (n : Z) : ascii :=
  match String.get (Z.to_nat n) base64Alphabet with
  | Some c => c
  | None => "="%char
  end.

(** [btoa] on the binary string whose characters have the given codes. *)
Fixpoint btoa (bytes : list Z) : string :=
  match bytes with
  | [] => EmptyString
  | [a] =>
      String (base64Char (a / 4))
        (String (base64Char (a mod 4 * 16)) "==")
  | [a; b] =>
      String (base64Char (a / 4))
        (String (base64Char (a mod 4 * 16 + b / 16))
           (String (base64Char (b mod 16 * 4)) "="))
  | a :: b :: c :: rest =>
      String (base64Char (a / 4))
        (String (base64Char (a mod 4 * 16 + b / 16))
           (String (base64Char (b mod 16 * 4 + c / 64))
              (String (base64Char (c mod 64)) (btoa rest))))
  end.

(** *** What ECMAScript leaves to the host *)

Class Host : Type := {
  (** [Number.prototype.toLocaleString()] on a non-negative integer: the
      digits and their grouping depend on the locale and the engine. *)
  toLocaleString : Z -> string;
  (** The message of the [RangeError] that [BigInt(x)] throws when [x] is
      not an integer. *)
  bigIntRangeError : Number -> string;
  bigIntRangeError_nonempty : forall n, bigIntRangeError n <> EmptyString;
  (** The message of the [RangeError] thrown when the length of an array
      would pass [2^32 - 1]. *)
  arrayLengthError : string
}.

(** [BigInt(x)] *)
Definition BigInt {host : Host} (x : Number) : Completion Z :=
  match x with
  | Num z => Normal z
  | _ => Throw (bigIntRangeError x)
  end.

(** *** Arrays that grow without a bound of the program's own *)

(** The greatest length of an array. *)
Definition maxArrayLength : Z := 2 ^ 32 - 1.

(** [a.push(x)]: on an array of [2^32 - 1] elements the new length is
    refused with a [RangeError].  An engine may run out of memory before;
    this is the limit the language sets. *)
Definition push {host : Host} {A : Type} (a : list A) (x : A)
  : Completion (list A) :=
  if Z.of_nat (List.length a) <? maxArrayLength then Normal (a ++ [x])
  else Throw arrayLengthError.

(** [for (let i = lo; i < hi; i++) body] with a body that may throw: what
    it throws ends the loop. *)
Definition forRangeM {St : Type} (lo hi : Z) (body : Z -> St -> Completion St)
    (s : St) : Completion St :=
  fold_left (fun st k => bind st (body (lo + Z.of_nat k)))
            (seq 0 (Z.to_nat (hi - lo))) (Normal s).

(** *** What the route summarizer needs besides *)

(** [a ^ b] *)
Definition bxor (a b : Z) : Z := Z.lxor (wrap32 a) (wrap32 b).

(** [a[i] = v] for any integer [i]: a negative index names a property of
    the array object that is none of its elements. *)
Definition assign (a : list Number) (i : Z) (v : Number) : list Number :=
  if i <? 0 then a else set a i v.

(** [String.prototype.localeCompare] depends on the locale, and the order
    [Array.prototype.sort] leaves elements in is fixed by the language only
    for a consistent comparator; in every case the sorted array holds the
    elements it held before. *)
Class Collation : Type := {
  localeCompare : string -> string -> Z;
  sortWith : forall A : Type, (A -> A -> Z) -> list A -> list A;
  sortWith_permutation :
    forall (A : Type) (compare : A -> A -> Z) (l : list A),
      Permutation (sortWith A compare l) l
}.

End JS.

Import JS.

(** ** The data model ([src/types/ipv6.ts]) *)

Module AddressType.
Inductive t : Type :=
| GlobalUnicast | LinkLocal | UniqueLocal | Multicast | Anycast | Loopback
| Unspecified | IPv4Mapped | IPv4Compatible | Reserved | Documentation
| Teredo | SixToFour.

Definition eqb (a b : t) : bool :=
  match a, b with
  | GlobalUnicast, GlobalUnicast | LinkLocal, LinkLocal
  | UniqueLocal, UniqueLocal | Multicast, Multicast | Anycast, Anycast
  | Loopback, Loopback | Unspecified, Unspecified | IPv4Mapped, IPv4Mapped
  | IPv4Compatible, IPv4Compatible | Reserved, Reserved
  | Documentation, Documentation | Teredo, Teredo
  | SixToFour, SixToFour => true
  | _, _ => false
  end.
End AddressType.

Module AddressScope.
Inductive t : Type :=
| InterfaceLocal | LinkLocal | AdminLocal | SiteLocal | OrganizationLocal
| Global.
End AddressScope.

Module RFCCompliance.
Record t : Type := {
  rfc : string;
  title : string;
  compliant : bool;
  notes : option string
}.
End RFCCompliance.

Module ParsedIPv6.
Record t : Type := {
  hextets : list Number;
  prefixLength : Z;
  isValid : bool;
  error : option string
}.
End ParsedIPv6.

Module IPv6Address.
Record t : Type := {
  input : string;
  isValid : bool;
  error : option string;
  expanded : string;
  compressed : string;
  binary : string;
  hex : string;
  integer : string;
  base64 : string;
  networkAddress : string;
  prefixLength : Z;
  firstAddress : string;
  lastAddress : string;
  totalHosts : string;
  totalSubnets : string;
  reverseDNS : string;
  addressType : AddressType.t;
  scope : AddressScope.t;
  isIPv4Mapped : bool;
  isIPv4Compatible : bool;
  isEUI64 : bool;
  isSLAACCompatible : bool;
  rfcCompliance : list RFCCompliance.t
}.
End IPv6Address.

Module SubnetInfo.
Record t : Type := {
  network : string;
  firstAddress : string;
  lastAddress : string;
  broadcastAddress : string;
  totalHosts : string
}.
End SubnetInfo.

Module SubnetPlan.
Record t : Type := {
  originalPrefix : string;
  targetPrefixLength : Z;
  subnets : list SubnetInfo.t;
  totalSubnets : Z
}.
End SubnetPlan.

(** ** The address codec ([src/utils/ipv6Parser.ts]) *)

Module IPv6Parser.

Definition invalid (message : string) : ParsedIPv6.t :=
  {| ParsedIPv6.hextets := [];
     ParsedIPv6.prefixLength := 0;
     ParsedIPv6.isValid := false;
     ParsedIPv6.error := Some message |}.

Definition valid (hextets : list Number) (prefixLength : Z) : ParsedIPv6.t :=
  {| ParsedIPv6.hextets := hextets;
     ParsedIPv6.prefixLength := prefixLength;
     ParsedIPv6.isValid := true;
     ParsedIPv6.error := None |}.

(** [address.match(/^(.+)\/(\d+)$/)]: the two groups, when the pattern
    matches.  The digits run to the end of the input, so the slash is the
    last one of the string; [.+] must cover everything before it, which it
    does unless that part is empty or holds a line terminator. *)
Fixpoint prefixMatch_go (before s : string) : option (string * string) :=
  match s with
  | EmptyString => None
  | String c s' =>
      if (c =? "/")%char && negb (isEmpty before) && negb (isEmpty s')
         && allChars isDigit s'
      then Some (before, s')
      else if isLineTerminator c then None
      else prefixMatch_go (before +:+ String c EmptyString) s'
  end.

Definition prefixMatch (address : string) : option (string * string) :=
  prefixMatch_go EmptyString address.

(** [\d+\.\d+\.\d+\.\d+] up to the end of the input. *)
Definition dottedQuad (s : string) : bool :=
  match split s "." with
  | [a; b; c; d] =>
      forallb (fun p => negb (isEmpty p) && allChars isDigit p) [a; b; c; d]
  | _ => false
  end.

(** Whether an input character matches an ASCII pattern character under the
    [i] flag: equal, or the same ASCII letter in the other case. *)
Definition upperCase (c : ascii) : ascii :=
  let n := code c in
  if (97 <=? n) && (n <=? 122) then charOf (n - 32) else c.

Definition matchesIgnoreCase (pattern c : ascii) : bool :=
  (upperCase pattern =? upperCase c)%char.

(** The rest of the input after a literal pattern matched at its start. *)
Fixpoint dropPrefix (pattern s : string) : option string :=
  match pattern with
  | EmptyString => Some s
  | String a pattern' =>
      match s with
      | EmptyString => None
      | String b s' =>
          if matchesIgnoreCase a b then dropPrefix pattern' s' else None
      end
  end.

(** [address.match(/^::ffff:(\d+\.\d+\.\d+\.\d+)$/i)]: the group, when the
    pattern matches. *)
Definition ipv4MappedMatch (address : string) : option string :=
  match dropPrefix "::ffff:" address with
  | Some quad => if dottedQuad quad then Some quad else None
  | None => None
  end.

(** One of the two [for (const part of ...)] loops: [None] stands for the
    early return of the 'Invalid hexadecimal value' record. *)
Fixpoint pushParts (parts : list string) (hextets : list Number)
  : option (list Number) :=
  match parts with
  | [] => Some hextets
  | part :: rest =>
      if (part =? "")%string then pushParts rest hextets
      else
        let hexValue := parseInt part 16 in
        if isNaN hexValue || gt hexValue (Num 0xffff) then None
        else pushParts rest (hextets ++ [hexValue])
  end.

Definition nonEmptyCount (parts : list string) : Z :=
  Z.of_nat (List.length (filter (fun p => negb (p =? "")%string) parts)).

(** The part of [parseIPv6String] that follows the special cases. *)
Definition parseGroups (address : string) (prefixLength : Z) : ParsedIPv6.t :=
  let parts := split address "::" in
  if (2 <? List.length parts)%nat then invalid "Multiple :: not allowed"
  else
    let part0 := nth 0 parts EmptyString in
    let part1 := nth 1 parts EmptyString in
    let two := (List.length parts =? 2)%nat in
    let leftParts :=
      if two then (if isEmpty part0 then [] else split part0 ":")
      else split part0 ":" in
    let rightParts :=
      if two then (if isEmpty part1 then [] else split part1 ":")
      else [] in
    match pushParts leftParts [] with
    | None => invalid "Invalid hexadecimal value"
    | Some hextets1 =>
        let hextets2 :=
          if two then
            let zerosNeeded :=
              8 - nonEmptyCount leftParts - nonEmptyCount rightParts in
            forRange 0 zerosNeeded (fun _ h => h ++ [Num 0]) hextets1
          else hextets1 in
        match pushParts rightParts hextets2 with
        | None => invalid "Invalid hexadecimal value"
        | Some hextets =>
            if negb (List.length hextets =? 8)%nat
            then invalid "Invalid IPv6 address format"
            else valid hextets prefixLength
        end
    end.

Definition ipv4MappedHextets (ipv4Parts : list Z) : list Number :=
  [Num 0; Num 0; Num 0; Num 0; Num 0; Num 0xffff;
   Num (bor (shl (nth 0 ipv4Parts 0) 8) (nth 1 ipv4Parts 0));
   Num (bor (shl (nth 2 ipv4Parts 0) 8) (nth 3 ipv4Parts 0))].

(** What follows the extraction of the prefix length. *)
Definition parseAddress (address : string) (prefixLength : Z) : ParsedIPv6.t :=
  if (address =? "::")%string then valid (repeat (Num 0) 8) prefixLength
  else
    match ipv4MappedMatch address with
    | Some quad =>
        let ipv4Parts := map decimalValue (split quad ".") in
        if forallb (fun part => (0 <=? part) && (part <=? 255)) ipv4Parts
        then valid (ipv4MappedHextets ipv4Parts) prefixLength
        else parseGroups address prefixLength
    | None => parseGroups address prefixLength
    end.

Definition parseIPv6String (input : string) : ParsedIPv6.t :=
  match prefixMatch input with
  | Some (address, digits) =>
      let prefixLength := decimalValue digits in
      if (prefixLength <? 0) || (128 <? prefixLength)
      then invalid "Invalid prefix length"
      else parseAddress address prefixLength
  | None => parseAddress input 128
  end.

Definition toExpanded (hextets : list Number) : string :=
  join (map (fun h => padStart (toString h 16) 4 "0") hextets) ":".

(** A run of zero words found by [toCompressed]. *)
Record Sequence : Type := { start : Z; length : Z }.

Definition noSequence : Sequence := {| start := -1; length := 0 |}.

(** The loop of [toCompressed] over [parts], from index [i] on, with the
    sequences pushed so far and the current one. *)
Fixpoint zeroScan (parts : list string) (i : Z)
    (zeroSequences : list Sequence) (currentSequence : Sequence)
  : list Sequence * Sequence :=
  match parts with
  | [] => (zeroSequences, currentSequence)
  | p :: rest =>
      if (p =? "0000")%string then
        if start currentSequence =? -1
        then zeroScan rest (i + 1) zeroSequences {| start := i; length := 1 |}
        else zeroScan rest (i + 1) zeroSequences
               {| start := start currentSequence;
                  length := length currentSequence + 1 |}
      else
        if negb (start currentSequence =? -1)
        then zeroScan rest (i + 1) (zeroSequences ++ [currentSequence])
               noSequence
        else zeroScan rest (i + 1) zeroSequences currentSequence
  end.

Definition zeroSequences (parts : list string) : list Sequence :=
  let (zs, currentSequence) := zeroScan parts 0 [] noSequence in
  if negb (start currentSequence =? -1) then zs ++ [currentSequence] else zs.

Definition longestSequence (parts : list string) : Sequence :=
  fold_left
    (fun longest current =>
       if length longest <? length current then current else longest)
    (zeroSequences parts) noSequence.

(** [p => parseInt(p, 16).toString(16)] *)
Definition stripZeros (p : string) : string := toString (parseInt p 16) 16.

Definition toCompressed (hextets : list Number) : string :=
  let expanded := toExpanded hextets in
  let parts := split expanded ":" in
  let longest := longestSequence parts in
  if 1 <? length longest then
    let beforeCompression := map stripZeros (slice parts 0 (start longest)) in
    let afterCompression :=
      map stripZeros (sliceFrom parts (start longest + length longest)) in
    if start longest =? 0 then "::" +:+ join afterCompression ":"
    else if start longest + length longest =? 8
    then join beforeCompression ":" +:+ "::"
    else join beforeCompression ":" +:+ "::" +:+ join afterCompression ":"
  else join (map stripZeros parts) ":".

Definition toBinary (hextets : list Number) : string :=
  join (map (fun h => padStart (toString h 2) 16 "0") hextets) " ".

Definition toHex (hextets : list Number) : string :=
  "0x" +:+ join (map (fun h => padStart (toString h 16) 4 "0") hextets) "".

Definition toBase64 (hextets : list Number) : string :=
  btoa (flat_map
          (fun hextet =>
             [band (sar (ToInt32 hextet) 8) 0xff; band (ToInt32 hextet) 0xff])
          hextets).

Definition getNetworkAddress (hextets : list Number) (prefixLength : Z)
  : list Number :=
  let fullHextets := prefixLength / 16 in
  let remainingBits := Z.rem prefixLength 16 in
  forRange fullHextets 8
    (fun i networkHextets =>
       if (i =? fullHextets) && (0 <? remainingBits) then
         let mask := band (shl 0xffff (16 - remainingBits)) 0xffff in
         set networkHextets i (Num (band (ToInt32 (get networkHextets i)) mask))
       else set networkHextets i (Num 0))
    hextets.

Definition getAddressRange (hextets : list Number) (prefixLength : Z)
  : string * string :=
  let networkHextets := getNetworkAddress hextets prefixLength in
  let fullHextets := prefixLength / 16 in
  let remainingBits := Z.rem prefixLength 16 in
  let lastHextets :=
    forRange fullHextets 8
      (fun i lastHextets =>
         if (i =? fullHextets) && (0 <? remainingBits) then
           let hostMask := shl 1 (16 - remainingBits) - 1 in
           set lastHextets i (Num (bor (ToInt32 (get lastHextets i)) hostMask))
         else set lastHextets i (Num 0xffff))
      networkHextets in
  (toCompressed networkHextets, toCompressed lastHextets).

Definition toReverseDNS (hextets : list Number) : string :=
  let expanded := toExpanded hextets in
  let nibbles := rev (chars (removeAll ":" expanded)) in
  join nibbles "." +:+ ".ip6.arpa".

Definition every (p : Number -> bool) (a : list Number) : bool := forallb p a.

Definition isZero (h : Number) : bool := strictEq h (Num 0).

(** [(hextets[i] & mask) === value] *)
Definition masked (hextets : list Number) (i mask value : Z) : bool :=
  band (ToInt32 (get hextets i)) mask =? value.

Definition getAddressType (hextets : list Number) : AddressType.t :=
  if every isZero hextets then AddressType.Unspecified
  else if every isZero (slice hextets 0 7)
          && strictEq (get hextets 7) (Num 1) then AddressType.Loopback
  else if strictEq (get hextets 0) (Num 0xfe80) then AddressType.LinkLocal
  else if masked hextets 0 0xfe00 0xfc00 then AddressType.UniqueLocal
  else if masked hextets 0 0xff00 0xff00 then AddressType.Multicast
  else if every isZero (slice hextets 0 5)
          && strictEq (get hextets 5) (Num 0xffff) then AddressType.IPv4Mapped
  else if every isZero (slice hextets 0 6) then AddressType.IPv4Compatible
  else if strictEq (get hextets 0) (Num 0x2001)
          && strictEq (get hextets 1) (Num 0x0000) then AddressType.Teredo
  else if strictEq (get hextets 0) (Num 0x2002) then AddressType.SixToFour
  else if strictEq (get hextets 0) (Num 0x2001)
          && masked hextets 1 0xfff8 0x0db8 then AddressType.Documentation
  else if masked hextets 0 0xe000 0x2000 then AddressType.GlobalUnicast
  else AddressType.Reserved.

Definition getAddressScope (hextets : list Number)
    (addressType : AddressType.t) : AddressScope.t :=
  match addressType with
  | AddressType.Loopback | AddressType.Unspecified =>
      AddressScope.InterfaceLocal
  | AddressType.LinkLocal => AddressScope.LinkLocal
  | AddressType.UniqueLocal => AddressScope.OrganizationLocal
  | AddressType.GlobalUnicast | AddressType.IPv4Mapped => AddressScope.Global
  | AddressType.Multicast =>
      let scopeField := band (ToInt32 (get hextets 0)) 0x000f in
      if scopeField =? 1 then AddressScope.InterfaceLocal
      else if scopeField =? 2 then AddressScope.LinkLocal
      else if scopeField =? 4 then AddressScope.AdminLocal
      else if scopeField =? 5 then AddressScope.SiteLocal
      else if scopeField =? 8 then AddressScope.OrganizationLocal
      else if scopeField =? 14 then AddressScope.Global
      else AddressScope.Global
  | _ => AddressScope.Global
  end.

Definition isIPv4Mapped (hextets : list Number) : bool :=
  every isZero (slice hextets 0 5) && strictEq (get hextets 5) (Num 0xffff).

Definition isIPv4Compatible (hextets : list Number) : bool :=
  every isZero (slice hextets 0 6)
  && (negb (strictEq (get hextets 6) (Num 0))
      || negb (strictEq (get hextets 7) (Num 0)))
  && negb (strictEq (get hextets 7) (Num 1)).

Definition getRFCCompliance (hextets : list Number)
    (addressType : AddressType.t) : list RFCCompliance.t :=
  [ {| RFCCompliance.rfc := "RFC 4291";
       RFCCompliance.title := "IP Version 6 Addressing Architecture";
       RFCCompliance.compliant := true;
       RFCCompliance.notes := Some "Valid IPv6 address format" |};
    {| RFCCompliance.rfc := "RFC 5952";
       RFCCompliance.title :=
         "A Recommendation for IPv6 Address Text Representation";
       RFCCompliance.compliant := true;
       RFCCompliance.notes :=
         Some "Follows canonical text representation rules" |} ]
  ++ (if AddressType.eqb addressType AddressType.UniqueLocal then
        [ {| RFCCompliance.rfc := "RFC 4193";
             RFCCompliance.title := "Unique Local IPv6 Unicast Addresses";
             RFCCompliance.compliant := true;
             RFCCompliance.notes := Some "Valid ULA format (fc00::/7)" |} ]
      else [])
  ++ (if AddressType.eqb addressType AddressType.LinkLocal then
        [ {| RFCCompliance.rfc := "RFC 4007";
             RFCCompliance.title := "IPv6 Scoped Address Architecture";
             RFCCompliance.compliant := true;
             RFCCompliance.notes :=
               Some "Valid link-local address (fe80::/10)" |} ]
      else []).

Definition calculateTotalSubnets {host : Host} (prefixLength : Z) : string :=
  if 64 <=? prefixLength then
    let subnetBits := prefixLength - 48 in
    if subnetBits <=? 0 then "1"
    else toLocaleString (2 ^ subnetBits)
  else "N/A (prefix too short)".

(** [hostBits] is not negative here: the prefix length is at most 128. *)
Definition calculateTotalHosts {host : Host} (prefixLength : Z) : string :=
  let hostBits := 128 - prefixLength in
  if 64 <=? hostBits then
    "2^" +:+ show hostBits +:+ " ("
      +:+ bigIntToString (2 ^ hostBits) +:+ ")"
  else toLocaleString (2 ^ hostBits).

(** The loop of [toInteger] on big integers. *)
Fixpoint toIntegerLoop {host : Host} (hextets : list Number) (result : Z)
  : Completion Z :=
  match hextets with
  | [] => Normal result
  | h :: rest =>
      let result := Z.shiftl result 16 in
      bind (BigInt h) (fun b => toIntegerLoop rest (Z.lor result b))
  end.

Definition toInteger {host : Host} (hextets : list Number)
  : Completion string :=
  bind (toIntegerLoop hextets 0)
       (fun result => Normal (bigIntToString result)).

Definition isEUI64 {host : Host} (hextets : list Number) : Completion bool :=
  bind (BigInt (get hextets 4)) (fun h4 =>
  bind (BigInt (get hextets 5)) (fun h5 =>
  bind (BigInt (get hextets 6)) (fun h6 =>
  bind (BigInt (get hextets 7)) (fun h7 =>
  let interfaceId :=
    Z.lor (Z.lor (Z.lor (Z.shiftl h4 48) (Z.shiftl h5 32)) (Z.shiftl h6 16))
          h7 in
  let middle16 := Z.land (Z.shiftr interfaceId 24) 0xffff in
  Normal (middle16 =? 0xfffe))))).

(** The record both failure paths of [parse] return. *)
Definition invalidAddress (trimmedInput : string) (error : option string)
  : IPv6Address.t :=
  {| IPv6Address.input := trimmedInput;
     IPv6Address.isValid := false;
     IPv6Address.error := error;
     IPv6Address.expanded := "";
     IPv6Address.compressed := "";
     IPv6Address.binary := "";
     IPv6Address.hex := "";
     IPv6Address.integer := "";
     IPv6Address.base64 := "";
     IPv6Address.networkAddress := "";
     IPv6Address.prefixLength := 0;
     IPv6Address.firstAddress := "";
     IPv6Address.lastAddress := "";
     IPv6Address.totalHosts := "";
     IPv6Address.totalSubnets := "";
     IPv6Address.reverseDNS := "";
     IPv6Address.addressType := AddressType.Reserved;
     IPv6Address.scope := AddressScope.Global;
     IPv6Address.isIPv4Mapped := false;
     IPv6Address.isIPv4Compatible := false;
     IPv6Address.isEUI64 := false;
     IPv6Address.isSLAACCompatible := false;
     IPv6Address.rfcCompliance := [] |}.

(** The body of the [try] block of [parse]. *)
Definition parseTry {host : Host} (trimmedInput : string)
  : Completion IPv6Address.t :=
  let parsed := parseIPv6String trimmedInput in
  if negb (ParsedIPv6.isValid parsed)
  then Normal (invalidAddress trimmedInput (ParsedIPv6.error parsed))
  else
    let hextets := ParsedIPv6.hextets parsed in
    let prefixLength := ParsedIPv6.prefixLength parsed in
    let expanded := toExpanded hextets in
    let compressed := toCompressed hextets in
    let binary := toBinary hextets in
    let addressType := getAddressType hextets in
    let scope := getAddressScope hextets addressType in
    let networkHextets := getNetworkAddress hextets prefixLength in
    let networkAddress := toCompressed networkHextets in
    let '(firstAddress, lastAddress) := getAddressRange hextets prefixLength in
    let totalHosts := calculateTotalHosts prefixLength in
    let totalSubnets := calculateTotalSubnets prefixLength in
    let hex := toHex hextets in
    bind (toInteger hextets) (fun integer =>
    let base64 := toBase64 hextets in
    let reverseDNS := toReverseDNS hextets in
    bind (isEUI64 hextets) (fun eui64 =>
    Normal
      {| IPv6Address.input := trimmedInput;
         IPv6Address.isValid := true;
         IPv6Address.error := None;
         IPv6Address.expanded := expanded;
         IPv6Address.compressed := compressed;
         IPv6Address.binary := binary;
         IPv6Address.hex := hex;
         IPv6Address.integer := integer;
         IPv6Address.base64 := base64;
         IPv6Address.networkAddress :=
           networkAddress +:+ "/" +:+ show prefixLength;
         IPv6Address.prefixLength := prefixLength;
         IPv6Address.firstAddress := firstAddress;
         IPv6Address.lastAddress := lastAddress;
         IPv6Address.totalHosts := totalHosts;
         IPv6Address.totalSubnets := totalSubnets;
         IPv6Address.reverseDNS := reverseDNS;
         IPv6Address.addressType := addressType;
         IPv6Address.scope := scope;
         IPv6Address.isIPv4Mapped := isIPv4Mapped hextets;
         IPv6Address.isIPv4Compatible := isIPv4Compatible hextets;
         IPv6Address.isEUI64 := eui64;
         IPv6Address.isSLAACCompatible := (prefixLength =? 64);
         IPv6Address.rfcCompliance := getRFCCompliance hextets addressType
      |})).

(** [parse]: what the [try] block throws is an [Error], whose message the
    [catch] block stores. *)
Definition parse {host : Host} (input : string) : IPv6Address.t :=
  let trimmedInput := trim input in
  match parseTry trimmedInput with
  | Normal address => address
  | Throw message => invalidAddress trimmedInput (Some message)
  end.

End IPv6Parser.

(** ** The subnet planner ([src/utils/subnetting.ts]) *)

Module IPv6Subnetting.

Definition parseHextets (expanded : string) : list Number :=
  map (fun hex => parseInt hex 16) (split expanded ":").

Definition hextetsToAddress (hextets : list Number) : string :=
  join (map (fun h => padStart (toString h 16) 4 "0") hextets) ":".

(** The [while] loop of [calculateSubnetAddress].  [currentHextetIndex]
    grows by one at every turn and the loop stops at 8, so [steps] bounds the
    number of turns; [calculateSubnetAddress] passes the distance to 8. *)
Fixpoint writeSubnetBits (steps : nat) (hextetIndex bitsInHextet : Z)
    (currentIndex remainingSubnetBits currentHextetIndex : Z)
    (result : list Number) : list Number :=
  match steps with
  | O => result
  | S steps' =>
      if (0 <? remainingSubnetBits) && (currentHextetIndex <? 8) then
        let availableBitsInHextet :=
          16 - (if currentHextetIndex =? hextetIndex then bitsInHextet else 0)
        in
        let bitsToUse := Z.min remainingSubnetBits availableBitsInHextet in
        let shift := availableBitsInHextet - bitsToUse in
        let mask := shl (shl 1 bitsToUse - 1) shift in
        let subnetPart :=
          band (sar currentIndex (remainingSubnetBits - bitsToUse))
               (shl 1 bitsToUse - 1) in
        let result :=
          set result currentHextetIndex
            (Num (bor (band (ToInt32 (get result currentHextetIndex))
                            (bnot mask))
                      (shl subnetPart shift))) in
        writeSubnetBits steps' hextetIndex bitsInHextet currentIndex
          (remainingSubnetBits - bitsToUse) (currentHextetIndex + 1) result
      else result
  end.

Definition calculateSubnetAddress (baseHextets : list Number)
    (basePrefixLength targetPrefixLength subnetIndex : Z) : list Number :=
  let subnetBits := targetPrefixLength - basePrefixLength in
  let totalBitsFromStart := basePrefixLength in
  let hextetIndex := totalBitsFromStart / 16 in
  let bitsInHextet := Z.rem totalBitsFromStart 16 in
  writeSubnetBits (Z.to_nat (8 - hextetIndex)) hextetIndex bitsInHextet
    subnetIndex subnetBits hextetIndex baseHextets.

Definition getSubnetRange (hextets : list Number) (prefixLength : Z)
  : string * string :=
  let fullHextets := prefixLength / 16 in
  let remainingBits := Z.rem prefixLength 16 in
  let '(firstHextets, lastHextets) :=
    forRange fullHextets 8
      (fun i '(firstHextets, lastHextets) =>
         if (i =? fullHextets) && (0 <? remainingBits) then
           let hostMask := shl 1 (16 - remainingBits) - 1 in
           (set firstHextets i
              (Num (band (ToInt32 (get firstHextets i)) (bnot hostMask))),
            set lastHextets i
              (Num (bor (ToInt32 (get lastHextets i)) hostMask)))
         else (set firstHextets i (Num 0), set lastHextets i (Num 0xffff)))
      (hextets, hextets) in
  (hextetsToAddress firstHextets, hextetsToAddress lastHextets).

(** [hostBits] is not negative here: the prefix length is at most 128. *)
Definition calculateHostCount {host : Host} (prefixLength : Z) : string :=
  let hostBits := 128 - prefixLength in
  if 64 <=? hostBits then "2^" +:+ show hostBits
  else toLocaleString (2 ^ hostBits).

(** The record [calculateSubnets] pushes for index [i]. *)
Definition subnetInfo {host : Host} (baseHextets : list Number)
    (basePrefixLength targetPrefixLength i : Z) : SubnetInfo.t :=
  let subnetHextets :=
    calculateSubnetAddress baseHextets basePrefixLength targetPrefixLength i in
  let network := hextetsToAddress subnetHextets in
  let '(first, last) := getSubnetRange subnetHextets targetPrefixLength in
  {| SubnetInfo.network := network +:+ "/" +:+ show targetPrefixLength;
     SubnetInfo.firstAddress := first;
     SubnetInfo.lastAddress := last;
     SubnetInfo.broadcastAddress := last;
     SubnetInfo.totalHosts := calculateHostCount targetPrefixLength |}.

(** [calculateSubnets(prefix, targetPrefixLength, count?)]; an absent [count]
    is [None].  [count ? a : b] takes the second branch for an absent count
    and for 0.  The loop pushes one record for each index: when more than
    [2^32 - 1] subnets are to be generated, the push that finds the array
    full throws, and no plan is returned. *)
Definition calculateSubnets {host : Host} (prefix : string)
    (targetPrefixLength : Z) (count : option Z) : Completion SubnetPlan.t :=
  let parsed := IPv6Parser.parse prefix in
  if negb (IPv6Address.isValid parsed) then Throw "Invalid IPv6 prefix"
  else if targetPrefixLength <=? IPv6Address.prefixLength parsed then
    Throw "Target prefix length must be longer than current prefix"
  else if 128 <? targetPrefixLength then
    Throw "Target prefix length cannot exceed 128"
  else
    let subnetBits := targetPrefixLength - IPv6Address.prefixLength parsed in
    let totalPossibleSubnets := 2 ^ subnetBits in
    let subnetsToGenerate :=
      match count with
      | Some c =>
          if c =? 0 then totalPossibleSubnets
          else Z.min c totalPossibleSubnets
      | None => totalPossibleSubnets
      end in
    let baseHextets := parseHextets (IPv6Address.expanded parsed) in
    bind
      (forRangeM 0 subnetsToGenerate
         (fun i subnets =>
            push subnets
              (subnetInfo baseHextets (IPv6Address.prefixLength parsed)
                 targetPrefixLength i))
         [])
      (fun subnets =>
         Normal
           {| SubnetPlan.originalPrefix := prefix;
              SubnetPlan.targetPrefixLength := targetPrefixLength;
              SubnetPlan.subnets := subnets;
              SubnetPlan.totalSubnets := totalPossibleSubnets |}).

(** The inner loop of [findCommonPrefixLength], over the bit numbers still
    to look at, from 15 down to 0; it stops at the first set bit. *)
Fixpoint countLeadingZeros (bits : list Z) (temp leadingZeros : Z) : Z :=
  match bits with
  | [] => leadingZeros
  | bit :: rest =>
      if band temp (shl 1 bit) =? 0
      then countLeadingZeros rest temp (leadingZeros + 1)
      else leadingZeros
  end.

Definition bitsDown : list Z :=
  [15; 14; 13; 12; 11; 10; 9; 8; 7; 6; 5; 4; 3; 2; 1; 0].

(** The outer loop of [findCommonPrefixLength], over the word indices still
    to look at; it stops at the first pair of words that differ. *)
Fixpoint commonBitsLoop (indices : list Z) (hextets1 hextets2 : list Number)
    (commonBits : Z) : Z :=
  match indices with
  | [] => commonBits
  | i :: rest =>
      let xor := bxor (ToInt32 (get hextets1 i)) (ToInt32 (get hextets2 i)) in
      if xor =? 0 then commonBitsLoop rest hextets1 hextets2 (commonBits + 16)
      else commonBits + countLeadingZeros bitsDown xor 0
  end.

Definition findCommonPrefixLength (addr1 addr2 : string) : Z :=
  let hextets1 := parseHextets addr1 in
  let hextets2 := parseHextets addr2 in
  commonBitsLoop [0; 1; 2; 3; 4; 5; 6; 7] hextets1 hextets2 0.

Definition getNetworkHextets (expanded : string) (prefixLength : Z)
  : list Number :=
  let hextets := parseHextets expanded in
  let fullHextets := prefixLength / 16 in
  let remainingBits := Z.rem prefixLength 16 in
  forRange fullHextets 8
    (fun i result =>
       if (i =? fullHextets) && (0 <? remainingBits) then
         let mask := band (shl 0xffff (16 - remainingBits)) 0xffff in
         assign result i (Num (band (ToInt32 (get result i)) mask))
       else assign result i (Num 0))
    hextets.

(** [{ ...currentBlock, networkAddress, prefixLength }] *)
Definition withNetwork (block : IPv6Address.t) (networkAddress : string)
    (prefixLength : Z) : IPv6Address.t :=
  {| IPv6Address.input := IPv6Address.input block;
     IPv6Address.isValid := IPv6Address.isValid block;
     IPv6Address.error := IPv6Address.error block;
     IPv6Address.expanded := IPv6Address.expanded block;
     IPv6Address.compressed := IPv6Address.compressed block;
     IPv6Address.binary := IPv6Address.binary block;
     IPv6Address.hex := IPv6Address.hex block;
     IPv6Address.integer := IPv6Address.integer block;
     IPv6Address.base64 := IPv6Address.base64 block;
     IPv6Address.networkAddress := networkAddress;
     IPv6Address.prefixLength := prefixLength;
     IPv6Address.firstAddress := IPv6Address.firstAddress block;
     IPv6Address.lastAddress := IPv6Address.lastAddress block;
     IPv6Address.totalHosts := IPv6Address.totalHosts block;
     IPv6Address.totalSubnets := IPv6Address.totalSubnets block;
     IPv6Address.reverseDNS := IPv6Address.reverseDNS block;
     IPv6Address.addressType := IPv6Address.addressType block;
     IPv6Address.scope := IPv6Address.scope block;
     IPv6Address.isIPv4Mapped := IPv6Address.isIPv4Mapped block;
     IPv6Address.isIPv4Compatible := IPv6Address.isIPv4Compatible block;
     IPv6Address.isEUI64 := IPv6Address.isEUI64 block;
     IPv6Address.isSLAACCompatible := IPv6Address.isSLAACCompatible block;
     IPv6Address.rfcCompliance := IPv6Address.rfcCompliance block |}.

(** The loop of [summarizeRoutes] over the networks that follow the current
    block, and the push that ends it. *)
Fixpoint summarizeLoop (networks : list IPv6Address.t)
    (currentBlock : IPv6Address.t) (summarized : list string) : list string :=
  match networks with
  | [] => summarized ++ [IPv6Address.networkAddress currentBlock]
  | next :: rest =>
      let commonPrefixLength :=
        findCommonPrefixLength (IPv6Address.expanded currentBlock)
          (IPv6Address.expanded next) in
      if Z.min (IPv6Address.prefixLength currentBlock)
               (IPv6Address.prefixLength next) - 1 <=? commonPrefixLength
      then
        let mergedPrefixLength :=
          Z.min commonPrefixLength (IPv6Address.prefixLength currentBlock - 1)
        in
        let networkHextets :=
          getNetworkHextets (IPv6Address.expanded currentBlock)
            mergedPrefixLength in
        summarizeLoop rest
          (withNetwork currentBlock
             (hextetsToAddress networkHextets +:+ "/"
                +:+ show mergedPrefixLength)
             mergedPrefixLength)
          summarized
      else
        summarizeLoop rest next
          (summarized ++ [IPv6Address.networkAddress currentBlock])
  end.

Definition summarizeRoutes {host : Host} {collation : Collation}
    (prefixes : list string) : list string :=
  let networks :=
    sortWith _
      (fun a b =>
         localeCompare (IPv6Address.expanded a) (IPv6Address.expanded b))
      (filter IPv6Address.isValid (map IPv6Parser.parse prefixes)) in
  match networks with
  | [] => []
  | first :: rest => summarizeLoop rest first []
  end.

End IPv6Subnetting.

(** ** A host for closed examples

    It groups the decimal digits by three with commas, as engines do in the
    en-US locale for integers below [2^53], and reports range errors with the
    wording of V8. *)

Fixpoint groupThousands (digits : list string) : string :=
  match digits with
  | [] => EmptyString
  | d :: rest =>
      d +:+ (if ((0 <? List.length rest) && (List.length rest mod 3 =? 0))%nat
             then "," else "") +:+ groupThousands rest
  end.

Definition v8RangeError (x : Number) : string :=
  "The number " +:+ toString x 10
    +:+ " cannot be converted to a BigInt because it is not an integer".

Definition sampleHost : Host := {|
  toLocaleString := fun z => groupThousands (chars (show z));
  bigIntRangeError := v8RangeError;
  bigIntRangeError_nonempty :=
    fun x => ltac:(unfold v8RangeError; simpl; discriminate);
  arrayLengthError := "Invalid array length"
|}.

(** ** A collation for closed examples

    It compares strings by code units, which is how locale collations order
    expanded addresses: these differ in hex digits only, at the same
    places.  The sort is an insertion sort. *)

Fixpoint insertBy {A : Type} (compare : A -> A -> Z) (x : A) (l : list A)
  : list A :=
  match l with
  | [] => [x]
  | y :: rest =>
      if compare x y <=? 0 then x :: l else y :: insertBy compare x rest
  end.

Definition sortBy {A : Type} (compare : A -> A -> Z) (l : list A) : list A :=
  fold_right (insertBy compare) [] l.

Definition compareCodeUnits (a b : string) : Z :=
  match String.compare a b with
  | Lt => -1
  | Eq => 0
  | Gt => 1
  end.

Definition sampleCollation : Collation := {|
  localeCompare := compareCodeUnits;
  sortWith := fun A => sortBy;
  sortWith_permutation := fun A compare l =>
    ltac:(induction l as [|x l IH]; [apply perm_nil|];
          change (sortBy compare (x :: l))
            with (insertBy compare x (sortBy compare l));
          apply Permutation_trans with (x :: sortBy compare l);
            [|apply perm_skip; exact IH];
          generalize (sortBy compare l) as s; intros s;
          induction s as [|y s IHs]; cbn [insertBy];
            [apply Permutation_refl|];
          destruct (compare x y <=? 0); [apply Permutation_refl|];
          apply Permutation_trans with (y :: x :: s);
            [apply perm_skip; exact IHs | apply perm_swap])
|}.

(** ** The vocabulary of the specification *)

Module Spec.

(** Word128: exactly 8 words, each in [0, 0xFFFF]. *)
Definition Word128 (w : list Z) : Prop :=
  List.length w = 8%nat /\ Forall (fun z => 0 <= z <= 0xffff) w.

Definition isWord128 (w : list Z) : bool :=
  (List.length w =? 8)%nat && forallb (fun z => (0 <=? z) && (z <=? 0xffff)) w.

(** The four hexadecimal digits of a word, most significant first. *)
Definition nibbles (z : Z) : list Z :=
  [z / 4096 mod 16; z / 256 mod 16; z / 16 mod 16; z mod 16].

Definition hexDigit (d : Z) : string :=
  nth (Z.to_nat d)
    ["0"; "1"; "2"; "3"; "4"; "5"; "6"; "7"; "8"; "9"; "a"; "b"; "c"; "d";
     "e"; "f"] "?".

Fixpoint dropLeadingZeros (digits : list Z) : list Z :=
  match digits with
  | 0 :: (_ :: _) as rest => dropLeadingZeros rest
  | _ => digits
  end.

(** A word as lowercase hex with no leading zeros. *)
Definition hexWord (z : Z) : string :=
  String.concat "" (map hexDigit (dropLeadingZeros (nibbles z))).

(** A word as 4-digit lowercase hex. *)
Definition hexWord4 (z : Z) : string :=
  String.concat "" (map hexDigit (nibbles z)).

(** Expanded rendering: each word as 4-digit lowercase hex, colon-joined. *)
Definition render_expanded (w : list Z) : string :=
  String.concat ":" (map hexWord4 w).

(** A run of consecutive zero words: [n >= 1] words from index [s] on. *)
Definition isZeroRun (zero : list bool) (s n : nat) : bool :=
  (1 <=? n)%nat && (s + n <=? List.length zero)%nat
  && forallb (fun b => b) (firstn n (skipn s zero)).

(** A run is maximal when it can be extended on neither side. *)
Definition isMaximalRun (zero : list bool) (s n : nat) : bool :=
  isZeroRun zero s n
  && ((s =? 0)%nat || negb (nth (s - 1) zero false))
  && negb (nth (s + n) zero false).

Definition maximalRuns (zero : list bool) : list (nat * nat) :=
  filter (fun '(s, n) => isMaximalRun zero s n)
    (list_prod (seq 0 (List.length zero)) (seq 1 (List.length zero))).

(** Among the maximal runs of length at least 2, the longest one, and of
    several longest ones the leftmost. *)
Definition selectedRun (zero : list bool) : option (nat * nat) :=
  let runs := maximalRuns zero in
  find (fun '(s, n) =>
          (2 <=? n)%nat
          && forallb (fun '(s', n') =>
                        (n' <? n)%nat || ((n' =? n)%nat && (s <=? s')%nat))
                     runs)
       runs.

(** Compressed rendering: the selected run replaced with [::], all other
    words as hex with no leading zeros. *)
Definition render_compressed (w : list Z) : string :=
  match selectedRun (map (Z.eqb 0) w) with
  | Some (s, n) =>
      String.concat ":" (map hexWord (firstn s w)) +:+ "::"
        +:+ String.concat ":" (map hexWord (skipn (s + n) w))
  | None => String.concat ":" (map hexWord w)
  end.

(** The value of an address and its words. *)
Definition toValue (w : list Z) : Z :=
  fold_left (fun acc h => acc * 65536 + h) w 0.

Definition ofValue (a : Z) : list Z :=
  map (fun k => a / 2 ^ (16 * (7 - Z.of_nat k)) mod 65536) (seq 0 8).

(** The binary representation of [i], zero-padded to [t - p] bits, written
    into the bit positions [p, t) of the address, most significant bit first
    (position 0 is the top bit); the bits outside are kept. *)
Definition writeBits (w : list Z) (p t i : Z) : list Z :=
  let a := toValue w in
  let above := a / 2 ^ (128 - p) in
  let below := a mod 2 ^ (128 - t) in
  ofValue (above * 2 ^ (128 - p) + (i mod 2 ^ (t - p)) * 2 ^ (128 - t) + below).

(** Rule 3 of the classification list: the top 10 bits are 1111 1110 10. *)
Definition linkLocalPattern (w : list Z) : bool :=
  Z.land (nth 0 w 0) 0xffc0 =? 0xfe80.

Definition allZero (w : list Z) : bool := forallb (Z.eqb 0) w.

Definition loopbackPattern (w : list Z) : bool :=
  forallb (Z.eqb 0) (firstn 7 w) && (nth 7 w 0 =? 1).

(** A group of 1 to 4 hex digits. *)
Definition isHexDigit (c : ascii) : bool :=
  match digitValue c with Some d => d <? 16 | None => false end.

Definition isHextetText (s : string) : bool :=
  (1 <=? String.length s)%nat && (String.length s <=? 4)%nat
  && allChars isHexDigit s.

(** The shorthand [::ffff:a.b.c.d] written from four octets. *)
Definition mappedShorthand (a b c d : Z) : string :=
  "::ffff:" +:+ show a +:+ "." +:+ show b +:+ "." +:+ show c +:+ "."
    +:+ show d.

End Spec.

(** ** Auxiliary definitions of the proofs *)

(** A character that is not the given one. *)
Definition isNot (c : ascii) : ascii -> bool := fun x => negb (x =? c)%char.

(** A group: a non-empty string without a colon. *)
Definition group (s : string) : Prop :=
  s <> "" /\ allChars (isNot ":") s = true.

Definition isHexLower (c : ascii) : bool :=
  let n := code c in
  ((48 <=? n) && (n <=? 57)) || ((97 <=? n) && (n <=? 102)).

(** The characters of a rendered address. *)
Definition isAddressChar (c : ascii) : bool :=
  isHexLower c || (c =? ":")%char.

(** The text [s] is a group that [parseInt] reads as the word [z]. *)
Definition reads (s : string) (z : Z) : Prop :=
  group s /\ parseInt s 16 = Num z /\ 0 <= z <= 0xffff.

(** The two renderings of a word used by the codec. *)
Definition hexs (z : Z) : string := toString (Num z) 16.
Definition hex4 (z : Z) : string := padStart (toString (Num z) 16) 4 "0".

(** Everything the proofs need to know about one word, as a test. *)
Definition wordCheck (z : Z) : bool :=
  let h := hexs z in
  let h4 := padStart h 4 "0" in
  let back := parseInt h4 16 in
  negb (isEmpty h) && allChars isHexLower h
  && strictEq (parseInt h 16) (Num z)
  && negb (isEmpty h4) && allChars isHexLower h4
  && strictEq back (Num z)
  && (toString back 16 =? h)%string
  && Bool.eqb (h4 =? "0000")%string (z =? 0)
  && (Spec.hexWord z =? h)%string
  && (Spec.hexWord4 z =? h4)%string.

Fixpoint upTo (n : nat) (from : Z) : list Z :=
  match n with
  | O => []
  | S k => from :: upTo k (from + 1)
  end.

Definition allWords : list Z := upTo (Z.to_nat 65536) 0.

Record WordFacts (z : Z) : Prop := {
  hexs_nonempty : hexs z <> "";
  hexs_chars : allChars isHexLower (hexs z) = true;
  hexs_parse : parseInt (hexs z) 16 = Num z;
  hex4_nonempty : hex4 z <> "";
  hex4_chars : allChars isHexLower (hex4 z) = true;
  hex4_parse : parseInt (hex4 z) 16 = Num z;
  hex4_strip : IPv6Parser.stripZeros (hex4 z) = hexs z;
  hex4_zero : (hex4 z =? "0000")%string = (z =? 0);
  spec_hexWord : Spec.hexWord z = hexs z;
  spec_hexWord4 : Spec.hexWord4 z = hex4 z
}.

(** The zero pattern of a word list, as a word list of zeros and ones. *)
Definition canon (z : Z) : Z := if z =? 0 then 0 else 1.

Fixpoint patterns (n : nat) : list (list Z) :=
  match n with
  | O => [[]]
  | S k => map (cons 0) (patterns k) ++ map (cons 1) (patterns k)
  end.

Definition patternCheck (pt : list Z) : bool :=
  let longest := IPv6Parser.longestSequence (map hex4 pt) in
  let s := IPv6Parser.start longest in
  let n := IPv6Parser.length longest in
  let selected := Spec.selectedRun (map (Z.eqb 0) pt) in
  if 1 <? n then
    (0 <=? s) && (s + n <=? 8)
    && forallb (Z.eqb 0) (firstn (Z.to_nat n) (skipn (Z.to_nat s) pt))
    && match selected with
       | Some (s', n') => (Z.of_nat s' =? s) && (Z.of_nat n' =? n)
       | None => false
       end
  else match selected with None => true | Some _ => false end.

Fixpoint flagPatterns (n : nat) : list (list bool) :=
  match n with
  | O => [[]]
  | S k => map (cons true) (flagPatterns k) ++ map (cons false) (flagPatterns k)
  end.

Definition runCheck (zero : list bool) : bool :=
  let candidates := list_prod (seq 0 9) (seq 0 10) in
  match Spec.selectedRun zero with
  | Some (s, n) =>
      (2 <=? n)%nat && Spec.isMaximalRun zero s n
      && forallb
           (fun '(s', n') =>
              implb (Spec.isMaximalRun zero s' n')
                    ((n' <? n)%nat || ((n' =? n)%nat && (s <=? s')%nat)))
           candidates
  | None =>
      forallb
        (fun '(s', n') => implb (Spec.isMaximalRun zero s' n') (n' <? 2)%nat)
        candidates
  end.

(** The words the record returned by [parse] is rendered from. *)
Definition word128 (input : string) : option (list Number) :=
  let parsed := IPv6Parser.parseIPv6String (trim input) in
  if ParsedIPv6.isValid parsed then Some (ParsedIPv6.hextets parsed) else None.

(** Whether the code and the specification write the index [i] alike. *)
Definition writesAgree (base : list Z) (p t i : Z) : bool :=
  let written :=
    IPv6Subnetting.calculateSubnetAddress (map Num base) p t i in
  (List.length written =? 8)%nat
  && forallb (fun '(a, b) => strictEq a (Num b))
       (combine written (Spec.writeBits base p t i)).

Definition sampleIndices (k : Z) : list Z :=
  [0; 1; 2 ^ k - 1; 2 ^ (k - 1); 2 ^ k / 3].

Definition samplePrefixes : list Z := [0; 15; 16; 33; 64; 95].

Definition digitCheck (d : Z) : bool :=
  match digitValue (digitChar d) with
  | Some v => v =? d
  | None => false
  end.

(** The body of an input: what is left once the prefix length is taken
    off. *)
Definition body (input : string) : string :=
  match IPv6Parser.prefixMatch input with
  | Some (address, _) => address
  | None => input
  end.

(** What the parser guarantees of an accepted word. *)
Definition bounded (h : Number) : Prop :=
  isNaN h = false /\ gt h (Num 0xffff) = false.

Definition octetCheck (a : Z) : bool :=
  let s := show a in
  negb (isEmpty s) && allChars isDigit s && (decimalValue s =? a).

(** The text [text] is a rendering of the words [w]: it is made of the
    characters of a rendered address and parses to [w] under any prefix
    length. *)
Record Rendered (text : string) (w : list Z) : Prop := {
  rendered_nonempty : text <> "";
  rendered_chars_ok : allChars isAddressChar text = true;
  rendered_parse : forall p,
    IPv6Parser.parseAddress text p = IPv6Parser.valid (map Num w) p
}.

(** The word [z] in binary, as [toBinary] renders it. *)
Definition bin16 (z : Z) : string := padStart (toString (Num z) 2) 16 "0".

Definition binCheck (z : Z) : bool :=
  let b := bin16 z in
  allChars (isNot " ") b && strictEq (parseInt b 2) (Num z).

Definition nibbleCheck (n : Z) : bool :=
  match Spec.hexDigit n with
  | String c EmptyString =>
      match radixDigit 16 c with Some v => v =? n | None => false end
  | _ => false
  end.

Definition nibblesCheck (z : Z) : bool :=
  match Spec.nibbles z with
  | [a; b; c; d] =>
      forallb (fun n => (0 <=? n) && (n <? 16)) [a; b; c; d]
      && (((a * 16 + b) * 16 + c) * 16 + d =? z)
  | _ => false
  end.

(** The value read by [parseDigits] so far. *)
Definition soFar (acc : option Z) : Z :=
  match acc with Some a => a | None => 0 end.

(** The record shows the words [hextets] and the prefix length [p]: every
    field is the one [parse] derives from them. *)
Record Derived {host : Host} (record : IPv6Address.t) (hextets : list Number)
    (p : Z) : Prop := {
  derived_valid : IPv6Address.isValid record = true;
  derived_error : IPv6Address.error record = None;
  derived_expanded :
    IPv6Address.expanded record = IPv6Parser.toExpanded hextets;
  derived_compressed :
    IPv6Address.compressed record = IPv6Parser.toCompressed hextets;
  derived_binary : IPv6Address.binary record = IPv6Parser.toBinary hextets;
  derived_hex : IPv6Address.hex record = IPv6Parser.toHex hextets;
  derived_integer :
    IPv6Parser.toInteger hextets = Normal (IPv6Address.integer record);
  derived_base64 : IPv6Address.base64 record = IPv6Parser.toBase64 hextets;
  derived_networkAddress :
    IPv6Address.networkAddress record
    = IPv6Parser.toCompressed (IPv6Parser.getNetworkAddress hextets p)
        +:+ "/" +:+ show p;
  derived_prefixLength : IPv6Address.prefixLength record = p;
  derived_firstAddress :
    IPv6Address.firstAddress record
    = fst (IPv6Parser.getAddressRange hextets p);
  derived_lastAddress :
    IPv6Address.lastAddress record
    = snd (IPv6Parser.getAddressRange hextets p);
  derived_totalHosts :
    IPv6Address.totalHosts record = IPv6Parser.calculateTotalHosts p;
  derived_totalSubnets :
    IPv6Address.totalSubnets record = IPv6Parser.calculateTotalSubnets p;
  derived_reverseDNS :
    IPv6Address.reverseDNS record = IPv6Parser.toReverseDNS hextets;
  derived_addressType :
    IPv6Address.addressType record = IPv6Parser.getAddressType hextets;
  derived_scope :
    IPv6Address.scope record
    = IPv6Parser.getAddressScope hextets (IPv6Parser.getAddressType hextets);
  derived_isIPv4Mapped :
    IPv6Address.isIPv4Mapped record = IPv6Parser.isIPv4Mapped hextets;
  derived_isIPv4Compatible :
    IPv6Address.isIPv4Compatible record = IPv6Parser.isIPv4Compatible hextets;
  derived_isEUI64 :
    IPv6Parser.isEUI64 hextets = Normal (IPv6Address.isEUI64 record);
  derived_isSLAACCompatible :
    IPv6Address.isSLAACCompatible record = (p =? 64);
  derived_rfcCompliance :
    IPv6Address.rfcCompliance record
    = IPv6Parser.getRFCCompliance hextets (IPv6Parser.getAddressType hextets)
}.

Definition isBit (c : ascii) : bool := (c =? "0")%char || (c =? "1")%char.

(** The masks of the classifier on one word, as ranges. *)
Definition maskCheck (z : Z) : bool :=
  Bool.eqb (Z.land z 0xfe00 =? 0xfc00) ((0xfc00 <=? z) && (z <=? 0xfdff))
  && Bool.eqb (Z.land z 0xff00 =? 0xff00) (0xff00 <=? z)
  && Bool.eqb (Z.land z 0xfff8 =? 0x0db8) ((0x0db8 <=? z) && (z <=? 0x0dbf))
  && Bool.eqb (Z.land z 0xe000 =? 0x2000) ((0x2000 <=? z) && (z <=? 0x3fff))
  && (Z.land z 0x000f =? z mod 16).

(** What the loops over the words from index [q] on compute: the words
    before [q] are kept, the word [q] goes through [f] and every later word
    is replaced with [v]. *)
Definition maskFrom {A : Type} (q : nat) (f : A -> A) (v : A) (l : list A)
  : list A :=
  firstn q l
  ++ match skipn q l with
     | [] => []
     | x :: rest => f x :: map (fun _ => v) rest
     end.

(** The top [n] bits of a 16-bit word, the other bits cleared. *)
Definition keepBits (n x : Z) : Z := x / 2 ^ (16 - n) * 2 ^ (16 - n).

(** The words of an address with all bits after the first [p] cleared, and
    with all of them set. *)
Definition networkWords (w : list Z) (p : Z) : list Z :=
  maskFrom (Z.to_nat (p / 16)) (keepBits (p mod 16)) 0 w.

Definition lastWords (w : list Z) (p : Z) : list Z :=
  maskFrom (Z.to_nat (p / 16))
    (fun x => keepBits (p mod 16) x + 2 ^ (16 - p mod 16) - 1) 0xffff w.

(** The number of leading bits two lists of 16-bit words have in common. *)
Fixpoint commonBits (a b : list Z) : Z :=
  match a, b with
  | x :: a', y :: b' =>
      if x =? y then 16 + commonBits a' b'
      else 15 - Z.log2 (Z.lxor x y)
  | _, _ => 0
  end.

(** * Properties *)

(** ** Strings *)

Lemma append_empty_r : forall s, s +:+ "" = s.
Proof. induction s as [|c s IH]; simpl; [reflexivity | now rewrite IH]. Qed.

Lemma append_assoc : forall s t u, (s +:+ t) +:+ u = s +:+ (t +:+ u).
Proof. induction s as [|c s IH]; intros; simpl; [reflexivity | now rewrite IH]. Qed.

Lemma length_append : forall s t,
  String.length (s +:+ t) = (String.length s + String.length t)%nat.
Proof. induction s as [|c s IH]; intros; simpl; [reflexivity | now rewrite IH]. Qed.

Lemma allChars_append : forall p s t,
  allChars p (s +:+ t) = allChars p s && allChars p t.
Proof.
  induction s as [|c s IH]; intros; simpl; [reflexivity|].
  now rewrite IH, andb_assoc.
Qed.

Lemma allChars_impl : forall (p q : ascii -> bool) s,
  (forall c, p c = true -> q c = true) ->
  allChars p s = true -> allChars q s = true.
Proof.
  intros p q s Hpq; induction s as [|c s IH]; simpl; [reflexivity|].
  intros H; apply andb_true_iff in H as [Hc Hs].
  now rewrite (Hpq _ Hc), IH.
Qed.

Lemma allChars_join : forall p sep l,
  allChars p sep = true ->
  Forall (fun s => allChars p s = true) l ->
  allChars p (join l sep) = true.
Proof.
  intros p sep l Hsep; induction 1 as [|s l Hs Hl IH]; [reflexivity|].
  unfold join in *; simpl. destruct l as [|s' l']; [exact Hs|].
  now rewrite !allChars_append, Hs, Hsep, IH.
Qed.

Lemma isNot_neq : forall c x, isNot c x = true -> c <> x.
Proof.
  unfold isNot; intros c x H E; subst.
  now rewrite Ascii.eqb_refl in H.
Qed.

(** *** [trim] *)

Lemma trimEnd_id : forall s,
  allChars (fun c => negb (isWhiteSpace c)) s = true -> trimEnd s = s.
Proof.
  induction s as [|c s IH]; simpl; [reflexivity|].
  intros H; apply andb_true_iff in H as [Hc Hs].
  apply negb_true_iff in Hc. now rewrite Hc, IH.
Qed.

Lemma trim_id : forall s,
  allChars (fun c => negb (isWhiteSpace c)) s = true -> trim s = s.
Proof.
  intros s H; unfold trim.
  replace (trimStart s) with s; [now apply trimEnd_id|].
  destruct s as [|c s]; simpl in *; [reflexivity|].
  apply andb_true_iff in H as [Hc _]. apply negb_true_iff in Hc.
  now rewrite Hc.
Qed.

(** *** [split] and [join] *)

Lemma split_go_skip : forall c0 sep' s cur rest,
  allChars (isNot c0) s = true ->
  split_go (String c0 sep') 0 cur (s +:+ rest)
  = split_go (String c0 sep') 0 (cur +:+ s) rest.
Proof.
  intros c0 sep'; induction s as [|c s IH]; intros cur rest H.
  - simpl. now rewrite append_empty_r.
  - simpl in H. apply andb_true_iff in H as [Hc Hs].
    apply isNot_neq in Hc.
    cbn [append split_go prefix].
    destruct (ascii_dec c0 c) as [E|_]; [contradiction|].
    rewrite IH by assumption.
    now rewrite append_assoc.
Qed.

Lemma split_lacking : forall c0 sep' s,
  allChars (isNot c0) s = true -> split s (String c0 sep') = [s].
Proof.
  intros c0 sep' s H; unfold split.
  rewrite <- (append_empty_r s) at 1.
  now rewrite split_go_skip.
Qed.

Lemma split_go_colon : forall cur rest,
  split_go ":" 0 cur (String ":" rest) = cur :: split_go ":" 0 "" rest.
Proof.
  intros cur rest; cbn [split_go prefix].
  destruct (ascii_dec ":" ":") as [_|N]; [|contradiction].
  now destruct rest.
Qed.

Lemma split_go_join_colon : forall ws w cur,
  Forall (fun s => allChars (isNot ":") s = true) (w :: ws) ->
  split_go ":" 0 cur (join (w :: ws) ":") = (cur +:+ w) :: ws.
Proof.
  induction ws as [|w2 ws IH]; intros w cur H.
  - unfold join; simpl. inversion H; subst.
    rewrite <- (append_empty_r w) at 1.
    now rewrite split_go_skip.
  - inversion H as [|? ? Hw Hws]; subst.
    change (join (w :: w2 :: ws) ":") with (w +:+ String ":" (join (w2 :: ws) ":")).
    rewrite split_go_skip by assumption.
    rewrite split_go_colon, IH by assumption.
    reflexivity.
Qed.

(** Splitting a colon-joined list of colon-free strings gives the list
    back. *)
Lemma split_join_colon : forall ws,
  ws <> [] ->
  Forall (fun s => allChars (isNot ":") s = true) ws ->
  split (join ws ":") ":" = ws.
Proof.
  intros [|w ws] Hne H; [contradiction|].
  unfold split. now rewrite split_go_join_colon.
Qed.

Lemma group_head : forall s, group s ->
  exists c s', s = String c s' /\ ":"%char <> c.
Proof.
  intros [|c s'] [Hne H]; [contradiction|].
  exists c, s'; split; [reflexivity|].
  simpl in H. apply andb_true_iff in H as [Hc _]. now apply isNot_neq.
Qed.

Lemma split_go_single_colon : forall cur c rest,
  ":"%char <> c ->
  split_go "::" 0 cur (String ":" (String c rest))
  = split_go "::" 0 (cur +:+ ":") (String c rest).
Proof.
  intros cur c rest Hc. cbn [split_go prefix].
  destruct (ascii_dec ":" ":") as [_|N]; [|contradiction].
  destruct (ascii_dec ":" c) as [E|_]; [contradiction|].
  reflexivity.
Qed.

Lemma split_go_double_colon : forall cur rest,
  split_go "::" 0 cur (String ":" (String ":" rest))
  = cur :: split_go "::" 0 "" rest.
Proof.
  intros cur rest. cbn [split_go prefix String.length Nat.sub].
  destruct (ascii_dec ":" ":") as [_|N]; [|contradiction].
  now destruct rest.
Qed.

Lemma split_go_groups : forall ws cur rest,
  ws <> [] -> Forall group ws ->
  split_go "::" 0 cur (join ws ":" +:+ rest)
  = split_go "::" 0 (cur +:+ join ws ":") rest.
Proof.
  induction ws as [|w ws IH]; intros cur rest Hne H; [contradiction|].
  inversion H as [|? ? Hw Hws]; subst.
  destruct ws as [|w2 ws].
  - unfold join; simpl. apply split_go_skip. apply Hw.
  - change (join (w :: w2 :: ws) ":")
      with (w +:+ String ":" (join (w2 :: ws) ":")).
    rewrite append_assoc. rewrite split_go_skip by apply Hw.
    assert (Hhead : exists c t, join (w2 :: ws) ":" +:+ rest = String c t
                                /\ ":"%char <> c).
    { inversion Hws as [|? ? Hw2 _]; subst.
      destruct (group_head _ Hw2) as (c & s' & -> & Hc).
      unfold join; simpl. destruct ws; simpl; eauto. }
    destruct Hhead as (c & t & Ht & Hc).
    cbn [append]. rewrite Ht, split_go_single_colon by assumption.
    rewrite <- Ht, IH by (assumption || discriminate).
    now rewrite !append_assoc.
Qed.

Lemma split_groups : forall ws,
  ws <> [] -> Forall group ws -> split (join ws ":") "::" = [join ws ":"].
Proof.
  intros ws Hne H. unfold split.
  rewrite <- (append_empty_r (join ws ":")) at 1.
  now rewrite split_go_groups.
Qed.

Lemma split_maybe_groups : forall ws,
  Forall group ws -> split (join ws ":") "::" = [join ws ":"].
Proof.
  intros [|w ws] H; [reflexivity|].
  apply split_groups; [discriminate | assumption].
Qed.

(** Two colon-joined lists of groups around one [::] split into the two
    joined sides. *)
Lemma split_compressed : forall A B,
  Forall group A -> Forall group B ->
  split (join A ":" +:+ "::" +:+ join B ":") "::"
  = [join A ":"; join B ":"].
Proof.
  intros A B HA HB. unfold split.
  assert (Hmid : forall cur,
    split_go "::" 0 cur ("::" +:+ join B ":") = [cur; join B ":"]).
  { intros cur. cbn [append]. rewrite split_go_double_colon.
    fold (split (join B ":") "::"). now rewrite split_maybe_groups. }
  destruct A as [|a A].
  - apply Hmid.
  - rewrite split_go_groups by (assumption || discriminate).
    apply Hmid.
Qed.

(** ** Words *)

Lemma allWords_checked : forallb wordCheck allWords = true.
Proof. vm_cast_no_check (eq_refl true). Qed.

Lemma In_upTo : forall n from z,
  from <= z < from + Z.of_nat n -> In z (upTo n from).
Proof.
  induction n as [|n IH]; intros from z H; [lia|].
  cbn [upTo]. destruct (Z.eq_dec from z) as [->|Hne]; [now left|].
  right. apply IH. lia.
Qed.

Lemma word_checked : forall z, 0 <= z <= 0xffff -> wordCheck z = true.
Proof.
  intros z Hz.
  apply (proj1 (forallb_forall wordCheck allWords) allWords_checked).
  apply In_upTo. rewrite Z2Nat.id; lia.
Qed.

Lemma strictEq_Num : forall a z, strictEq a (Num z) = true -> a = Num z.
Proof.
  intros [| | |x] z H; simpl in H; try discriminate.
  apply Z.eqb_eq in H. now subst.
Qed.

Lemma isEmpty_false : forall s, negb (isEmpty s) = true -> s <> "".
Proof. intros [|c s] H; [discriminate | discriminate]. Qed.

Lemma hexLower_props : forall c, isHexLower c = true ->
  isNot ":" c = true /\ isNot "/" c = true /\ isNot "." c = true
  /\ negb (isWhiteSpace c) = true.
Proof.
  intros [[] [] [] [] [] [] [] []]; vm_compute; intros H;
    try discriminate H; repeat split.
Qed.

Lemma word_facts : forall z, 0 <= z <= 0xffff -> WordFacts z.
Proof.
  intros z Hz. pose proof (word_checked z Hz) as H.
  unfold wordCheck in H. cbv zeta in H.
  fold (hex4 z) in H.
  repeat (apply andb_true_iff in H; destruct H as [H ?]).
  assert (Hp4 : parseInt (hex4 z) 16 = Num z) by now apply strictEq_Num.
  constructor.
  - now apply isEmpty_false.
  - assumption.
  - now apply strictEq_Num.
  - now apply isEmpty_false.
  - assumption.
  - assumption.
  - unfold IPv6Parser.stripZeros. now apply String.eqb_eq.
  - now apply Bool.eqb_prop.
  - now apply String.eqb_eq.
  - now apply String.eqb_eq.
Qed.

(** ** Numerals *)

Lemma digits_checked : forallb digitCheck (upTo 36 0) = true.
Proof. vm_compute. reflexivity. Qed.

Lemma radixDigit_digitChar : forall R d,
  0 <= d < R -> R <= 36 -> radixDigit R (digitChar d) = Some d.
Proof.
  intros R d Hd HR.
  assert (Hin : In d (upTo 36 0)) by (apply In_upTo; simpl; lia).
  pose proof (proj1 (forallb_forall _ _) digits_checked _ Hin) as Hck.
  unfold digitCheck in Hck. unfold radixDigit.
  destruct (digitValue (digitChar d)) as [v|]; [|discriminate].
  apply Z.eqb_eq in Hck. subst v.
  replace (d <? R) with true by (symmetry; apply Z.ltb_lt; lia).
  reflexivity.
Qed.

(** The digits produced for a positive integer read back as that integer:
    the fuel of [numeral] is enough to produce all of them. *)
Lemma digitsOf_complete : forall R, 2 <= R <= 36 ->
  forall fuel z rest,
  0 < z < 2 ^ Z.of_nat fuel ->
  parseDigits R (digitsOf fuel R z rest) None = parseDigits R rest (Some z).
Proof.
  intros R HR. induction fuel as [|fuel IH]; intros z rest Hz.
  - simpl in Hz. lia.
  - cbn [digitsOf].
    replace (z <=? 0) with false by (symmetry; apply Z.leb_gt; lia).
    assert (Hmod : 0 <= z mod R < R) by (apply Z.mod_pos_bound; lia).
    assert (Hdiv : 0 <= z / R) by (apply Z.div_pos; lia).
    pose proof (Z.div_mod z R ltac:(lia)) as Hz'.
    destruct (Z.eq_dec (z / R) 0) as [E0|Hne].
    + rewrite E0.
      replace (digitsOf fuel R 0 (String (digitChar (z mod R)) rest))
        with (String (digitChar (z mod R)) rest)
        by (destruct fuel; reflexivity).
      cbn [parseDigits]. rewrite radixDigit_digitChar by lia.
      do 2 f_equal. lia.
    + rewrite IH.
      * cbn [parseDigits]. rewrite radixDigit_digitChar by lia.
        do 2 f_equal. lia.
      * split; [lia|].
        rewrite Nat2Z.inj_succ, Z.pow_succ_r in Hz by lia.
        apply Z.div_lt_upper_bound; [lia|]. nia.
Qed.

Lemma numeral_complete : forall R z, 2 <= R <= 36 -> 0 <= z ->
  parseDigits R (numeral R z) None = Some z.
Proof.
  intros R z HR Hz. unfold numeral.
  destruct (z <=? 0) eqn:E.
  - apply Z.leb_le in E. assert (z = 0) by lia. subst.
    cbn [parseDigits]. change "0"%char with (digitChar 0).
    now rewrite radixDigit_digitChar by lia.
  - apply Z.leb_gt in E. rewrite digitsOf_complete; [reflexivity | assumption |].
    split; [lia|].
    rewrite Nat2Z.inj_succ, Z2Nat.id by (apply Z.log2_nonneg).
    apply Z.log2_spec. lia.
Qed.

(** ** The loop of [calculateSubnetAddress] *)

(** Once [steps] covers the distance to 8, more steps change nothing: the
    loop has stopped. *)
Lemma writeSubnetBits_enough : forall steps more hextetIndex bitsInHextet
    currentIndex remaining current result,
  8 - current <= Z.of_nat steps ->
  IPv6Subnetting.writeSubnetBits (steps + more) hextetIndex bitsInHextet
    currentIndex remaining current result
  = IPv6Subnetting.writeSubnetBits steps hextetIndex bitsInHextet
      currentIndex remaining current result.
Proof.
  induction steps as [|steps IH]; intros more hi bi ci remaining current result H.
  - destruct more as [|more]; [reflexivity|].
    cbn [Nat.add IPv6Subnetting.writeSubnetBits].
    replace (current <? 8) with false by (symmetry; apply Z.ltb_ge; lia).
    now rewrite andb_false_r.
  - cbn [Nat.add IPv6Subnetting.writeSubnetBits].
    destruct ((0 <? remaining) && (current <? 8)); [|reflexivity].
    cbv zeta. apply IH. lia.
Qed.

(** ** Reading groups back *)

Lemma hexLower_group : forall s,
  s <> "" -> allChars isHexLower s = true -> group s.
Proof.
  intros s Hne H; split; [assumption|].
  apply (allChars_impl isHexLower); [|assumption].
  intros c Hc. apply hexLower_props, Hc.
Qed.

Lemma reads_hexs : forall z, 0 <= z <= 0xffff -> reads (hexs z) z.
Proof.
  intros z Hz. destruct (word_facts z Hz).
  repeat split; try assumption; try lia.
  now apply hexLower_group.
Qed.

Lemma reads_hex4 : forall z, 0 <= z <= 0xffff -> reads (hex4 z) z.
Proof.
  intros z Hz. destruct (word_facts z Hz).
  repeat split; try assumption; try lia.
  now apply hexLower_group.
Qed.

Lemma reads_map : forall (f : Z -> string) ws,
  (forall z, 0 <= z <= 0xffff -> reads (f z) z) ->
  Forall (fun z => 0 <= z <= 0xffff) ws ->
  Forall2 reads (map f ws) ws.
Proof.
  intros f ws Hf; induction 1; simpl; constructor; auto.
Qed.

Lemma reads_groups : forall ss zs, Forall2 reads ss zs -> Forall group ss.
Proof. induction 1 as [|s z ss zs [Hg _] _ IH]; constructor; assumption. Qed.

Lemma reads_length : forall ss zs,
  Forall2 reads ss zs -> List.length ss = List.length zs.
Proof. induction 1; simpl; congruence. Qed.

Lemma eqb_empty_group : forall s, group s -> (s =? "")%string = false.
Proof. intros s [Hne _]. now apply String.eqb_neq. Qed.

Lemma pushParts_reads : forall ss zs acc,
  Forall2 reads ss zs ->
  IPv6Parser.pushParts ss acc = Some (acc ++ map Num zs).
Proof.
  intros ss zs acc H; revert acc.
  induction H as [|s z ss zs (Hg & Hp & Hz) _ IH]; intros acc; simpl.
  - now rewrite app_nil_r.
  - rewrite (eqb_empty_group _ Hg), Hp. simpl.
    replace (65535 <? z) with false by (symmetry; apply Z.ltb_ge; lia).
    rewrite IH, <- app_assoc. reflexivity.
Qed.

Lemma nonEmptyCount_groups : forall ss,
  Forall group ss -> IPv6Parser.nonEmptyCount ss = Z.of_nat (List.length ss).
Proof.
  intros ss H. unfold IPv6Parser.nonEmptyCount. f_equal.
  induction H as [|s ss Hs _ IH]; simpl; [reflexivity|].
  rewrite (eqb_empty_group _ Hs). simpl. now rewrite IH.
Qed.

Lemma forRange_push : forall (x : Number) n acc,
  forRange 0 n (fun _ h => h ++ [x]) acc = acc ++ repeat x (Z.to_nat n).
Proof.
  intros x n acc. unfold forRange. rewrite Z.sub_0_r.
  generalize (Z.to_nat n) as k, 0%nat as a. intros k; revert acc.
  induction k as [|k IH]; intros acc a; simpl.
  - now rewrite app_nil_r.
  - rewrite IH, <- app_assoc. reflexivity.
Qed.

Lemma join_groups_empty : forall ws,
  Forall group ws -> isEmpty (join ws ":") = match ws with [] => true | _ => false end.
Proof.
  intros [|w ws] H; [reflexivity|].
  inversion H as [|? ? [Hne _] _]; subst.
  destruct w as [|c w]; [contradiction|].
  unfold join; simpl. now destruct ws.
Qed.

(** The [parts[k] ? parts[k].split(':') : []] of the parser gives the groups
    of one side back. *)
Lemma side_groups : forall ws,
  Forall group ws ->
  (if isEmpty (join ws ":") then [] else split (join ws ":") ":") = ws.
Proof.
  intros ws H. rewrite join_groups_empty by assumption.
  destruct ws as [|w ws]; [reflexivity|].
  apply split_join_colon; [discriminate|].
  eapply Forall_impl; [|exact H]. now intros s [_ Hs].
Qed.

Lemma parseGroups_compressed : forall A B za zb p,
  Forall2 reads A za -> Forall2 reads B zb ->
  (List.length za + List.length zb <= 8)%nat ->
  IPv6Parser.parseGroups (join A ":" +:+ "::" +:+ join B ":") p
  = IPv6Parser.valid
      (map Num za
         ++ repeat (Num 0) (8 - List.length za - List.length zb)
         ++ map Num zb) p.
Proof.
  intros A B za zb p HA HB Hlen.
  pose proof (reads_groups _ _ HA) as GA.
  pose proof (reads_groups _ _ HB) as GB.
  pose proof (reads_length _ _ HA) as LA.
  pose proof (reads_length _ _ HB) as LB.
  unfold IPv6Parser.parseGroups.
  rewrite split_compressed by assumption.
  cbn [List.length Nat.ltb Nat.leb Nat.eqb nth].
  rewrite !side_groups by assumption.
  rewrite (pushParts_reads _ _ [] HA). cbn [app].
  rewrite !nonEmptyCount_groups by assumption.
  rewrite forRange_push, pushParts_reads with (zs := zb) by assumption.
  rewrite LA, LB.
  replace (Z.to_nat (8 - Z.of_nat (List.length za) - Z.of_nat (List.length zb)))
    with (8 - List.length za - List.length zb)%nat by lia.
  rewrite <- app_assoc.
  replace (List.length _ =? 8)%nat with true; [reflexivity|].
  symmetry; apply Nat.eqb_eq.
  rewrite !length_app, repeat_length, !length_map. lia.
Qed.

Lemma parseGroups_plain : forall W zs p,
  Forall2 reads W zs -> List.length zs = 8%nat ->
  IPv6Parser.parseGroups (join W ":") p = IPv6Parser.valid (map Num zs) p.
Proof.
  intros W zs p HW Hlen.
  pose proof (reads_groups _ _ HW) as GW.
  pose proof (reads_length _ _ HW) as LW.
  unfold IPv6Parser.parseGroups.
  rewrite split_maybe_groups by assumption.
  cbn [List.length Nat.ltb Nat.leb Nat.eqb nth].
  rewrite split_join_colon.
  - rewrite (pushParts_reads _ _ [] HW). cbn [app IPv6Parser.pushParts].
    rewrite length_map, Hlen. reflexivity.
  - intros ->. simpl in LW. lia.
  - eapply Forall_impl; [|exact GW]. now intros s [_ Hs].
Qed.

(** ** The special cases of the parser do not fire on a rendered address *)

Lemma addressChar_props : forall c, isAddressChar c = true ->
  isNot "/" c = true /\ isNot "." c = true /\ negb (isWhiteSpace c) = true.
Proof.
  intros [[] [] [] [] [] [] [] []]; vm_compute; intros H;
    try discriminate H; repeat split.
Qed.

Lemma hexLower_addressChar : forall c,
  isHexLower c = true -> isAddressChar c = true.
Proof. intros c H; unfold isAddressChar; now rewrite H. Qed.

Lemma prefixMatch_go_none : forall s before,
  allChars (isNot "/") s = true -> IPv6Parser.prefixMatch_go before s = None.
Proof.
  induction s as [|c s IH]; intros before H; [reflexivity|].
  simpl in H. apply andb_true_iff in H as [Hc Hs].
  cbn [IPv6Parser.prefixMatch_go].
  unfold isNot in Hc. apply negb_true_iff in Hc. rewrite Hc. simpl.
  destruct (isLineTerminator c); [reflexivity | now apply IH].
Qed.

Lemma dropPrefix_chars : forall p pattern s quad,
  IPv6Parser.dropPrefix pattern s = Some quad ->
  allChars p s = true -> allChars p quad = true.
Proof.
  induction pattern as [|a pattern IH]; intros s quad H Hs; simpl in H.
  - now inversion H; subst.
  - destruct s as [|b s]; [discriminate|].
    destruct (IPv6Parser.matchesIgnoreCase a b); [|discriminate].
    simpl in Hs. apply andb_true_iff in Hs as [_ Hs]. eauto.
Qed.

Lemma ipv4MappedMatch_none : forall s,
  allChars (isNot ".") s = true -> IPv6Parser.ipv4MappedMatch s = None.
Proof.
  intros s H. unfold IPv6Parser.ipv4MappedMatch.
  destruct (IPv6Parser.dropPrefix "::ffff:" s) as [quad|] eqn:E; [|reflexivity].
  pose proof (dropPrefix_chars _ _ _ _ E H) as Hq.
  unfold IPv6Parser.dottedQuad. now rewrite (split_lacking "." "" quad Hq).
Qed.

Lemma parseAddress_groups : forall s p,
  IPv6Parser.ipv4MappedMatch s = None ->
  IPv6Parser.parseAddress s p = IPv6Parser.parseGroups s p.
Proof.
  intros s p H. unfold IPv6Parser.parseAddress. rewrite H.
  destruct (s =? "::")%string eqn:E; [|reflexivity].
  apply String.eqb_eq in E; subst. reflexivity.
Qed.

(** On a string of hex digits and colons the parser goes straight to the
    groups, with the default prefix length; trimming changes nothing. *)
Lemma parse_rendered : forall s,
  allChars isAddressChar s = true ->
  trim s = s
  /\ IPv6Parser.parseIPv6String s = IPv6Parser.parseGroups s 128.
Proof.
  intros s H. split.
  - apply trim_id. eapply allChars_impl; [|exact H].
    intros c Hc. apply addressChar_props, Hc.
  - unfold IPv6Parser.parseIPv6String, IPv6Parser.prefixMatch.
    rewrite prefixMatch_go_none.
    + apply parseAddress_groups, ipv4MappedMatch_none.
      eapply allChars_impl; [|exact H].
      intros c Hc. apply addressChar_props, Hc.
    + eapply allChars_impl; [|exact H].
      intros c Hc. apply addressChar_props, Hc.
Qed.

Lemma rendered_chars : forall (f : Z -> string) ws,
  (forall z, 0 <= z <= 0xffff -> allChars isHexLower (f z) = true) ->
  Forall (fun z => 0 <= z <= 0xffff) ws ->
  allChars isAddressChar (join (map f ws) ":") = true.
Proof.
  intros f ws Hf H. apply allChars_join; [reflexivity|].
  apply Forall_map. eapply Forall_impl; [|exact H].
  intros z Hz. eapply allChars_impl; [exact hexLower_addressChar|]. auto.
Qed.

(** ** The record built by [parse] *)

Section WithHost.
Context {host : Host}.

Lemma toInteger_words : forall ws,
  exists text, IPv6Parser.toInteger (map Num ws) = Normal text.
Proof.
  intros ws. unfold IPv6Parser.toInteger.
  assert (Hloop : forall acc, exists v,
    IPv6Parser.toIntegerLoop (map Num ws) acc = Normal v).
  { induction ws as [|w ws IH]; intros acc; simpl; eauto. }
  destruct (Hloop 0) as [v ->]. simpl. eauto.
Qed.

Lemma get_words : forall ws k,
  0 <= k < Z.of_nat (List.length ws) ->
  get (map Num ws) k = Num (nth (Z.to_nat k) ws 0).
Proof.
  intros ws k Hk. unfold get.
  replace (k <? 0) with false by (symmetry; apply Z.ltb_ge; lia).
  rewrite (nth_indep _ NaN (Num 0)) by (rewrite length_map; lia).
  apply (map_nth Num).
Qed.

Lemma isEUI64_words : forall ws, List.length ws = 8%nat ->
  exists b, IPv6Parser.isEUI64 (map Num ws) = Normal b.
Proof.
  intros ws Hlen. unfold IPv6Parser.isEUI64.
  rewrite (get_words ws 4), (get_words ws 5), (get_words ws 6),
    (get_words ws 7) by lia.
  cbv beta iota zeta delta [bind BigInt]. eauto.
Qed.

(** When the parser accepts the trimmed input with finite words, [parse]
    returns a valid record showing these words. *)
Lemma parse_accepts : forall input ws p,
  IPv6Parser.parseIPv6String (trim input) = IPv6Parser.valid (map Num ws) p ->
  List.length ws = 8%nat ->
  IPv6Address.isValid (IPv6Parser.parse input) = true
  /\ IPv6Address.error (IPv6Parser.parse input) = None
  /\ IPv6Address.expanded (IPv6Parser.parse input)
     = IPv6Parser.toExpanded (map Num ws)
  /\ IPv6Address.compressed (IPv6Parser.parse input)
     = IPv6Parser.toCompressed (map Num ws)
  /\ IPv6Address.prefixLength (IPv6Parser.parse input) = p.
Proof.
  intros input ws p Hp Hlen.
  unfold IPv6Parser.parse, IPv6Parser.parseTry. rewrite Hp.
  cbv beta iota zeta delta [IPv6Parser.valid ParsedIPv6.isValid
    ParsedIPv6.hextets ParsedIPv6.prefixLength negb].
  destruct (IPv6Parser.getAddressRange (map Num ws) p) as [first last].
  destruct (toInteger_words ws) as [text ->].
  destruct (isEUI64_words ws Hlen) as [b ->].
  cbv beta iota zeta delta [bind IPv6Address.isValid IPv6Address.error
    IPv6Address.expanded IPv6Address.compressed IPv6Address.prefixLength].
  repeat split.
Qed.

End WithHost.

(** ** The zero runs found by [toCompressed] *)

Lemma patterns_checked : forallb patternCheck (patterns 8) = true.
Proof. vm_cast_no_check (eq_refl true). Qed.

Lemma canon_pattern : forall ws,
  In (map canon ws) (patterns (List.length ws)).
Proof.
  induction ws as [|w ws IH]; [now left|].
  cbn [map List.length patterns]. apply in_or_app.
  assert (Hw : canon w = 0 \/ canon w = 1)
    by (unfold canon; destruct (w =? 0); auto).
  destruct Hw as [-> | ->].
  - left. now apply (in_map (cons 0)).
  - right. now apply (in_map (cons 1)).
Qed.

Lemma canon_word : forall z, 0 <= canon z <= 0xffff.
Proof. intros z; unfold canon; destruct (z =? 0); lia. Qed.

Lemma canon_zero : forall z, (canon z =? 0) = (z =? 0).
Proof.
  intros z; unfold canon; destruct (z =? 0) eqn:E; [reflexivity|].
  reflexivity.
Qed.

Lemma hex4_zero_canon : forall z, 0 <= z <= 0xffff ->
  (hex4 (canon z) =? "0000")%string = (hex4 z =? "0000")%string.
Proof.
  intros z Hz.
  rewrite (hex4_zero _ (word_facts _ (canon_word z))).
  rewrite (hex4_zero _ (word_facts _ Hz)). apply canon_zero.
Qed.

Lemma zeroScan_canon : forall ws i zs cur,
  Forall (fun z => 0 <= z <= 0xffff) ws ->
  IPv6Parser.zeroScan (map hex4 ws) i zs cur
  = IPv6Parser.zeroScan (map hex4 (map canon ws)) i zs cur.
Proof.
  intros ws i zs cur H; revert i zs cur.
  induction H as [|w ws Hw _ IH]; intros i zs cur; [reflexivity|].
  cbn [map IPv6Parser.zeroScan].
  rewrite (hex4_zero_canon _ Hw), !IH. reflexivity.
Qed.

Lemma longestSequence_canon : forall ws,
  Forall (fun z => 0 <= z <= 0xffff) ws ->
  IPv6Parser.longestSequence (map hex4 ws)
  = IPv6Parser.longestSequence (map hex4 (map canon ws)).
Proof.
  intros ws H. unfold IPv6Parser.longestSequence, IPv6Parser.zeroSequences.
  now rewrite zeroScan_canon.
Qed.

Lemma zeroFlags_canon : forall ws,
  map (Z.eqb 0) (map canon ws) = map (Z.eqb 0) ws.
Proof.
  intros ws. rewrite map_map. apply map_ext. intros z.
  rewrite !(Z.eqb_sym 0). apply canon_zero.
Qed.

Lemma zeros_canon : forall l,
  forallb (Z.eqb 0) (map canon l) = true -> l = repeat 0 (List.length l).
Proof.
  induction l as [|z l IH]; [reflexivity|].
  cbn [map forallb List.length repeat].
  intros H. apply andb_true_iff in H as [Hz Hl].
  rewrite Z.eqb_sym, canon_zero in Hz. apply Z.eqb_eq in Hz. subst.
  now rewrite <- IH.
Qed.

(** ** [slice] *)

Lemma slice_prefix : forall (A : Type) (a : list A) k,
  (k <= List.length a)%nat -> slice a 0 (Z.of_nat k) = firstn k a.
Proof.
  intros A a k Hk. unfold slice, relIndex. simpl (0 <? 0).
  replace (Z.of_nat k <? 0) with false by (symmetry; apply Z.ltb_ge; lia).
  rewrite !Z.min_l by lia. rewrite Z.sub_0_r, Nat2Z.id. reflexivity.
Qed.

Lemma sliceFrom_suffix : forall (A : Type) (a : list A) k,
  (k <= List.length a)%nat -> sliceFrom a (Z.of_nat k) = skipn k a.
Proof.
  intros A a k Hk. unfold sliceFrom, slice, relIndex.
  replace (Z.of_nat k <? 0) with false by (symmetry; apply Z.ltb_ge; lia).
  replace (Z.of_nat (List.length a) <? 0) with false
    by (symmetry; apply Z.ltb_ge; lia).
  rewrite !Z.min_l by lia. rewrite Nat2Z.id.
  apply firstn_all2. rewrite length_skipn. lia.
Qed.

(** ** The shape of the compressed rendering *)

Lemma toExpanded_words : forall ws,
  IPv6Parser.toExpanded (map Num ws) = join (map hex4 ws) ":".
Proof. intros ws. unfold IPv6Parser.toExpanded. now rewrite map_map. Qed.

Lemma hex4_lacks_colon : forall ws,
  Forall (fun z => 0 <= z <= 0xffff) ws ->
  Forall (fun s => allChars (isNot ":") s = true) (map hex4 ws).
Proof.
  intros ws H. apply Forall_map. eapply Forall_impl; [|exact H].
  intros z Hz. apply (reads_hex4 z Hz).
Qed.

Lemma strip_hex4 : forall ws,
  Forall (fun z => 0 <= z <= 0xffff) ws ->
  map IPv6Parser.stripZeros (map hex4 ws) = map hexs ws.
Proof.
  intros ws H. rewrite map_map. apply map_ext_Forall.
  eapply Forall_impl; [|exact H].
  intros z Hz. apply (hex4_strip _ (word_facts _ Hz)).
Qed.

Lemma Forall_firstn : forall (A : Type) (P : A -> Prop) n l,
  Forall P l -> Forall P (firstn n l).
Proof.
  intros A P; induction n as [|n IH]; intros l H; [constructor|].
  destruct H; simpl; constructor; auto.
Qed.

Lemma Forall_skipn : forall (A : Type) (P : A -> Prop) n l,
  Forall P l -> Forall P (skipn n l).
Proof.
  intros A P; induction n as [|n IH]; intros l H; [exact H|].
  destruct H; simpl; [constructor | auto].
Qed.

Lemma toCompressed_shape : forall ws, Spec.Word128 ws ->
  match Spec.selectedRun (map (Z.eqb 0) ws) with
  | Some (s, n) =>
      (2 <= n)%nat /\ (s + n <= 8)%nat
      /\ firstn n (skipn s ws) = repeat 0 n
      /\ IPv6Parser.toCompressed (map Num ws)
         = join (map hexs (firstn s ws)) ":" +:+ "::"
             +:+ join (map hexs (skipn (s + n) ws)) ":"
  | None =>
      IPv6Parser.toCompressed (map Num ws) = join (map hexs ws) ":"
  end.
Proof.
  intros ws [Hlen Hws].
  pose proof (canon_pattern ws) as Hin. rewrite Hlen in Hin.
  pose proof (proj1 (forallb_forall _ _) patterns_checked _ Hin) as Hck.
  unfold patternCheck in Hck. cbv zeta in Hck.
  rewrite zeroFlags_canon, <- longestSequence_canon in Hck by assumption.
  unfold IPv6Parser.toCompressed.
  rewrite toExpanded_words, split_join_colon;
    [| destruct ws; [discriminate Hlen | discriminate]
     | now apply hex4_lacks_colon].
  set (longest := IPv6Parser.longestSequence (map hex4 ws)) in *.
  destruct (1 <? IPv6Parser.length longest) eqn:Hlong.
  - destruct (Spec.selectedRun (map (Z.eqb 0) ws)) as [[s n]|];
      [|now rewrite andb_false_r in Hck].
    apply andb_true_iff in Hck as [Hck Hsel].
    apply andb_true_iff in Hck as [Hck Hzeros].
    apply andb_true_iff in Hck as [Hlow Hhigh].
    apply andb_true_iff in Hsel as [Hs Hn].
    apply Z.ltb_lt in Hlong. apply Z.leb_le in Hlow, Hhigh.
    apply Z.eqb_eq in Hs, Hn.
    rewrite <- Hs, <- Hn in *. rewrite !Nat2Z.id in Hzeros.
    assert (Hsn : (s + n <= 8)%nat) by lia.
    split; [lia|]. split; [exact Hsn|]. split.
    + rewrite skipn_map, firstn_map in Hzeros.
      apply zeros_canon in Hzeros. rewrite Hzeros at 1. f_equal.
      rewrite length_firstn, length_skipn. lia.
    + rewrite <- Nat2Z.inj_add.
      rewrite slice_prefix, sliceFrom_suffix by (rewrite length_map; lia).
      rewrite firstn_map, skipn_map.
      rewrite !strip_hex4 by (apply Forall_firstn || apply Forall_skipn; assumption).
      destruct (Z.of_nat s =? 0) eqn:E0.
      * apply Z.eqb_eq in E0. assert (s = 0%nat) by lia. subst s. reflexivity.
      * destruct (Z.of_nat (s + n) =? 8) eqn:E8; [|reflexivity].
        apply Z.eqb_eq in E8. assert (Es : (s + n = 8)%nat) by lia.
        rewrite Es. rewrite skipn_all2 by lia. reflexivity.
  - destruct (Spec.selectedRun (map (Z.eqb 0) ws)) as [[s n]|];
      [discriminate|].
    now rewrite strip_hex4.
Qed.

(** ** The selected run *)

Lemma flagPatterns_checked : forallb runCheck (flagPatterns 8) = true.
Proof. vm_cast_no_check (eq_refl true). Qed.

Lemma flags_pattern : forall l : list bool,
  In l (flagPatterns (List.length l)).
Proof.
  induction l as [|b l IH]; [now left|].
  cbn [List.length flagPatterns]. apply in_or_app.
  destruct b; [left | right]; now apply in_map.
Qed.

Lemma maximalRun_candidate : forall zero s n,
  List.length zero = 8%nat -> Spec.isMaximalRun zero s n = true ->
  In (s, n) (list_prod (seq 0 9) (seq 0 10)).
Proof.
  intros zero s n Hlen H. unfold Spec.isMaximalRun, Spec.isZeroRun in H.
  repeat (apply andb_true_iff in H; destruct H as [H ?]).
  apply Nat.leb_le in H.
  match goal with Hb : (_ <=? _)%nat = true |- _ => apply Nat.leb_le in Hb end.
  apply in_prod; apply in_seq; lia.
Qed.

Lemma selectedRun_spec : forall zero, List.length zero = 8%nat ->
  match Spec.selectedRun zero with
  | Some (s, n) =>
      (2 <= n)%nat /\ Spec.isMaximalRun zero s n = true
      /\ forall s' n', Spec.isMaximalRun zero s' n' = true ->
           (n' < n)%nat \/ (n' = n /\ (s <= s')%nat)
  | None =>
      forall s' n', Spec.isMaximalRun zero s' n' = true -> (n' < 2)%nat
  end.
Proof.
  intros zero Hlen.
  pose proof (flags_pattern zero) as Hin. rewrite Hlen in Hin.
  pose proof (proj1 (forallb_forall _ _) flagPatterns_checked _ Hin) as Hck.
  unfold runCheck in Hck. cbv zeta in Hck.
  destruct (Spec.selectedRun zero) as [[s n]|].
  - apply andb_true_iff in Hck as [Hck Hall].
    apply andb_true_iff in Hck as [Hn Hmax].
    apply Nat.leb_le in Hn. repeat split; try assumption.
    intros s' n' Hrun.
    pose proof (proj1 (forallb_forall _ _) Hall _
                  (maximalRun_candidate _ _ _ Hlen Hrun)) as Hc.
    cbv beta iota in Hc. rewrite Hrun in Hc. simpl in Hc.
    apply orb_true_iff in Hc as [Hc | Hc].
    + left. now apply Nat.ltb_lt.
    + right. apply andb_true_iff in Hc as [H1 H2].
      apply Nat.eqb_eq in H1. apply Nat.leb_le in H2. now split.
  - intros s' n' Hrun.
    pose proof (proj1 (forallb_forall _ _) Hck _
                  (maximalRun_candidate _ _ _ Hlen Hrun)) as Hc.
    cbv beta iota in Hc. rewrite Hrun in Hc. simpl in Hc.
    now apply Nat.ltb_lt.
Qed.

(** ** Rendering and parsing back *)

Lemma spec_hexWords : forall ws,
  Forall (fun z => 0 <= z <= 0xffff) ws -> map Spec.hexWord ws = map hexs ws.
Proof.
  intros ws H. apply map_ext_Forall. eapply Forall_impl; [|exact H].
  intros z Hz. apply (spec_hexWord _ (word_facts _ Hz)).
Qed.

Lemma spec_hexWords4 : forall ws,
  Forall (fun z => 0 <= z <= 0xffff) ws -> map Spec.hexWord4 ws = map hex4 ws.
Proof.
  intros ws H. apply map_ext_Forall. eapply Forall_impl; [|exact H].
  intros z Hz. apply (spec_hexWord4 _ (word_facts _ Hz)).
Qed.

(** The expanded rendering is the one of the specification. *)
Lemma expanded_rendering : forall ws,
  Forall (fun z => 0 <= z <= 0xffff) ws ->
  IPv6Parser.toExpanded (map Num ws) = Spec.render_expanded ws.
Proof.
  intros ws H. rewrite toExpanded_words. unfold Spec.render_expanded.
  now rewrite spec_hexWords4.
Qed.

Lemma hexs_chars_all : forall z, 0 <= z <= 0xffff ->
  allChars isHexLower (hexs z) = true.
Proof. intros z Hz. apply (hexs_chars _ (word_facts _ Hz)). Qed.

Lemma hex4_chars_all : forall z, 0 <= z <= 0xffff ->
  allChars isHexLower (hex4 z) = true.
Proof. intros z Hz. apply (hex4_chars _ (word_facts _ Hz)). Qed.

Lemma parse_compressed_text : forall ws, Spec.Word128 ws ->
  let text := IPv6Parser.toCompressed (map Num ws) in
  trim text = text
  /\ IPv6Parser.parseIPv6String text = IPv6Parser.valid (map Num ws) 128.
Proof.
  intros ws Hw. pose proof (toCompressed_shape ws Hw) as Hshape.
  destruct Hw as [Hlen Hws]. cbv zeta.
  destruct (Spec.selectedRun (map (Z.eqb 0) ws)) as [[s n]|].
  - destruct Hshape as (Hn & Hsn & Hzeros & ->).
    assert (HA : Forall (fun z => 0 <= z <= 0xffff) (firstn s ws))
      by now apply Forall_firstn.
    assert (HB : Forall (fun z => 0 <= z <= 0xffff) (skipn (s + n) ws))
      by now apply Forall_skipn.
    match goal with
    | |- trim ?t = _ /\ _ => assert (Hc : allChars isAddressChar t = true)
    end.
    { rewrite !allChars_append.
      rewrite !(rendered_chars hexs) by (assumption || exact hexs_chars_all).
      reflexivity. }
    destruct (parse_rendered _ Hc) as [Htrim ->]. split; [exact Htrim|].
    rewrite (parseGroups_compressed _ _ (firstn s ws) (skipn (s + n) ws))
      by (try (apply reads_map; [exact reads_hexs | assumption]);
          rewrite length_firstn, length_skipn; lia).
    f_equal.
    rewrite length_firstn, length_skipn, Hlen.
    replace (8 - Nat.min s 8 - (8 - (s + n)))%nat with n by lia.
    rewrite <- (firstn_skipn s ws) at 3.
    rewrite <- (firstn_skipn n (skipn s ws)) at 1.
    rewrite skipn_skipn, Hzeros, (Nat.add_comm n s), !map_app.
    f_equal. f_equal. now rewrite map_repeat.
  - rewrite Hshape.
    assert (Hc : allChars isAddressChar (join (map hexs ws) ":") = true)
      by (apply rendered_chars; [exact hexs_chars_all | assumption]).
    destruct (parse_rendered _ Hc) as [Htrim ->]. split; [exact Htrim|].
    apply parseGroups_plain; [|assumption].
    apply reads_map; [exact reads_hexs | assumption].
Qed.

Lemma parse_expanded_text : forall ws, Spec.Word128 ws ->
  let text := IPv6Parser.toExpanded (map Num ws) in
  trim text = text
  /\ IPv6Parser.parseIPv6String text = IPv6Parser.valid (map Num ws) 128.
Proof.
  intros ws [Hlen Hws]. cbv zeta. rewrite toExpanded_words.
  assert (Hc : allChars isAddressChar (join (map hex4 ws) ":") = true)
    by (apply rendered_chars; [exact hex4_chars_all | assumption]).
  destruct (parse_rendered _ Hc) as [Htrim ->]. split; [exact Htrim|].
  apply parseGroups_plain; [|assumption].
  apply reads_map; [exact reads_hex4 | assumption].
Qed.

(** C3.  Round trip: for every Word128 [w], parsing the compressed rendering
    of [w] yields a valid record whose words are [w], and so does parsing
    the expanded rendering of [w]. *)
Theorem roundtrip_renderings : forall (host : Host) (w : list Z),
  Spec.Word128 w ->
  let hextets := map Num w in
  (word128 (IPv6Parser.toCompressed hextets) = Some hextets
   /\ IPv6Address.isValid (IPv6Parser.parse (IPv6Parser.toCompressed hextets))
      = true
   /\ IPv6Address.expanded (IPv6Parser.parse (IPv6Parser.toCompressed hextets))
      = IPv6Parser.toExpanded hextets)
  /\ (word128 (IPv6Parser.toExpanded hextets) = Some hextets
      /\ IPv6Address.isValid (IPv6Parser.parse (IPv6Parser.toExpanded hextets))
         = true
      /\ IPv6Address.expanded (IPv6Parser.parse (IPv6Parser.toExpanded hextets))
         = IPv6Parser.toExpanded hextets).
Proof.
  intros host w Hw. cbv zeta.
  assert (Hboth : forall text,
    trim text = text
    /\ IPv6Parser.parseIPv6String text = IPv6Parser.valid (map Num w) 128 ->
    word128 text = Some (map Num w)
    /\ IPv6Address.isValid (IPv6Parser.parse text) = true
    /\ IPv6Address.expanded (IPv6Parser.parse text)
       = IPv6Parser.toExpanded (map Num w)).
  { intros text [Htrim Hparse]. split.
    - unfold word128. now rewrite Htrim, Hparse.
    - rewrite <- Htrim in Hparse.
      destruct (parse_accepts text w 128 Hparse (proj1 Hw))
        as (Hv & _ & He & _).
      now split. }
  split; apply Hboth.
  - apply (parse_compressed_text w Hw).
  - apply (parse_expanded_text w Hw).
Qed.

Lemma roundtrip_renderings_witness :
  word128 (IPv6Parser.toCompressed (map Num [0x2001; 0xdb8; 0; 0; 1; 0; 0; 1]))
  = Some (map Num [0x2001; 0xdb8; 0; 0; 1; 0; 0; 1]).
Proof.
  assert (Hw : Spec.Word128 [0x2001; 0xdb8; 0; 0; 1; 0; 0; 1])
    by (split; [reflexivity | repeat constructor; lia]).
  exact (proj1 (proj1 (roundtrip_renderings sampleHost _ Hw))).
Defined.

(** C4.  The compressed rendering replaces exactly one maximal run of
    consecutive zero words, the longest of length at least 2 and of several
    longest ones the leftmost, with [::]; it renders every other word as
    lowercase hex with no leading zeros, so a single zero word is never
    compressed; the all-zero address renders as [::]. *)
Theorem compressed_rendering : forall w : list Z,
  Spec.Word128 w ->
  let zero := map (Z.eqb 0) w in
  IPv6Parser.toCompressed (map Num w) = Spec.render_compressed w
  /\ match Spec.selectedRun zero with
     | Some (s, n) =>
         (2 <= n)%nat /\ Spec.isMaximalRun zero s n = true
         /\ (forall s' n', Spec.isMaximalRun zero s' n' = true ->
               (n' < n)%nat \/ (n' = n /\ (s <= s')%nat))
         /\ IPv6Parser.toCompressed (map Num w)
            = join (map Spec.hexWord (firstn s w)) ":" +:+ "::"
                +:+ join (map Spec.hexWord (skipn (s + n) w)) ":"
     | None =>
         (forall s' n', Spec.isMaximalRun zero s' n' = true -> (n' < 2)%nat)
         /\ IPv6Parser.toCompressed (map Num w)
            = join (map Spec.hexWord w) ":"
     end
  /\ (w = repeat 0 8 -> IPv6Parser.toCompressed (map Num w) = "::").
Proof.
  intros w Hw. cbv zeta.
  pose proof (toCompressed_shape w Hw) as Hshape.
  pose proof (selectedRun_spec (map (Z.eqb 0) w)) as Hsel.
  rewrite length_map in Hsel. specialize (Hsel (proj1 Hw)).
  destruct Hw as [Hlen Hws].
  unfold Spec.render_compressed.
  destruct (Spec.selectedRun (map (Z.eqb 0) w)) as [[s n]|].
  - destruct Hshape as (_ & _ & _ & Heq).
    destruct Hsel as (Hn & Hmax & Hbest).
    rewrite !spec_hexWords by (apply Forall_firstn || apply Forall_skipn; assumption).
    repeat split; try assumption.
    intros ->. reflexivity.
  - rewrite spec_hexWords by assumption.
    repeat split; try assumption.
    intros ->. reflexivity.
Qed.

Lemma compressed_rendering_witness :
  IPv6Parser.toCompressed (map Num [0x2001; 0; 0; 1; 0; 0; 0; 1])
  = Spec.render_compressed [0x2001; 0; 0; 1; 0; 0; 0; 1].
Proof.
  assert (Hw : Spec.Word128 [0x2001; 0; 0; 1; 0; 0; 0; 1])
    by (split; [reflexivity | repeat constructor; lia]).
  exact (proj1 (compressed_rendering _ Hw)).
Defined.

(** ** Failure records *)

Lemma parseGroups_cases : forall address p,
  (exists message, message <> ""
     /\ IPv6Parser.parseGroups address p = IPv6Parser.invalid message)
  \/ (exists hextets, List.length hextets = 8%nat
        /\ IPv6Parser.parseGroups address p = IPv6Parser.valid hextets p).
Proof.
  intros address p. unfold IPv6Parser.parseGroups.
  destruct (2 <? _)%nat; [left; eexists; split; [|reflexivity]; discriminate|].
  destruct (IPv6Parser.pushParts _ []) as [hextets1|];
    [|left; eexists; split; [|reflexivity]; discriminate].
  match goal with
  | |- context [IPv6Parser.pushParts ?r ?h] =>
      destruct (IPv6Parser.pushParts r h) as [hextets|]
  end; [|left; eexists; split; [|reflexivity]; discriminate].
  destruct (List.length hextets =? 8)%nat eqn:E; simpl.
  - right. exists hextets. split; [now apply Nat.eqb_eq | reflexivity].
  - left; eexists; split; [|reflexivity]; discriminate.
Qed.

Lemma parseAddress_cases : forall address p,
  (exists message, message <> ""
     /\ IPv6Parser.parseAddress address p = IPv6Parser.invalid message)
  \/ (exists hextets, List.length hextets = 8%nat
        /\ IPv6Parser.parseAddress address p = IPv6Parser.valid hextets p).
Proof.
  intros address p. unfold IPv6Parser.parseAddress.
  destruct (address =? "::")%string.
  { right. eexists. split; [|reflexivity]. reflexivity. }
  destruct (IPv6Parser.ipv4MappedMatch address) as [quad|];
    [|apply parseGroups_cases].
  destruct (forallb _ _); [|apply parseGroups_cases].
  right. eexists. split; [|reflexivity]. reflexivity.
Qed.

(** The parser returns either a failure record with a message or eight
    words. *)
Lemma parseIPv6String_cases : forall input,
  (exists message, message <> ""
     /\ IPv6Parser.parseIPv6String input = IPv6Parser.invalid message)
  \/ (exists hextets p, List.length hextets = 8%nat
        /\ IPv6Parser.parseIPv6String input = IPv6Parser.valid hextets p).
Proof.
  intros input. unfold IPv6Parser.parseIPv6String.
  destruct (IPv6Parser.prefixMatch input) as [[address digits]|].
  - destruct (_ || _).
    + left; eexists; split; [|reflexivity]; discriminate.
    + destruct (parseAddress_cases address (decimalValue digits))
        as [(m & Hm & ->) | (h & Hh & ->)]; [left | right]; eauto.
  - destruct (parseAddress_cases input 128)
      as [(m & Hm & ->) | (h & Hh & ->)]; [left | right]; eauto.
Qed.

Section Failures.
Context {host : Host}.

Lemma toIntegerLoop_throw : forall hextets result message,
  IPv6Parser.toIntegerLoop hextets result = Throw message -> message <> "".
Proof.
  induction hextets as [|h hextets IH]; intros result message; simpl.
  - discriminate.
  - destruct h; simpl; try (intros E; inversion E; subst;
                            apply bigIntRangeError_nonempty).
    apply IH.
Qed.

Lemma toInteger_throw : forall hextets message,
  IPv6Parser.toInteger hextets = Throw message -> message <> "".
Proof.
  intros hextets message. unfold IPv6Parser.toInteger.
  destruct (IPv6Parser.toIntegerLoop hextets 0) as [v|m] eqn:E; simpl.
  - discriminate.
  - intros E'; inversion E'; subst. eapply toIntegerLoop_throw; eauto.
Qed.

Lemma BigInt_throw : forall x message,
  BigInt x = Throw message -> message <> "".
Proof.
  intros [| | |z] message E; simpl in E; inversion E; subst;
    apply bigIntRangeError_nonempty.
Qed.

Lemma isEUI64_throw : forall hextets message,
  IPv6Parser.isEUI64 hextets = Throw message -> message <> "".
Proof.
  intros hextets message. unfold IPv6Parser.isEUI64.
  destruct (BigInt (get hextets 4)) as [h4|m4] eqn:E4;
  destruct (BigInt (get hextets 5)) as [h5|m5] eqn:E5;
  destruct (BigInt (get hextets 6)) as [h6|m6] eqn:E6;
  destruct (BigInt (get hextets 7)) as [h7|m7] eqn:E7;
  cbv beta iota delta [bind]; intros E; try discriminate E;
  inversion E; subst; eapply BigInt_throw; eauto.
Qed.

(** What the [try] block of [parse] completes with. *)
Lemma parseTry_cases : forall trimmedInput,
  match IPv6Parser.parseTry trimmedInput with
  | Normal address =>
      (ParsedIPv6.isValid (IPv6Parser.parseIPv6String trimmedInput) = false
       /\ address = IPv6Parser.invalidAddress trimmedInput
                      (ParsedIPv6.error
                         (IPv6Parser.parseIPv6String trimmedInput)))
      \/ (ParsedIPv6.isValid (IPv6Parser.parseIPv6String trimmedInput) = true
          /\ IPv6Address.isValid address = true)
  | Throw message =>
      ParsedIPv6.isValid (IPv6Parser.parseIPv6String trimmedInput) = true
      /\ message <> ""
  end.
Proof.
  intros s. unfold IPv6Parser.parseTry.
  destruct (ParsedIPv6.isValid (IPv6Parser.parseIPv6String s)) eqn:Ev;
    cbv beta iota delta [negb]; [|now left].
  destruct (IPv6Parser.getAddressRange _ _) as [first last].
  destruct (IPv6Parser.toInteger _) as [integer|m] eqn:Ei;
    cbv beta iota delta [bind];
    [|split; [reflexivity | eapply toInteger_throw; eauto]].
  destruct (IPv6Parser.isEUI64 _) as [eui|m] eqn:Ee;
    cbv beta iota delta [bind];
    [|split; [reflexivity | eapply isEUI64_throw; eauto]].
  right. split; reflexivity.
Qed.

End Failures.

(** [parse] returns a record for every input string: whatever the [try]
    block throws is caught and becomes a record.  Whenever the parser
    rejects the input, the record has [isValid = false]; and a record with
    [isValid = false] has a non-empty error detail and every derived field
    at its empty or default value.  Which inputs the parser rejects is
    another matter: see [invalid_input_populated]. *)
Lemma parse_failure_record : forall (host : Host) (input : string),
  let record := IPv6Parser.parse input in
  (ParsedIPv6.isValid (IPv6Parser.parseIPv6String (trim input)) = false ->
   IPv6Address.isValid record = false)
  /\ (IPv6Address.isValid record = false ->
      exists detail,
        detail <> ""
        /\ record = IPv6Parser.invalidAddress (trim input) (Some detail)
        /\ IPv6Address.error record = Some detail
        /\ IPv6Address.expanded record = ""
        /\ IPv6Address.compressed record = ""
        /\ IPv6Address.binary record = ""
        /\ IPv6Address.hex record = ""
        /\ IPv6Address.integer record = ""
        /\ IPv6Address.base64 record = ""
        /\ IPv6Address.networkAddress record = ""
        /\ IPv6Address.firstAddress record = ""
        /\ IPv6Address.lastAddress record = ""
        /\ IPv6Address.reverseDNS record = ""
        /\ IPv6Address.totalHosts record = ""
        /\ IPv6Address.totalSubnets record = ""
        /\ IPv6Address.prefixLength record = 0
        /\ IPv6Address.addressType record = AddressType.Reserved
        /\ IPv6Address.scope record = AddressScope.Global
        /\ IPv6Address.isIPv4Mapped record = false
        /\ IPv6Address.isIPv4Compatible record = false
        /\ IPv6Address.isEUI64 record = false
        /\ IPv6Address.isSLAACCompatible record = false
        /\ IPv6Address.rfcCompliance record = []).
Proof.
  intros host input. cbv zeta. unfold IPv6Parser.parse.
  pose proof (parseTry_cases (trim input)) as Hcases.
  destruct (IPv6Parser.parseTry (trim input)) as [address|message].
  - destruct Hcases as [[Hrej ->] | [Hacc Hvalid]].
    + split; [reflexivity|]. intros _.
      destruct (parseIPv6String_cases (trim input))
        as [(m & Hm & E) | (h & p & _ & E)]; rewrite E in *;
        [|discriminate Hrej].
      exists m. repeat split. exact Hm.
    + split; [congruence|]. congruence.
  - destruct Hcases as [Hacc Hm]. split; [congruence|]. intros _.
    exists message. repeat split. exact Hm.
Qed.

Lemma double_marker_failure_record :
  exists detail,
    detail <> ""
    /\ IPv6Parser.parse (host := sampleHost) "2001:db8::1::2"
       = IPv6Parser.invalidAddress "2001:db8::1::2" (Some detail).
Proof.
  destruct (proj2 (parse_failure_record sampleHost "2001:db8::1::2") eq_refl)
    as (detail & Hne & Heq & _).
  exists detail. split; [exact Hne | exact Heq].
Qed.

(** ** The mapped shorthand *)

Lemma octets_checked : forallb octetCheck (upTo 256 0) = true.
Proof. vm_compute. reflexivity. Qed.

Lemma digit_props : forall c, isDigit c = true ->
  isNot ":" c = true /\ isNot "/" c = true /\ isNot "." c = true.
Proof.
  intros [[] [] [] [] [] [] [] []]; vm_compute; intros H;
    try discriminate H; repeat split.
Qed.

Lemma octet_facts : forall a, 0 <= a <= 255 ->
  isEmpty (show a) = false /\ allChars isDigit (show a) = true
  /\ decimalValue (show a) = a.
Proof.
  intros a Ha.
  assert (Hin : In a (upTo 256 0)) by (apply In_upTo; simpl; lia).
  pose proof (proj1 (forallb_forall _ _) octets_checked _ Hin) as Hck.
  unfold octetCheck in Hck. cbv zeta in Hck.
  apply andb_true_iff in Hck as [Hck Hv].
  apply andb_true_iff in Hck as [Hne Hd].
  repeat split; [now apply negb_true_iff | assumption | now apply Z.eqb_eq].
Qed.

Lemma wrap32_small : forall z, - 2 ^ 31 <= z < 2 ^ 31 -> wrap32 z = z.
Proof.
  intros z Hz. unfold wrap32.
  change (2 ^ 31) with 2147483648 in *. change (2 ^ 32) with 4294967296.
  rewrite Z.mod_small; lia.
Qed.

Lemma land_shiftl_small : forall a b k,
  0 <= k -> 0 <= b < 2 ^ k -> Z.land (Z.shiftl a k) b = 0.
Proof.
  intros a b k Hk Hb. apply Z.bits_inj'. intros n Hn.
  rewrite Z.land_spec, Z.bits_0.
  destruct (Z.lt_ge_cases n k) as [Hlt|Hge].
  - now rewrite Z.shiftl_spec_low.
  - rewrite <- (Z.mod_small b (2 ^ k)) by lia.
    rewrite Z.mod_pow2_bits_high by lia. apply andb_false_r.
Qed.

(** [(a << 8) | b] on two octets. *)
Lemma octet_pair : forall a b, 0 <= a <= 255 -> 0 <= b <= 255 ->
  bor (shl a 8) b = a * 256 + b.
Proof.
  intros a b Ha Hb. unfold bor, shl.
  change (8 mod 32) with 8.
  assert (Hs : Z.shiftl a 8 = a * 256)
    by (rewrite Z.shiftl_mul_pow2 by lia; reflexivity).
  rewrite (wrap32_small a) by (change (2 ^ 31) with 2147483648; lia).
  rewrite (wrap32_small b) by (change (2 ^ 31) with 2147483648; lia).
  rewrite !wrap32_small
    by (rewrite ?wrap32_small; rewrite ?Hs;
        change (2 ^ 31) with 2147483648; lia).
  rewrite <- Z.lxor_lor, <- Z.add_nocarry_lxor, Hs;
    try (apply land_shiftl_small; [lia | change (2 ^ 8) with 256; lia]).
  reflexivity.
Qed.

Lemma split_go_dot : forall cur rest,
  split_go "." 0 cur (String "." rest) = cur :: split_go "." 0 "" rest.
Proof.
  intros cur rest; cbn [split_go prefix].
  destruct (ascii_dec "." ".") as [_|N]; [|contradiction].
  now destruct rest.
Qed.

Lemma split_quad : forall a b c d,
  Forall (fun s => allChars (isNot ".") s = true) [a; b; c; d] ->
  split (a +:+ "." +:+ b +:+ "." +:+ c +:+ "." +:+ d) "." = [a; b; c; d].
Proof.
  intros a b c d H.
  inversion H as [|? ? Ha H1]; subst. inversion H1 as [|? ? Hb H2]; subst.
  inversion H2 as [|? ? Hc H3]; subst. inversion H3 as [|? ? Hd _]; subst.
  unfold split.
  rewrite split_go_skip by assumption. cbn [append]. rewrite split_go_dot.
  rewrite split_go_skip by assumption. cbn [append]. rewrite split_go_dot.
  rewrite split_go_skip by assumption. cbn [append]. rewrite split_go_dot.
  rewrite <- (append_empty_r d) at 1.
  now rewrite split_go_skip.
Qed.

Lemma digits_lack : forall c s,
  (forall x, isDigit x = true -> isNot c x = true) ->
  allChars isDigit s = true -> allChars (isNot c) s = true.
Proof. intros c s H. now apply allChars_impl. Qed.

(** The shorthand with four octets in range is accepted as the mapped
    address of these octets. *)
Lemma mapped_in_range_accepted : forall a b c d,
  0 <= a <= 255 -> 0 <= b <= 255 -> 0 <= c <= 255 -> 0 <= d <= 255 ->
  IPv6Parser.parseIPv6String (Spec.mappedShorthand a b c d)
  = IPv6Parser.valid
      (map Num [0; 0; 0; 0; 0; 0xffff; a * 256 + b; c * 256 + d]) 128.
Proof.
  intros a b c d Ha Hb Hc Hd.
  destruct (octet_facts a Ha) as (Na & Da & Va).
  destruct (octet_facts b Hb) as (Nb & Db & Vb).
  destruct (octet_facts c Hc) as (Nc & Dc & Vc).
  destruct (octet_facts d Hd) as (Nd & Dd & Vd).
  set (quad := show a +:+ "." +:+ show b +:+ "." +:+ show c +:+ "." +:+ show d).
  assert (Hshort : Spec.mappedShorthand a b c d = "::ffff:" +:+ quad)
    by reflexivity.
  assert (Hsplit : split quad "." = [show a; show b; show c; show d]).
  { apply split_quad.
    repeat constructor;
      (eapply digits_lack; [intros x Hx; apply (digit_props x Hx) | assumption]). }
  rewrite Hshort. unfold IPv6Parser.parseIPv6String, IPv6Parser.prefixMatch.
  rewrite prefixMatch_go_none.
  2:{ assert (Hq : forall x, 0 <= x <= 255 ->
                      allChars (isNot "/") (show x) = true).
      { intros x Hx. eapply digits_lack;
          [intros y Hy; apply (digit_props y Hy) | apply (octet_facts x Hx)]. }
      rewrite allChars_append. unfold quad. rewrite !allChars_append.
      rewrite (Hq a Ha), (Hq b Hb), (Hq c Hc), (Hq d Hd). reflexivity. }
  unfold IPv6Parser.parseAddress.
  change (("::ffff:" +:+ quad =? "::")%string) with false. cbv iota.
  unfold IPv6Parser.ipv4MappedMatch.
  change (IPv6Parser.dropPrefix "::ffff:" ("::ffff:" +:+ quad))
    with (Some quad).
  cbv iota beta.
  unfold IPv6Parser.dottedQuad. rewrite Hsplit.
  cbn [forallb].
  rewrite Da, Db, Dc, Dd.
  rewrite Na, Nb, Nc, Nd.
  cbn [negb andb]. cbv iota beta. rewrite Hsplit. cbn [map]. rewrite Va, Vb, Vc, Vd. cbn [forallb].
  replace ((0 <=? a) && (a <=? 255)) with true by (symmetry; apply andb_true_iff; split; [apply Z.leb_le | apply Z.leb_le]; lia).
  replace ((0 <=? b) && (b <=? 255)) with true by (symmetry; apply andb_true_iff; split; [apply Z.leb_le | apply Z.leb_le]; lia).
  replace ((0 <=? c) && (c <=? 255)) with true by (symmetry; apply andb_true_iff; split; [apply Z.leb_le | apply Z.leb_le]; lia).
  replace ((0 <=? d) && (d <=? 255)) with true by (symmetry; apply andb_true_iff; split; [apply Z.leb_le | apply Z.leb_le]; lia).
  cbn [andb]. unfold IPv6Parser.ipv4MappedHextets. cbn [nth map].
  now rewrite !octet_pair.
Qed.

(** ** What holds of every accepted input *)

Lemma pushParts_bounded : forall parts acc hextets,
  IPv6Parser.pushParts parts acc = Some hextets ->
  Forall bounded acc -> Forall bounded hextets.
Proof.
  induction parts as [|part parts IH]; intros acc hextets H Hacc.
  - inversion H; subst. exact Hacc.
  - cbn [IPv6Parser.pushParts] in H.
    destruct (part =? "")%string; [now apply (IH acc)|].
    cbv zeta in H.
    destruct (isNaN (parseInt part 16) || gt (parseInt part 16) (Num 65535))
      eqn:E; [discriminate|].
    apply orb_false_iff in E as [E1 E2].
    apply (IH _ _ H). apply Forall_app. split; [exact Hacc|].
    constructor; [now split | constructor].
Qed.

Lemma parseGroups_bounded : forall address p,
  ParsedIPv6.isValid (IPv6Parser.parseGroups address p) = true ->
  Forall bounded (ParsedIPv6.hextets (IPv6Parser.parseGroups address p)).
Proof.
  intros address p. unfold IPv6Parser.parseGroups.
  destruct (2 <? _)%nat; [discriminate|].
  destruct (IPv6Parser.pushParts _ []) as [hextets1|] eqn:E1; [|discriminate].
  match goal with
  | |- context [IPv6Parser.pushParts ?r ?h] =>
      destruct (IPv6Parser.pushParts r h) as [hextets|] eqn:E2
  end; [|discriminate].
  destruct (negb _); [discriminate|]. intros _.
  cbn [IPv6Parser.valid ParsedIPv6.hextets].
  apply (pushParts_bounded _ _ _ E2).
  pose proof (pushParts_bounded _ _ _ E1 (Forall_nil _)) as H1.
  destruct (_ =? 2)%nat; [|exact H1].
  rewrite forRange_push. apply Forall_app. split; [exact H1|].
  apply Forall_forall. intros h Hh. apply repeat_spec in Hh. subst.
  now split.
Qed.

Lemma octets_nth : forall parts k,
  forallb (fun part => (0 <=? part) && (part <=? 255)) parts = true ->
  0 <= nth k parts 0 <= 255.
Proof.
  induction parts as [|part parts IH]; intros k H.
  - destruct k; simpl; lia.
  - cbn [forallb] in H. apply andb_true_iff in H as [Hp Hl].
    apply andb_true_iff in Hp as [H0 H255].
    apply Z.leb_le in H0. apply Z.leb_le in H255.
    destruct k; simpl; [lia | now apply IH].
Qed.

Lemma parseAddress_bounded : forall address p,
  ParsedIPv6.isValid (IPv6Parser.parseAddress address p) = true ->
  Forall bounded (ParsedIPv6.hextets (IPv6Parser.parseAddress address p)).
Proof.
  intros address p. unfold IPv6Parser.parseAddress.
  destruct (address =? "::")%string.
  { intros _. cbn [IPv6Parser.valid ParsedIPv6.hextets repeat].
    repeat constructor. }
  destruct (IPv6Parser.ipv4MappedMatch address) as [quad|];
    [|apply parseGroups_bounded].
  destruct (forallb _ _) eqn:E; [|apply parseGroups_bounded].
  intros _. cbn [IPv6Parser.valid ParsedIPv6.hextets].
  unfold IPv6Parser.ipv4MappedHextets.
  pose proof (octets_nth _ 0 E). pose proof (octets_nth _ 1 E).
  pose proof (octets_nth _ 2 E). pose proof (octets_nth _ 3 E).
  rewrite !octet_pair by assumption.
  repeat constructor; cbn [gt]; apply Z.ltb_ge; lia.
Qed.

(** Every word of an accepted input is a number and is at most [0xffff];
    nothing bounds it from below. *)
Lemma accepted_words_bounded : forall input,
  ParsedIPv6.isValid (IPv6Parser.parseIPv6String input) = true ->
  Forall bounded (ParsedIPv6.hextets (IPv6Parser.parseIPv6String input)).
Proof.
  intros input. unfold IPv6Parser.parseIPv6String.
  destruct (IPv6Parser.prefixMatch input) as [[address digits]|].
  - destruct (_ || _); [discriminate | apply parseAddress_bounded].
  - apply parseAddress_bounded.
Qed.

Lemma split_go_pieces : forall (p : ascii -> bool) s cur,
  p "."%char = true ->
  Forall (fun piece => allChars p piece = true) (split_go "." 0 cur s) ->
  allChars p cur = true /\ allChars p s = true.
Proof.
  intros p; induction s as [|c s IH]; intros cur Hdot H.
  - inversion H; subst. now split.
  - cbn [split_go prefix] in H.
    destruct (ascii_dec "." c) as [<-|Hne].
    + replace (prefix "" s) with true in H by now destruct s.
      cbn [String.length Nat.sub] in H.
      inversion H as [|? ? Hcur Hrest]; subst.
      destruct (IH _ Hdot Hrest) as [_ Hs].
      split; [assumption|]. cbn [allChars]. now rewrite Hdot, Hs.
    + destruct (IH _ Hdot H) as [Hcur Hs].
      rewrite allChars_append in Hcur.
      apply andb_true_iff in Hcur as [Hcur Hc].
      cbn [allChars] in Hc. rewrite andb_true_r in Hc.
      split; [assumption|]. cbn [allChars]. now rewrite Hc, Hs.
Qed.

Lemma dottedQuad_chars : forall quad,
  IPv6Parser.dottedQuad quad = true ->
  quad <> "" /\ allChars (isNot ":") quad = true.
Proof.
  intros quad H. unfold IPv6Parser.dottedQuad in H. split.
  - intros ->. discriminate H.
  - destruct (split quad ".") as [|a [|b [|c [|d [|e l]]]]] eqn:E;
      try discriminate H.
    apply (split_go_pieces (isNot ":") quad ""); [reflexivity|].
    fold (split quad "."). rewrite E.
    apply Forall_forall. intros piece Hin.
    pose proof (proj1 (forallb_forall _ _) H piece Hin) as Hp.
    apply andb_true_iff in Hp as [_ Hp].
    eapply allChars_impl; [|exact Hp].
    intros x Hx. apply (digit_props x Hx).
Qed.

Lemma matches_colon : forall c,
  IPv6Parser.matchesIgnoreCase ":" c = true -> c = ":"%char.
Proof.
  intros [[] [] [] [] [] [] [] []]; vm_compute; intros H;
    try discriminate H; reflexivity.
Qed.

Lemma matches_f : forall c,
  IPv6Parser.matchesIgnoreCase "f" c = true -> isNot ":" c = true.
Proof.
  intros [[] [] [] [] [] [] [] []]; vm_compute; intros H;
    try discriminate H; reflexivity.
Qed.

(** A matched shorthand splits on [::] into two pieces. *)
Lemma mapped_single_marker : forall address quad,
  IPv6Parser.dropPrefix "::ffff:" address = Some quad ->
  IPv6Parser.dottedQuad quad = true ->
  List.length (split address "::") = 2%nat.
Proof.
  intros address quad Hdrop Hquad.
  destruct (dottedQuad_chars quad Hquad) as [Hne Hchars].
  cbn [IPv6Parser.dropPrefix] in Hdrop.
  repeat match type of Hdrop with
         | match ?s with EmptyString => _ | String _ _ => _ end = _ =>
             destruct s as [|? ?]; [discriminate Hdrop|]
         | (if ?m then _ else _) = _ =>
             let E := fresh "M" in
             destruct m eqn:E; [|discriminate Hdrop]
         end.
  inversion Hdrop; subst; clear Hdrop.
  repeat match goal with
         | M : IPv6Parser.matchesIgnoreCase ":" _ = true |- _ =>
             apply matches_colon in M; subst
         | M : IPv6Parser.matchesIgnoreCase "f" _ = true |- _ =>
             apply matches_f in M
         end.
  unfold split. rewrite split_go_double_colon.
  match goal with
  | |- context [String ?f1 (String ?f2 (String ?f3 (String ?f4
                  (String ":" quad))))] =>
      change (String f1 (String f2 (String f3 (String f4 (String ":" quad)))))
        with (String f1 (String f2 (String f3 (String f4 ""))) +:+ String ":" quad);
      rewrite (split_go_skip ":" ":"
                 (String f1 (String f2 (String f3 (String f4 "")))))
        by (cbn [allChars]; repeat match goal with
                                   | M : isNot ":" _ = true |- _ =>
                                       rewrite M; clear M
                                   end; reflexivity)
  end.
  destruct quad as [|c quad]; [contradiction|].
  cbn [allChars] in Hchars. apply andb_true_iff in Hchars as [Hc Hq].
  rewrite split_go_single_colon by now apply isNot_neq.
  rewrite <- (append_empty_r (String c quad)).
  rewrite split_go_skip by (cbn [allChars]; now rewrite Hc, Hq).
  reflexivity.
Qed.

Lemma parseAddress_single_marker : forall address p,
  ParsedIPv6.isValid (IPv6Parser.parseAddress address p) = true ->
  (List.length (split address "::") <= 2)%nat.
Proof.
  intros address p. unfold IPv6Parser.parseAddress.
  destruct (address =? "::")%string eqn:E.
  { apply String.eqb_eq in E; subst. intros _. simpl. lia. }
  assert (Hgroups :
    ParsedIPv6.isValid (IPv6Parser.parseGroups address p) = true ->
    (List.length (split address "::") <= 2)%nat).
  { unfold IPv6Parser.parseGroups.
    destruct (2 <? _)%nat eqn:E2; [discriminate|].
    intros _. apply Nat.ltb_ge in E2. exact E2. }
  unfold IPv6Parser.ipv4MappedMatch.
  destruct (IPv6Parser.dropPrefix "::ffff:" address) as [quad|] eqn:Ed;
    [|exact Hgroups].
  destruct (IPv6Parser.dottedQuad quad) eqn:Eq; [|exact Hgroups].
  intros _. rewrite (mapped_single_marker _ _ Ed Eq). lia.
Qed.

(** The body of an accepted input holds at most one [::] marker: splitting
    it on [::] gives at most two pieces. *)
Lemma accepted_single_marker : forall input,
  ParsedIPv6.isValid (IPv6Parser.parseIPv6String input) = true ->
  (List.length (split (body input) "::") <= 2)%nat.
Proof.
  intros input. unfold IPv6Parser.parseIPv6String, body.
  destruct (IPv6Parser.prefixMatch input) as [[address digits]|].
  - destruct (_ || _); [discriminate | apply parseAddress_single_marker].
  - apply parseAddress_single_marker.
Qed.

(** ** Accepted inputs *)

(** An accepted input always yields eight words. *)
Lemma accepted_has_eight_words : forall input,
  ParsedIPv6.isValid (IPv6Parser.parseIPv6String input) = true ->
  List.length (ParsedIPv6.hextets (IPv6Parser.parseIPv6String input)) = 8%nat.
Proof.
  intros input H.
  destruct (parseIPv6String_cases input)
    as [(m & _ & E) | (h & p & Hlen & E)]; rewrite E in *.
  - discriminate H.
  - exact Hlen.
Qed.

(** C2.  The input [-1::] is accepted, and its first word is [-1]: the
    words of a valid record are eight, but not all in [0, 0xFFFF]. *)
Theorem negative_word_accepted :
  IPv6Address.isValid (IPv6Parser.parse (host := sampleHost) "-1::") = true
  /\ word128 "-1::" = Some (map Num [-1; 0; 0; 0; 0; 0; 0; 0])
  /\ Spec.isWord128 [-1; 0; 0; 0; 0; 0; 0; 0] = false.
Proof. vm_compute. repeat split. Qed.

(** C1.  The input [12xy::1] is invalid: its first group is not made of 1
    to 4 hex digits.  The record that [parse] returns for it is all the same
    marked valid, carries no error detail, and has every derived field
    populated, with the values of the address [12::1]: an invalid input does
    not always get the failure record. *)
Theorem invalid_input_populated :
  let record := IPv6Parser.parse (host := sampleHost) "12xy::1" in
  split "12xy::1" "::" = ["12xy"; "1"]
  /\ Spec.isHextetText "12xy" = false
  /\ IPv6Address.isValid record = true
  /\ IPv6Address.error record = None
  /\ record <> IPv6Parser.invalidAddress "12xy::1" (IPv6Address.error record)
  /\ IPv6Address.expanded record = "0012:0000:0000:0000:0000:0000:0000:0001"
  /\ IPv6Address.compressed record = "12::1"
  /\ IPv6Address.binary record
     = "0000000000010010 0000000000000000 0000000000000000 0000000000000000 "
       +:+ "0000000000000000 0000000000000000 0000000000000000 "
       +:+ "0000000000000001"
  /\ IPv6Address.hex record = "0x00120000000000000000000000000001"
  /\ IPv6Address.integer record = "93461343453626897313548933925961729"
  /\ IPv6Address.base64 record = "ABIAAAAAAAAAAAAAAAAAAQ=="
  /\ IPv6Address.networkAddress record = "12::1/128"
  /\ IPv6Address.prefixLength record = 128
  /\ IPv6Address.firstAddress record = "12::1"
  /\ IPv6Address.lastAddress record = "12::1"
  /\ IPv6Address.reverseDNS record
     = "1.0.0.0.0.0.0.0.0.0.0.0.0.0.0.0.0.0.0.0.0.0.0.0.0.0.0.0.2.1.0.0"
       +:+ ".ip6.arpa"
  /\ map RFCCompliance.rfc (IPv6Address.rfcCompliance record)
     = ["RFC 4291"; "RFC 5952"]
  /\ IPv6Address.expanded record
     = IPv6Address.expanded (IPv6Parser.parse (host := sampleHost) "12::1").
Proof. vm_compute. repeat split. discriminate. Qed.

(** C5.  The input [12xy::1] is accepted although its first group is not
    made of 1 to 4 hex digits: [parseInt] reads the digits [12] and ignores
    the rest. *)
Theorem malformed_group_accepted :
  split "12xy::1" "::" = ["12xy"; "1"]
  /\ Spec.isHextetText "12xy" = false
  /\ IPv6Address.isValid (IPv6Parser.parse (host := sampleHost) "12xy::1")
     = true
  /\ IPv6Address.error (IPv6Parser.parse (host := sampleHost) "12xy::1")
     = None
  /\ word128 "12xy::1" = Some (map Num [0x12; 0; 0; 0; 0; 0; 0; 1]).
Proof. vm_compute. repeat split. Qed.

(** C6.  The shorthand [::ffff:256.1.1.1] has an octet above 255 and is
    accepted all the same: the octet test fails, the input falls through to
    the colon-hex path, and [256.1.1.1] is read there as the word [0x256]. *)
Theorem out_of_range_octet_accepted :
  Spec.mappedShorthand 256 1 1 1 = "::ffff:256.1.1.1"
  /\ IPv6Address.isValid
       (IPv6Parser.parse (host := sampleHost) "::ffff:256.1.1.1") = true
  /\ IPv6Address.error
       (IPv6Parser.parse (host := sampleHost) "::ffff:256.1.1.1") = None
  /\ word128 "::ffff:256.1.1.1"
     = Some (map Num [0; 0; 0; 0; 0; 0; 0xffff; 0x256]).
Proof. vm_compute. repeat split. Qed.

(** ** Classification *)

(** On words that are neither all zero nor the loopback address, the
    classification is LinkLocal exactly when the first word is [0xfe80]. *)
Lemma linkLocal_iff_fe80 : forall hextets,
  IPv6Parser.every IPv6Parser.isZero hextets = false ->
  IPv6Parser.every IPv6Parser.isZero (slice hextets 0 7)
    && strictEq (get hextets 7) (Num 1) = false ->
  (IPv6Parser.getAddressType hextets = AddressType.LinkLocal
   <-> strictEq (get hextets 0) (Num 0xfe80) = true).
Proof.
  intros hextets Hz Hl. unfold IPv6Parser.getAddressType.
  rewrite Hz, Hl.
  destruct (strictEq (get hextets 0) (Num 0xfe80)); [tauto|].
  repeat match goal with
         | |- context [if ?c then _ else _] => destruct c
         end; split; discriminate.
Qed.

(** C7.  The address [fe81::1] is neither all zero nor the loopback address
    and its top 10 bits are 1111 1110 10, yet it is classified Reserved: the
    code compares the whole first word with [0xfe80]. *)
Theorem fe81_not_link_local :
  let w := [0xfe81; 0; 0; 0; 0; 0; 0; 1] in
  Spec.isWord128 w = true
  /\ Spec.allZero w = false
  /\ Spec.loopbackPattern w = false
  /\ Spec.linkLocalPattern w = true
  /\ IPv6Parser.getAddressType (map Num w) = AddressType.Reserved
  /\ IPv6Address.addressType (IPv6Parser.parse (host := sampleHost) "fe81::1")
     = AddressType.Reserved.
Proof. vm_compute. repeat split. Qed.

(** ** Subnet plans *)

(** The loop that pushes one element for each index below [n]: it fills the
    array when [n] is at most [2^32 - 1], and throws otherwise. *)
Lemma forRangeM_push : forall (host : Host) (A : Type) (f : Z -> A) n,
  forRangeM 0 n (fun i l => push l (f i)) []
  = if n <=? maxArrayLength
    then Normal (map (fun k => f (Z.of_nat k)) (seq 0 (Z.to_nat n)))
    else Throw arrayLengthError.
Proof.
  intros host A f n. unfold forRangeM. rewrite Z.sub_0_r.
  assert (Hgen : forall k,
    fold_left (fun st j => bind st (fun l => push l (f (0 + Z.of_nat j))))
      (seq 0 k) (Normal [])
    = if Z.of_nat k <=? maxArrayLength
      then Normal (map (fun j => f (Z.of_nat j)) (seq 0 k))
      else Throw arrayLengthError).
  { induction k as [|k IH].
    - reflexivity.
    - rewrite seq_S, fold_left_app, IH. cbn [fold_left Nat.add].
      destruct (Z.leb_spec (Z.of_nat k) maxArrayLength) as [Hk|Hk].
      + cbn [bind]. unfold push. rewrite length_map, length_seq.
        destruct (Z.ltb_spec (Z.of_nat k) maxArrayLength) as [Hlt|Hge].
        * replace (Z.of_nat (S k) <=? maxArrayLength) with true
            by (symmetry; apply Z.leb_le; lia).
          now rewrite map_app.
        * replace (Z.of_nat (S k) <=? maxArrayLength) with false
            by (symmetry; apply Z.leb_gt; lia).
          reflexivity.
      + replace (Z.of_nat (S k) <=? maxArrayLength) with false
          by (symmetry; apply Z.leb_gt; lia).
        reflexivity. }
  rewrite Hgen.
  destruct (Z.le_gt_cases 0 n) as [Hn|Hn].
  - now rewrite Z2Nat.id.
  - replace (Z.to_nat n) with 0%nat by lia.
    replace (n <=? maxArrayLength) with true
      by (symmetry; apply Z.leb_le; unfold maxArrayLength; lia).
    reflexivity.
Qed.

Section Plans.
Context {host : Host}.

(** For a valid base and a target prefix in range, the planner returns a
    plan when the array can hold the subnets to generate: [2^(t-p)] possible
    subnets, of which it generates the first ones in index order, as many as
    the limit allows (all of them when the limit is absent or 0). *)
Lemma subnets_generated : forall prefix t count,
  let parsed := IPv6Parser.parse prefix in
  let p := IPv6Address.prefixLength parsed in
  let total := 2 ^ (t - p) in
  let generated :=
    match count with
    | Some c => if c =? 0 then total else Z.min c total
    | None => total
    end in
  IPv6Address.isValid parsed = true ->
  p < t <= 128 ->
  generated <= maxArrayLength ->
  IPv6Subnetting.calculateSubnets prefix t count
  = Normal
      {| SubnetPlan.originalPrefix := prefix;
         SubnetPlan.targetPrefixLength := t;
         SubnetPlan.subnets :=
           map (fun k =>
                  IPv6Subnetting.subnetInfo
                    (IPv6Subnetting.parseHextets (IPv6Address.expanded parsed))
                    p t (Z.of_nat k))
               (seq 0 (Z.to_nat generated));
         SubnetPlan.totalSubnets := total |}.
Proof.
  intros prefix t count parsed p total generated Hvalid Ht Hfits.
  unfold IPv6Subnetting.calculateSubnets. fold parsed. rewrite Hvalid.
  cbn [negb]. fold p.
  replace (t <=? p) with false by (symmetry; apply Z.leb_gt; lia).
  replace (128 <? t) with false by (symmetry; apply Z.ltb_ge; lia).
  cbv zeta. rewrite forRangeM_push. fold total. fold generated.
  replace (generated <=? maxArrayLength) with true
    by (symmetry; apply Z.leb_le; exact Hfits).
  reflexivity.
Qed.

(** With more subnets to generate than an array can hold, the planner
    throws what the push throws. *)
Lemma subnets_overflow : forall prefix t count,
  let parsed := IPv6Parser.parse prefix in
  let p := IPv6Address.prefixLength parsed in
  let total := 2 ^ (t - p) in
  let generated :=
    match count with
    | Some c => if c =? 0 then total else Z.min c total
    | None => total
    end in
  IPv6Address.isValid parsed = true ->
  p < t <= 128 ->
  maxArrayLength < generated ->
  IPv6Subnetting.calculateSubnets prefix t count = Throw arrayLengthError.
Proof.
  intros prefix t count parsed p total generated Hvalid Ht Hover.
  unfold IPv6Subnetting.calculateSubnets. fold parsed. rewrite Hvalid.
  cbn [negb]. fold p.
  replace (t <=? p) with false by (symmetry; apply Z.leb_gt; lia).
  replace (128 <? t) with false by (symmetry; apply Z.ltb_ge; lia).
  cbv zeta. rewrite forRangeM_push. fold total. fold generated.
  replace (generated <=? maxArrayLength) with false
    by (symmetry; apply Z.leb_gt; exact Hover).
  reflexivity.
Qed.

End Plans.

(** C8.  With a limit of 0 the planner generates every possible subnet,
    not [min 0 total = 0] of them: [count ? a : b] treats 0 as an absent
    limit. *)
Theorem zero_limit_generates_all :
  match IPv6Subnetting.calculateSubnets (host := sampleHost) "2001:db8::/32"
          34 (Some 0) with
  | Normal plan =>
      SubnetPlan.totalSubnets plan = 4
      /\ List.length (SubnetPlan.subnets plan) = 4%nat
      /\ Z.min 0 (SubnetPlan.totalSubnets plan) = 0
  | Throw _ => False
  end.
Proof. vm_compute. repeat split. Qed.

(** The scenario of the specification: the four /34 subnets of
    [2001:db8::/32], in order.  The planner renders each network in expanded
    notation. *)
Lemma plan_2001_db8_32_34 :
  match IPv6Subnetting.calculateSubnets (host := sampleHost) "2001:db8::/32"
          34 None with
  | Normal plan =>
      map SubnetInfo.network (SubnetPlan.subnets plan)
      = ["2001:0db8:0000:0000:0000:0000:0000:0000/34";
         "2001:0db8:4000:0000:0000:0000:0000:0000/34";
         "2001:0db8:8000:0000:0000:0000:0000:0000/34";
         "2001:0db8:c000:0000:0000:0000:0000:0000/34"]
      /\ map (fun network => IPv6Address.networkAddress
                               (IPv6Parser.parse (host := sampleHost) network))
             (map SubnetInfo.network (SubnetPlan.subnets plan))
         = ["2001:db8::/34"; "2001:db8:4000::/34"; "2001:db8:8000::/34";
            "2001:db8:c000::/34"]
  | Throw _ => False
  end
  /\ map (fun i => IPv6Subnetting.calculateSubnetAddress
                     (map Num [0x2001; 0xdb8; 0; 0; 0; 0; 0; 0]) 32 34 i)
         [0; 1; 2; 3]
     = map (fun i => map Num
                       (Spec.writeBits [0x2001; 0xdb8; 0; 0; 0; 0; 0; 0]
                          32 34 i))
           [0; 1; 2; 3].
Proof. vm_compute. repeat split. Qed.

(** On a sample of base prefixes, the code writes the index as the
    specification says for every number of subnet bits up to 32; from 33
    bits on, some index is written wrongly. *)
Lemma subnet_writes_on_samples :
  let base := [0x2001; 0xdb8; 0xabcd; 0x1234; 0xffff; 0x8001; 0x7ffe; 0x5555] in
  forallb
    (fun p =>
       forallb
         (fun k => forallb (writesAgree base p (p + k)) (sampleIndices k))
         (upTo 32 1)
       && negb (forallb (writesAgree base p (p + 33)) (sampleIndices 33)))
    samplePrefixes = true.
Proof. vm_cast_no_check (eq_refl true). Qed.

(** C9.  For the base [2001:db8::/32], the target /80 and the index 1, the
    code writes the index into the words 2 and 4, whereas the bit range
    [32, 80) with the value 1 has its only set bit in word 4: the shift
    count 32 of [currentIndex >> 32] is taken modulo 32. *)
Theorem subnet_index_misplaced :
  let base := [0x2001; 0xdb8; 0; 0; 0; 0; 0; 0] in
  IPv6Subnetting.parseHextets
    (IPv6Address.expanded (IPv6Parser.parse (host := sampleHost) "2001:db8::/32"))
  = map Num base
  /\ IPv6Subnetting.calculateSubnetAddress (map Num base) 32 80 1
     = map Num [0x2001; 0xdb8; 1; 0; 1; 0; 0; 0]
  /\ Spec.writeBits base 32 80 1 = [0x2001; 0xdb8; 0; 0; 1; 0; 0; 0]
  /\ match IPv6Subnetting.calculateSubnets (host := sampleHost)
             "2001:db8::/32" 80 (Some 2) with
     | Normal plan =>
         map SubnetInfo.network (SubnetPlan.subnets plan)
         = ["2001:0db8:0000:0000:0000:0000:0000:0000/80";
            "2001:0db8:0001:0000:0001:0000:0000:0000/80"]
     | Throw _ => False
     end.
Proof. vm_compute. repeat split. Qed.

(** ** Host counts *)

(** What the two host-count functions return for a prefix length [t] in
    [0, 128].  When [128 - t < 64] both apply the host's [toLocaleString] to
    [2^(128-t)], so that the planner and the codec give the same string,
    whatever the host makes of the number; when [128 - t >= 64] the planner
    gives the [2^k] notation alone and the codec gives that notation
    followed by the full decimal expansion in parentheses. *)
Lemma host_count_strings : forall (host : Host) (t : Z),
  0 <= t <= 128 ->
  let k := 128 - t in
  (k < 64 ->
   IPv6Subnetting.calculateHostCount t = IPv6Parser.calculateTotalHosts t
   /\ IPv6Subnetting.calculateHostCount t = toLocaleString (2 ^ k))
  /\ (64 <= k ->
      IPv6Subnetting.calculateHostCount t = "2^" +:+ show k
      /\ IPv6Parser.calculateTotalHosts t
         = IPv6Subnetting.calculateHostCount t
             +:+ " (" +:+ bigIntToString (2 ^ k) +:+ ")").
Proof.
  intros host t Ht. cbv zeta.
  unfold IPv6Subnetting.calculateHostCount, IPv6Parser.calculateTotalHosts.
  cbv zeta. split; intros Hk.
  - replace (64 <=? 128 - t) with false by (symmetry; apply Z.leb_gt; lia).
    split; reflexivity.
  - replace (64 <=? 128 - t) with true by (symmetry; apply Z.leb_le; lia).
    split; [reflexivity|].
    now rewrite append_assoc.
Qed.

Lemma host_count_strings_at_100 :
  IPv6Subnetting.calculateHostCount (host := sampleHost) 100
  = IPv6Parser.calculateTotalHosts (host := sampleHost) 100.
Proof.
  assert (Ht : 0 <= 100 <= 128) by lia.
  assert (Hk : 128 - 100 < 64) by lia.
  exact (proj1 (proj1 (host_count_strings sampleHost 100 Ht) Hk)).
Qed.

(** The host count of every record the planner generates is what
    [calculateHostCount] returns for the target prefix length. *)
Lemma subnetInfo_totalHosts : forall (host : Host) base p t i,
  SubnetInfo.totalHosts (IPv6Subnetting.subnetInfo base p t i)
  = IPv6Subnetting.calculateHostCount t.
Proof.
  intros host base p t i. unfold IPv6Subnetting.subnetInfo. cbv zeta.
  now destruct (IPv6Subnetting.getSubnetRange _ t).
Qed.

(** C10.  At the target prefix length 64, where [128 - t >= 64], the string
    the planner attaches to each generated subnet is the [2^k] notation
    alone: it has no decimal expansion and differs from the string the codec
    computes for the same prefix length, on every host. *)
Theorem planner_host_count_lacks_expansion : forall (host : Host),
  IPv6Subnetting.calculateHostCount 64 = "2^64"
  /\ IPv6Parser.calculateTotalHosts 64 = "2^64 (18446744073709551616)"
  /\ IPv6Subnetting.calculateHostCount 64
     <> IPv6Parser.calculateTotalHosts 64
  /\ match IPv6Subnetting.calculateSubnets "2001:db8::/32" 64 (Some 2) with
     | Normal plan =>
         map SubnetInfo.totalHosts (SubnetPlan.subnets plan)
         = ["2^64"; "2^64"]
     | Throw _ => False
     end
  /\ IPv6Address.totalHosts (IPv6Parser.parse "2001:db8::/64")
     = "2^64 (18446744073709551616)".
Proof. intros host. vm_compute. repeat split. discriminate. Qed.

(** ** Scenarios of the specification *)

Lemma scenario_documentation_prefix :
  let record := IPv6Parser.parse (host := sampleHost) "2001:db8::/32" in
  IPv6Address.isValid record = true
  /\ IPv6Address.addressType record = AddressType.Documentation
  /\ IPv6Address.compressed record = "2001:db8::"
  /\ IPv6Address.networkAddress record = "2001:db8::/32".
Proof. vm_compute. repeat split. Qed.

Lemma scenario_loopback :
  let record := IPv6Parser.parse (host := sampleHost) "::1" in
  IPv6Address.isValid record = true
  /\ IPv6Address.addressType record = AddressType.Loopback
  /\ IPv6Address.compressed record = "::1".
Proof. vm_compute. repeat split. Qed.

Lemma scenario_mapped :
  let record := IPv6Parser.parse (host := sampleHost) "::ffff:192.168.1.1" in
  IPv6Address.isValid record = true
  /\ IPv6Address.addressType record = AddressType.IPv4Mapped
  /\ IPv6Address.expanded record = "0000:0000:0000:0000:0000:ffff:c0a8:0101".
Proof. vm_compute. repeat split. Qed.

Lemma scenario_two_markers :
  IPv6Parser.parse (host := sampleHost) "2001:db8::1::2"
  = IPv6Parser.invalidAddress "2001:db8::1::2" (Some "Multiple :: not allowed").
Proof. vm_compute. reflexivity. Qed.

(** The [catch] block of [parse] is reachable: a group of 257 hex digits
    after a minus sign is read as [-Infinity], which passes the test on the
    group and makes [BigInt] throw in [toInteger]. *)
Lemma thrown_error_caught :
  let input := "-1" +:+ replicate 256 "0" +:+ "::" in
  ParsedIPv6.isValid (IPv6Parser.parseIPv6String input) = true
  /\ nth 0 (ParsedIPv6.hextets (IPv6Parser.parseIPv6String input)) NaN
     = NegInfinity
  /\ IPv6Parser.parse (host := sampleHost) input
     = IPv6Parser.invalidAddress input (Some (v8RangeError NegInfinity)).
Proof. vm_compute. repeat split. Qed.

(** * Further properties *)

(** ** The prefix length *)

Lemma slash_not_digits : forall a d,
  allChars isDigit (a +:+ String "/" d) = false.
Proof.
  induction a as [|c a IH]; intros d.
  - reflexivity.
  - cbn [append allChars]. rewrite IH. apply andb_false_r.
Qed.

Lemma prefixMatch_go_suffix : forall a before d,
  before +:+ a <> "" ->
  allChars (fun c => negb (isLineTerminator c)) a = true ->
  d <> "" -> allChars isDigit d = true ->
  IPv6Parser.prefixMatch_go before (a +:+ "/" +:+ d)
  = Some (before +:+ a, d).
Proof.
  induction a as [|c a IH]; intros before d Hne Hlt Hd Hdigits.
  - rewrite append_empty_r in *. cbn [append IPv6Parser.prefixMatch_go].
    rewrite Hdigits.
    destruct before; [contradiction|]. destruct d; [contradiction|].
    reflexivity.
  - cbn [append IPv6Parser.prefixMatch_go].
    rewrite slash_not_digits, andb_false_r.
    cbn [allChars] in Hlt. apply andb_true_iff in Hlt as [Hc Ha].
    apply negb_true_iff in Hc. rewrite Hc.
    change (a +:+ String "/" d) with (a +:+ "/" +:+ d).
    rewrite IH; try assumption.
    + now rewrite append_assoc.
    + rewrite append_assoc. cbn [append]. now destruct before.
Qed.

(** The pattern of the prefix length splits an input at its last slash. *)
Lemma prefixMatch_suffix : forall a d,
  a <> "" -> allChars (fun c => negb (isLineTerminator c)) a = true ->
  d <> "" -> allChars isDigit d = true ->
  IPv6Parser.prefixMatch (a +:+ "/" +:+ d) = Some (a, d).
Proof.
  intros a d Ha Hlt Hd Hdigits. unfold IPv6Parser.prefixMatch.
  now rewrite prefixMatch_go_suffix.
Qed.

Lemma parseGroups_any_prefix : forall address,
  (exists message, forall q,
      IPv6Parser.parseGroups address q = IPv6Parser.invalid message)
  \/ (exists hextets, forall q,
        IPv6Parser.parseGroups address q = IPv6Parser.valid hextets q).
Proof.
  intros address. unfold IPv6Parser.parseGroups.
  destruct (2 <? _)%nat; [left; eexists; reflexivity|].
  destruct (IPv6Parser.pushParts _ []) as [hextets1|];
    [|left; eexists; reflexivity].
  match goal with
  | |- context [IPv6Parser.pushParts ?r ?h] =>
      destruct (IPv6Parser.pushParts r h) as [hextets|]
  end; [|left; eexists; reflexivity].
  destruct (negb _); [left | right]; eexists; reflexivity.
Qed.

(** The prefix length only fills its field of the result: the words and the
    verdict do not depend on it. *)
Lemma parseAddress_any_prefix : forall address,
  (exists message, forall q,
      IPv6Parser.parseAddress address q = IPv6Parser.invalid message)
  \/ (exists hextets, forall q,
        IPv6Parser.parseAddress address q = IPv6Parser.valid hextets q).
Proof.
  intros address. unfold IPv6Parser.parseAddress.
  destruct (address =? "::")%string; [right; eexists; reflexivity|].
  destruct (IPv6Parser.ipv4MappedMatch address) as [quad|];
    [|apply (parseGroups_any_prefix address)].
  destruct (forallb _ _); [right; eexists; reflexivity|].
  apply (parseGroups_any_prefix address).
Qed.

Lemma parseAddress_other_prefix : forall address hextets p q,
  IPv6Parser.parseAddress address p = IPv6Parser.valid hextets p ->
  IPv6Parser.parseAddress address q = IPv6Parser.valid hextets q.
Proof.
  intros address hextets p q H.
  destruct (parseAddress_any_prefix address) as [[m Hm] | [h Hh]].
  - rewrite Hm in H. discriminate H.
  - rewrite Hh in H. inversion H; subst. apply Hh.
Qed.

Lemma rendered_no_terminator : forall s,
  allChars isAddressChar s = true ->
  allChars (fun c => negb (isLineTerminator c)) s = true.
Proof.
  intros s H. eapply allChars_impl; [|exact H].
  intros [[] [] [] [] [] [] [] []]; vm_compute; intros E;
    try discriminate E; reflexivity.
Qed.

Lemma show_prefix : forall p, 0 <= p <= 128 ->
  show p <> "" /\ allChars isDigit (show p) = true
  /\ decimalValue (show p) = p.
Proof.
  intros p Hp. destruct (octet_facts p ltac:(lia)) as (He & Hd & Hv).
  repeat split; try assumption.
  intros E. rewrite E in He. discriminate He.
Qed.


Lemma rendered_text : forall text w,
  allChars isAddressChar text = true ->
  IPv6Parser.parseIPv6String text = IPv6Parser.valid (map Num w) 128 ->
  Rendered text w.
Proof.
  intros text w Hc Hp. constructor.
  - intros ->. discriminate Hp.
  - exact Hc.
  - intros p. apply parseAddress_other_prefix with (p := 128).
    destruct (parse_rendered _ Hc) as [_ Hg].
    unfold IPv6Parser.parseIPv6String, IPv6Parser.prefixMatch in Hp.
    rewrite prefixMatch_go_none in Hp; [exact Hp|].
    eapply allChars_impl; [|exact Hc].
    intros c E. apply addressChar_props, E.
Qed.

Lemma compressed_chars : forall w, Spec.Word128 w ->
  allChars isAddressChar (IPv6Parser.toCompressed (map Num w)) = true.
Proof.
  intros w Hw. pose proof (toCompressed_shape w Hw) as Hshape.
  destruct Hw as [Hlen Hws].
  destruct (Spec.selectedRun (map (Z.eqb 0) w)) as [[s n]|].
  - destruct Hshape as (_ & _ & _ & ->).
    rewrite !allChars_append.
    rewrite !(rendered_chars hexs)
      by (try exact hexs_chars_all;
          apply Forall_firstn || apply Forall_skipn; assumption).
    reflexivity.
  - rewrite Hshape. apply rendered_chars; [exact hexs_chars_all | assumption].
Qed.

Lemma expanded_chars : forall w, Spec.Word128 w ->
  allChars isAddressChar (IPv6Parser.toExpanded (map Num w)) = true.
Proof.
  intros w [Hlen Hws]. rewrite toExpanded_words.
  apply rendered_chars; [exact hex4_chars_all | assumption].
Qed.

Lemma compressed_rendered : forall w, Spec.Word128 w ->
  Rendered (IPv6Parser.toCompressed (map Num w)) w.
Proof.
  intros w Hw. apply rendered_text; [now apply compressed_chars|].
  apply (parse_compressed_text w Hw).
Qed.

Lemma expanded_rendered : forall w, Spec.Word128 w ->
  Rendered (IPv6Parser.toExpanded (map Num w)) w.
Proof.
  intros w Hw. apply rendered_text; [now apply expanded_chars|].
  apply (parse_expanded_text w Hw).
Qed.

Lemma with_prefix_chars : forall text p,
  allChars isAddressChar text = true -> 0 <= p <= 128 ->
  allChars (fun c => negb (isWhiteSpace c)) (text +:+ "/" +:+ show p) = true.
Proof.
  intros text p Hc Hp. destruct (show_prefix p Hp) as (_ & Hd & _).
  rewrite !allChars_append. apply andb_true_iff. split.
  - eapply allChars_impl; [|exact Hc]. intros c E. apply addressChar_props, E.
  - apply andb_true_iff. split; [reflexivity|].
    eapply allChars_impl; [|exact Hd].
    intros [[] [] [] [] [] [] [] []]; vm_compute; intros E;
      try discriminate E; reflexivity.
Qed.

(** A rendered address followed by a prefix length in range parses to its
    words and that prefix length. *)
Lemma parse_rendered_with_prefix : forall text w p,
  Rendered text w -> 0 <= p <= 128 ->
  trim (text +:+ "/" +:+ show p) = text +:+ "/" +:+ show p
  /\ IPv6Parser.parseIPv6String (text +:+ "/" +:+ show p)
     = IPv6Parser.valid (map Num w) p.
Proof.
  intros text w p [Hne Hc Hparse] Hp.
  destruct (show_prefix p Hp) as (Hs & Hd & Hv). split.
  - apply trim_id. now apply with_prefix_chars.
  - unfold IPv6Parser.parseIPv6String.
    rewrite prefixMatch_suffix;
      [|assumption | now apply rendered_no_terminator | assumption | assumption].
    rewrite Hv.
    replace ((p <? 0) || (128 <? p)) with false
      by (symmetry; apply orb_false_iff; split;
          [apply Z.ltb_ge | apply Z.ltb_ge]; lia).
    apply Hparse.
Qed.

Lemma radixDigit_nonneg : forall R c d, radixDigit R c = Some d -> 0 <= d.
Proof.
  intros R c d. unfold radixDigit, digitValue.
  assert (Hc : 0 <= code c) by (unfold code; lia).
  destruct ((48 <=? code c) && (code c <=? 57)) eqn:E1.
  - apply andb_true_iff in E1 as [E1 _]. apply Z.leb_le in E1.
    destruct (code c - 48 <? R); intros H; inversion H; lia.
  - destruct ((97 <=? code c) && (code c <=? 122)) eqn:E2.
    + apply andb_true_iff in E2 as [E2 _]. apply Z.leb_le in E2.
      destruct (code c - 87 <? R); intros H; inversion H; lia.
    + destruct ((65 <=? code c) && (code c <=? 90)) eqn:E3; [|discriminate].
      apply andb_true_iff in E3 as [E3 _]. apply Z.leb_le in E3.
      destruct (code c - 55 <? R); intros H; inversion H; lia.
Qed.

Lemma parseDigits_nonneg : forall R s acc v,
  0 <= R -> 0 <= soFar acc -> parseDigits R s acc = Some v -> 0 <= v.
Proof.
  intros R s. induction s as [|c s IH]; intros acc v HR Hacc;
    cbn [parseDigits].
  - intros ->. exact Hacc.
  - destruct (radixDigit R c) as [d|] eqn:Ed.
    + apply IH; [exact HR|]. apply radixDigit_nonneg in Ed.
      destruct acc as [a|]; cbn [soFar] in *; nia.
    + intros ->. exact Hacc.
Qed.

Lemma decimalValue_nonneg : forall s, 0 <= decimalValue s.
Proof.
  intros s. unfold decimalValue.
  destruct (parseDigits 10 s None) as [v|] eqn:E; [|lia].
  apply (parseDigits_nonneg 10 s None v); [lia | cbn; lia | exact E].
Qed.

(** ** Accepted inputs, again *)

Section Prefixes.
Context {host : Host}.

(** X1.  A rendering of eight words, compressed or expanded, followed by a
    slash and a prefix length from 0 to 128 parses to a valid record with
    these words and that prefix length. *)
Theorem rendered_with_prefix_roundtrip : forall (w : list Z) (p : Z),
  Spec.Word128 w -> 0 <= p <= 128 ->
  let hextets := map Num w in
  let short := IPv6Parser.toCompressed hextets +:+ "/" +:+ show p in
  let long := IPv6Parser.toExpanded hextets +:+ "/" +:+ show p in
  (IPv6Parser.parseIPv6String (trim short) = IPv6Parser.valid hextets p
   /\ IPv6Address.isValid (IPv6Parser.parse short) = true
   /\ IPv6Address.prefixLength (IPv6Parser.parse short) = p
   /\ IPv6Address.expanded (IPv6Parser.parse short)
      = IPv6Parser.toExpanded hextets)
  /\ (IPv6Parser.parseIPv6String (trim long) = IPv6Parser.valid hextets p
      /\ IPv6Address.isValid (IPv6Parser.parse long) = true
      /\ IPv6Address.prefixLength (IPv6Parser.parse long) = p
      /\ IPv6Address.expanded (IPv6Parser.parse long)
         = IPv6Parser.toExpanded hextets).
Proof.
  intros w p Hw Hp. cbv zeta.
  assert (Hboth : forall text, Rendered text w ->
    IPv6Parser.parseIPv6String (trim (text +:+ "/" +:+ show p))
    = IPv6Parser.valid (map Num w) p
    /\ IPv6Address.isValid (IPv6Parser.parse (text +:+ "/" +:+ show p)) = true
    /\ IPv6Address.prefixLength (IPv6Parser.parse (text +:+ "/" +:+ show p))
       = p
    /\ IPv6Address.expanded (IPv6Parser.parse (text +:+ "/" +:+ show p))
       = IPv6Parser.toExpanded (map Num w)).
  { intros text Ht.
    destruct (parse_rendered_with_prefix text w p Ht Hp) as [Htrim Hparse].
    rewrite <- Htrim in Hparse. split; [exact Hparse|].
    destruct (parse_accepts _ w p Hparse (proj1 Hw)) as (Hv & _ & He & _ & Hl).
    now repeat split. }
  split; apply Hboth.
  - now apply compressed_rendered.
  - now apply expanded_rendered.
Qed.

End Prefixes.

Lemma rendered_with_prefix_roundtrip_witness :
  IPv6Parser.parseIPv6String
    (trim (IPv6Parser.toCompressed (map Num [0x2001; 0xdb8; 0; 0; 0; 0; 0; 0])
           +:+ "/" +:+ show 32))
  = IPv6Parser.valid (map Num [0x2001; 0xdb8; 0; 0; 0; 0; 0; 0]) 32.
Proof.
  assert (Hw : Spec.Word128 [0x2001; 0xdb8; 0; 0; 0; 0; 0; 0])
    by (split; [reflexivity | repeat constructor; lia]).
  assert (Hp : 0 <= 32 <= 128) by lia.
  exact (proj1 (proj1 (rendered_with_prefix_roundtrip (host := sampleHost)
                         _ 32 Hw Hp))).
Defined.

(** X2.  Whatever stands before the last slash, a prefix length above 128
    makes the parser fail with 'Invalid prefix length': the prefix length is
    judged before the address. *)
Theorem prefix_above_128_rejected : forall address digits : string,
  address <> "" ->
  allChars (fun c => negb (isLineTerminator c)) address = true ->
  digits <> "" -> allChars isDigit digits = true ->
  128 < decimalValue digits ->
  IPv6Parser.parseIPv6String (address +:+ "/" +:+ digits)
  = IPv6Parser.invalid "Invalid prefix length".
Proof.
  intros address digits Ha Hlt Hd Hdigits Hbig.
  unfold IPv6Parser.parseIPv6String.
  rewrite prefixMatch_suffix by assumption.
  replace (128 <? decimalValue digits) with true
    by (symmetry; apply Z.ltb_lt; lia).
  now rewrite orb_true_r.
Qed.

Lemma prefix_above_128_rejected_witness :
  IPv6Parser.parseIPv6String ("2001:db8::" +:+ "/" +:+ "129")
  = IPv6Parser.invalid "Invalid prefix length".
Proof.
  apply prefix_above_128_rejected;
    [discriminate | reflexivity | discriminate | reflexivity | reflexivity].
Defined.

(** X3.  A body that splits on [::] into three pieces or more is always
    rejected: with 'Invalid prefix length' when a prefix length above 128
    follows it, with 'Multiple :: not allowed' otherwise. *)
Theorem multiple_markers_rejected : forall input : string,
  (2 < List.length (split (body input) "::"))%nat ->
  IPv6Parser.parseIPv6String input
  = IPv6Parser.invalid
      match IPv6Parser.prefixMatch input with
      | Some (_, digits) =>
          if 128 <? decimalValue digits then "Invalid prefix length"
          else "Multiple :: not allowed"
      | None => "Multiple :: not allowed"
      end.
Proof.
  intros input. unfold body, IPv6Parser.parseIPv6String.
  assert (Haddr : forall address p,
    (2 < List.length (split address "::"))%nat ->
    IPv6Parser.parseAddress address p
    = IPv6Parser.invalid "Multiple :: not allowed").
  { intros address p Hlen. unfold IPv6Parser.parseAddress.
    destruct (address =? "::")%string eqn:E.
    { apply String.eqb_eq in E. subst. simpl in Hlen. lia. }
    assert (Hgroups : IPv6Parser.parseGroups address p
                      = IPv6Parser.invalid "Multiple :: not allowed").
    { unfold IPv6Parser.parseGroups.
      now replace (2 <? List.length (split address "::"))%nat with true
        by (symmetry; apply Nat.ltb_lt; exact Hlen). }
    unfold IPv6Parser.ipv4MappedMatch.
    destruct (IPv6Parser.dropPrefix "::ffff:" address) as [quad|] eqn:Ed;
      [|exact Hgroups].
    destruct (IPv6Parser.dottedQuad quad) eqn:Eq; [|exact Hgroups].
    rewrite (mapped_single_marker _ _ Ed Eq) in Hlen. lia. }
  destruct (IPv6Parser.prefixMatch input) as [[address digits]|];
    intros Hlen.
  - destruct (128 <? decimalValue digits) eqn:E.
    + now rewrite orb_true_r.
    + replace (decimalValue digits <? 0) with false.
      * cbn [orb]. now apply Haddr.
      * symmetry. apply Z.ltb_ge. apply decimalValue_nonneg.
  - now apply Haddr.
Qed.

Lemma multiple_markers_rejected_witness :
  IPv6Parser.parseIPv6String "1::2::3/64"
  = IPv6Parser.invalid "Multiple :: not allowed".
Proof.
  assert (Hlen : (2 < List.length (split (body "1::2::3/64") "::"))%nat)
    by (vm_compute; lia).
  exact (multiple_markers_rejected "1::2::3/64" Hlen).
Defined.

Section Records.
Context {host : Host}.

(** When the parser accepts the trimmed input with finite words, every field
    of the record is derived from these words and the prefix length. *)
Lemma parse_derived : forall input ws p,
  IPv6Parser.parseIPv6String (trim input) = IPv6Parser.valid (map Num ws) p ->
  List.length ws = 8%nat ->
  Derived (IPv6Parser.parse input) (map Num ws) p.
Proof.
  intros input ws p Hp Hlen.
  unfold IPv6Parser.parse, IPv6Parser.parseTry. rewrite Hp.
  cbv beta iota zeta delta [IPv6Parser.valid ParsedIPv6.isValid
    ParsedIPv6.hextets ParsedIPv6.prefixLength negb].
  destruct (IPv6Parser.getAddressRange (map Num ws) p) as [first last] eqn:Er.
  destruct (toInteger_words ws) as [text Et]. rewrite Et.
  destruct (isEUI64_words ws Hlen) as [b Eb]. rewrite Eb.
  cbv beta iota zeta delta [bind].
  constructor;
    first [reflexivity | exact Et | exact Eb | now rewrite Er].
Qed.

(** The words of an accepted input that are finite numbers. *)
Lemma word128_parsed : forall input ws,
  word128 input = Some (map Num ws) ->
  exists p, IPv6Parser.parseIPv6String (trim input)
            = IPv6Parser.valid (map Num ws) p
            /\ List.length ws = 8%nat.
Proof.
  intros input ws. unfold word128.
  destruct (parseIPv6String_cases (trim input))
    as [(m & _ & E) | (h & p & Hlen & E)]; rewrite E; cbn.
  - discriminate.
  - intros H. inversion H; subst. exists p. split; [reflexivity|].
    now rewrite length_map in Hlen.
Qed.

End Records.

(** ** The renderings of the words *)

Lemma concat_empty_cons : forall x xs,
  String.concat "" (x :: xs) = x +:+ String.concat "" xs.
Proof.
  intros x [|y ys]; cbn [String.concat].
  - now rewrite append_empty_r.
  - reflexivity.
Qed.

Lemma hexDigit_char : forall d, 0 <= d < 16 ->
  exists c, Spec.hexDigit d = String c "" /\ radixDigit 16 c = Some d.
Proof.
  intros d Hd.
  assert (Hin : In d (upTo 16 0)) by (apply In_upTo; simpl; lia).
  vm_compute in Hin.
  repeat (destruct Hin as [<-|Hin]; [eexists; split; reflexivity|]).
  contradiction.
Qed.

Lemma nibbles_value : forall z, 0 <= z <= 0xffff ->
  ((z / 4096 mod 16 * 16 + z / 256 mod 16) * 16 + z / 16 mod 16) * 16
  + z mod 16 = z.
Proof.
  intros z Hz.
  pose proof (Z.div_mod z 16 ltac:(lia)).
  pose proof (Z.div_mod (z / 16) 16 ltac:(lia)).
  pose proof (Z.div_mod (z / 256) 16 ltac:(lia)).
  assert (H16 : z / 16 / 16 = z / 256)
    by (rewrite Z.div_div by lia; reflexivity).
  assert (H256 : z / 256 / 16 = z / 4096)
    by (rewrite Z.div_div by lia; reflexivity).
  assert (Htop : 0 <= z / 4096 < 16)
    by (split; [apply Z.div_pos; lia | apply Z.div_lt_upper_bound; lia]).
  rewrite (Z.mod_small (z / 4096) 16) by assumption.
  lia.
Qed.

(** The four characters of the padded rendering of a word are its four
    hexadecimal digits. *)
Lemma hex4_digits : forall z rest acc, 0 <= z <= 0xffff ->
  String.length (hex4 z) = 4%nat
  /\ parseDigits 16 (hex4 z +:+ rest) acc
     = parseDigits 16 rest (Some (soFar acc * 65536 + z)).
Proof.
  intros z rest acc Hz.
  rewrite <- (spec_hexWord4 _ (word_facts z Hz)).
  unfold Spec.hexWord4, Spec.nibbles. cbn [map].
  destruct (hexDigit_char (z / 4096 mod 16)) as (a & -> & Ea);
    [apply Z.mod_pos_bound; lia|].
  destruct (hexDigit_char (z / 256 mod 16)) as (b & -> & Eb);
    [apply Z.mod_pos_bound; lia|].
  destruct (hexDigit_char (z / 16 mod 16)) as (c & -> & Ec);
    [apply Z.mod_pos_bound; lia|].
  destruct (hexDigit_char (z mod 16)) as (d & -> & Ed);
    [apply Z.mod_pos_bound; lia|].
  split; [reflexivity|].
  cbn [String.concat append parseDigits]. rewrite Ea, Eb, Ec, Ed.
  do 2 f_equal. pose proof (nibbles_value z Hz).
  destruct acc as [v|]; cbn [soFar]; lia.
Qed.

Lemma parseDigits_hex : forall ws acc,
  Forall (fun z => 0 <= z <= 0xffff) ws ->
  (ws <> [] \/ acc <> None) ->
  String.length (join (map hex4 ws) "") = (4 * List.length ws)%nat
  /\ parseDigits 16 (join (map hex4 ws) "") acc
     = Some (fold_left (fun a h => a * 65536 + h) ws (soFar acc)).
Proof.
  unfold join. induction ws as [|z ws IH]; intros acc Hws Hne.
  - destruct Hne as [Hne|Hne]; [contradiction|].
    destruct acc; [split; reflexivity | contradiction].
  - inversion Hws as [|? ? Hz Hrest]; subst.
    cbn [map fold_left]. rewrite concat_empty_cons, length_append.
    destruct (hex4_digits z (String.concat "" (map hex4 ws)) acc Hz)
      as [Hl Hp].
    rewrite Hl, Hp.
    destruct (IH (Some (soFar acc * 65536 + z)) Hrest) as [Hl' Hp'].
    + right. discriminate.
    + rewrite Hl'. split; [cbn [List.length]; lia | exact Hp'].
Qed.

Lemma toValue_bounds : forall ws acc,
  Forall (fun z => 0 <= z <= 0xffff) ws -> 0 <= acc ->
  0 <= fold_left (fun a h => a * 65536 + h) ws acc
  < (acc + 1) * 65536 ^ Z.of_nat (List.length ws).
Proof.
  induction ws as [|z ws IH]; intros acc Hws Hacc.
  - cbn. lia.
  - inversion Hws as [|? ? Hz Hrest]; subst. cbn [fold_left List.length].
    rewrite Nat2Z.inj_succ, Z.pow_succ_r by lia.
    specialize (IH (acc * 65536 + z) Hrest ltac:(lia)).
    split; [lia|].
    eapply Z.lt_le_trans; [apply IH|].
    assert (0 < 65536 ^ Z.of_nat (List.length ws))
      by (apply Z.pow_pos_nonneg; lia).
    nia.
Qed.

(** X4.  The hexadecimal rendering of eight words is [0x] followed by
    exactly 32 lowercase hex digits, which read as the 128-bit value of the
    words. *)
Theorem hex_rendering_value : forall w : list Z,
  Spec.Word128 w ->
  exists digits,
    IPv6Parser.toHex (map Num w) = "0x" +:+ digits
    /\ String.length digits = 32%nat
    /\ allChars isHexLower digits = true
    /\ parseDigits 16 digits None = Some (Spec.toValue w)
    /\ 0 <= Spec.toValue w < 2 ^ 128.
Proof.
  intros w [Hlen Hws]. exists (join (map hex4 w) "").
  destruct (parseDigits_hex w None Hws) as [Hl Hp];
    [left; intros ->; discriminate Hlen |].
  repeat split.
  - unfold IPv6Parser.toHex. now rewrite map_map.
  - rewrite Hl, Hlen. reflexivity.
  - apply allChars_join; [reflexivity|].
    apply Forall_map. eapply Forall_impl; [|exact Hws].
    intros z Hz. now apply hex4_chars_all.
  - exact Hp.
  - apply (toValue_bounds w 0 Hws). lia.
  - pose proof (toValue_bounds w 0 Hws ltac:(lia)) as H.
    rewrite Hlen in H. unfold Spec.toValue.
    change (2 ^ 128) with ((0 + 1) * 65536 ^ Z.of_nat 8). apply H.
Qed.

Lemma hex_rendering_value_witness :
  exists digits,
    IPv6Parser.toHex (map Num [0x2001; 0xdb8; 0; 0; 0; 0; 0; 1])
    = "0x" +:+ digits
    /\ String.length digits = 32%nat.
Proof.
  assert (Hw : Spec.Word128 [0x2001; 0xdb8; 0; 0; 0; 0; 0; 1])
    by (split; [reflexivity | repeat constructor; lia]).
  destruct (hex_rendering_value _ Hw) as (digits & H1 & H2 & _).
  exists digits. split; assumption.
Defined.

Section Integers.
Context {host : Host}.

Lemma toIntegerLoop_value : forall ws acc,
  Forall (fun z => 0 <= z <= 0xffff) ws ->
  IPv6Parser.toIntegerLoop (map Num ws) acc
  = Normal (fold_left (fun a h => a * 65536 + h) ws acc).
Proof.
  induction ws as [|z ws IH]; intros acc Hws; [reflexivity|].
  inversion Hws as [|? ? Hz Hrest]; subst.
  cbn [map IPv6Parser.toIntegerLoop BigInt bind fold_left].
  rewrite IH by assumption. do 2 f_equal.
  rewrite <- Z.lxor_lor, <- Z.add_nocarry_lxor
    by (apply land_shiftl_small; [lia | change (2 ^ 16) with 65536; lia]).
  rewrite Z.shiftl_mul_pow2 by lia. reflexivity.
Qed.

End Integers.

Lemma digitChar_decimal : forall d, 0 <= d < 10 ->
  isDigit (digitChar d) = true.
Proof.
  intros d Hd.
  assert (H : d = 0 \/ d = 1 \/ d = 2 \/ d = 3 \/ d = 4 \/ d = 5 \/ d = 6
              \/ d = 7 \/ d = 8 \/ d = 9) by lia.
  repeat (destruct H as [->|H]; [reflexivity|]). now subst.
Qed.

Lemma digitsOf_decimal : forall fuel z rest,
  allChars isDigit rest = true ->
  allChars isDigit (digitsOf fuel 10 z rest) = true.
Proof.
  induction fuel as [|fuel IH]; intros z rest Hrest; [exact Hrest|].
  cbn [digitsOf]. destruct (z <=? 0); [exact Hrest|].
  apply IH. cbn [allChars]. rewrite Hrest, digitChar_decimal; [reflexivity|].
  apply Z.mod_pos_bound. lia.
Qed.

Lemma numeral_decimal : forall z,
  numeral 10 z <> "" /\ allChars isDigit (numeral 10 z) = true.
Proof.
  intros z. unfold numeral. destruct (z <=? 0) eqn:E.
  - split; [discriminate | reflexivity].
  - split; [|now apply digitsOf_decimal].
    apply Z.leb_gt in E. intros H.
    assert (Hp : parseDigits 10
                   (digitsOf (S (Z.to_nat (Z.log2 z))) 10 z "") None = Some z).
    { pose proof (numeral_complete 10 z ltac:(lia) ltac:(lia)) as Hn.
      unfold numeral in Hn.
      now replace (z <=? 0) with false in Hn
        by (symmetry; apply Z.leb_gt; lia). }
    rewrite H in Hp. discriminate Hp.
Qed.

(** X5.  The integer rendering of eight words is the decimal numeral of
    their 128-bit value, in full: it is made of digits only and reads back
    as that value. *)
Theorem integer_rendering_value : forall (host : Host) (w : list Z),
  Spec.Word128 w ->
  exists text,
    IPv6Parser.toInteger (map Num w) = Normal text
    /\ text <> "" /\ allChars isDigit text = true
    /\ parseDigits 10 text None = Some (Spec.toValue w).
Proof.
  intros host w [Hlen Hws]. exists (numeral 10 (Spec.toValue w)).
  pose proof (toValue_bounds w 0 Hws ltac:(lia)) as Hv.
  fold (Spec.toValue w) in Hv.
  destruct (numeral_decimal (Spec.toValue w)) as [Hne Hd].
  repeat split; try assumption.
  - unfold IPv6Parser.toInteger. rewrite toIntegerLoop_value by assumption.
    cbn [bind]. unfold bigIntToString, signedNumeral.
    fold (Spec.toValue w).
    now replace (Spec.toValue w <? 0) with false
      by (symmetry; apply Z.ltb_ge; lia).
  - apply numeral_complete; lia.
Qed.

Lemma integer_rendering_value_witness :
  exists text,
    IPv6Parser.toInteger (host := sampleHost)
      (map Num [0; 0; 0; 0; 0; 0; 1; 0]) = Normal text
    /\ parseDigits 10 text None = Some 65536.
Proof.
  assert (Hw : Spec.Word128 [0; 0; 0; 0; 0; 0; 1; 0])
    by (split; [reflexivity | repeat constructor; lia]).
  destruct (integer_rendering_value sampleHost _ Hw) as (text & H1 & _ & _ & H2).
  exists text. split; assumption.
Defined.

(** *** The binary rendering *)

Lemma split_go_char : forall c cur rest,
  split_go (String c "") 0 cur (String c rest)
  = cur :: split_go (String c "") 0 "" rest.
Proof.
  intros c cur rest; cbn [split_go prefix].
  destruct (ascii_dec c c) as [_|N]; [|contradiction].
  now destruct rest.
Qed.

Lemma split_go_join_char : forall c ws w cur,
  Forall (fun s => allChars (isNot c) s = true) (w :: ws) ->
  split_go (String c "") 0 cur (join (w :: ws) (String c ""))
  = (cur +:+ w) :: ws.
Proof.
  intros c. induction ws as [|w2 ws IH]; intros w cur H.
  - unfold join; simpl. inversion H; subst.
    rewrite <- (append_empty_r w) at 1.
    now rewrite split_go_skip.
  - inversion H as [|? ? Hw Hws]; subst.
    change (join (w :: w2 :: ws) (String c ""))
      with (w +:+ String c (join (w2 :: ws) (String c ""))).
    rewrite split_go_skip by assumption.
    rewrite split_go_char, IH by assumption.
    reflexivity.
Qed.

Lemma length_replicate : forall n c, String.length (replicate n c) = n.
Proof. induction n as [|n IH]; intros c; cbn; [reflexivity | now rewrite IH]. Qed.

Lemma allChars_replicate : forall (p : ascii -> bool) n c,
  p c = true -> allChars p (replicate n c) = true.
Proof.
  intros p n c Hc. induction n as [|n IH]; cbn; [reflexivity|].
  now rewrite Hc, IH.
Qed.

Lemma digitsOf_length : forall fuel R z rest,
  (String.length (digitsOf fuel R z rest) <= fuel + String.length rest)%nat.
Proof.
  induction fuel as [|fuel IH]; intros R z rest; cbn [digitsOf]; [lia|].
  destruct (z <=? 0); [lia|].
  specialize (IH R (z / R) (String (digitChar (z mod R)) rest)).
  cbn [String.length] in IH. lia.
Qed.

Lemma digitsOf_bits : forall fuel z rest,
  allChars isBit rest = true ->
  allChars isBit (digitsOf fuel 2 z rest) = true.
Proof.
  induction fuel as [|fuel IH]; intros z rest Hrest; [exact Hrest|].
  cbn [digitsOf]. destruct (z <=? 0); [exact Hrest|].
  apply IH. cbn [allChars]. rewrite Hrest, andb_true_r.
  pose proof (Z.mod_pos_bound z 2 ltac:(lia)) as Hm.
  assert (H : z mod 2 = 0 \/ z mod 2 = 1) by lia.
  destruct H as [-> | ->]; reflexivity.
Qed.

(** Leading zeros do not change what [parseDigits] reads. *)
Lemma parseDigits_zeros : forall R n s, 1 < R ->
  s <> "" -> (forall c s', s = String c s' -> radixDigit R c <> None) ->
  parseDigits R (replicate n "0" +:+ s) None = parseDigits R s None.
Proof.
  intros R n s HR Hne Hfirst.
  assert (Hzero : radixDigit R "0" = Some 0).
  { unfold radixDigit. cbn.
    now replace (0 <? R) with true by (symmetry; apply Z.ltb_lt; lia). }
  assert (Hsome : parseDigits R s (Some 0) = parseDigits R s None).
  { destruct s as [|c s']; [contradiction|]. cbn [parseDigits].
    destruct (radixDigit R c) as [d|] eqn:Ed;
      [reflexivity | now elim (Hfirst c s' eq_refl)]. }
  destruct n as [|n]; [reflexivity|].
  cbn [replicate append parseDigits]. rewrite Hzero.
  induction n as [|n IH]; cbn [replicate append parseDigits].
  - exact Hsome.
  - rewrite Hzero. exact IH.
Qed.

Lemma roundToDouble_word : forall z, 0 <= z <= 0xffff ->
  roundToDouble z = Num z.
Proof.
  intros z Hz. unfold roundToDouble. cbv zeta.
  rewrite Z.abs_eq by lia.
  assert (Hlog : Z.log2 z < 16).
  { destruct (Z.eq_dec z 0) as [->|Hne]; [reflexivity|].
    apply Z.log2_lt_pow2; [lia|]. change (2 ^ 16) with 65536. lia. }
  now replace (Z.log2 z + 1 <=? 53) with true
    by (symmetry; apply Z.leb_le; lia).
Qed.

Lemma bits_facts : forall z, 0 <= z <= 0xffff ->
  let b := padStart (toString (Num z) 2) 16 "0" in
  String.length b = 16%nat /\ allChars isBit b = true
  /\ parseInt b 2 = Num z.
Proof.
  intros z Hz. cbv zeta.
  unfold padStart, toString, signedNumeral.
  replace (z <? 0) with false by (symmetry; apply Z.ltb_ge; lia).
  set (s := numeral 2 z).
  assert (Hlen : (1 <= String.length s <= 16)%nat
                 /\ allChars isBit s = true).
  { unfold s, numeral. destruct (z <=? 0) eqn:E.
    - cbn. split; [lia | reflexivity].
    - apply Z.leb_gt in E.
      assert (Hlog : 0 <= Z.log2 z < 16).
      { split; [apply Z.log2_nonneg|].
        apply Z.log2_lt_pow2; [lia|]. change (2 ^ 16) with 65536. lia. }
      pose proof (digitsOf_length (S (Z.to_nat (Z.log2 z))) 2 z "") as Hl.
      cbn [String.length] in Hl.
      assert (Hp : parseDigits 2
                     (digitsOf (S (Z.to_nat (Z.log2 z))) 2 z "") None
                   = Some z).
      { pose proof (numeral_complete 2 z ltac:(lia) ltac:(lia)) as Hn.
        unfold numeral in Hn.
        now replace (z <=? 0) with false in Hn
          by (symmetry; apply Z.leb_gt; lia). }
      split; [|now apply digitsOf_bits].
      split; [|lia].
      destruct (digitsOf (S (Z.to_nat (Z.log2 z))) 2 z "");
        [discriminate Hp | cbn; lia]. }
  destruct Hlen as [Hlen Hbits].
  assert (Hparse : parseDigits 2 s None = Some z)
    by (apply numeral_complete; lia).
  assert (Hb : allChars isBit (replicate (16 - String.length s) "0" +:+ s)
               = true)
    by (rewrite allChars_append, Hbits, allChars_replicate; reflexivity).
  repeat split.
  - rewrite length_append, length_replicate. lia.
  - exact Hb.
  - unfold parseInt.
    assert (Hhead : exists c rest,
      replicate (16 - String.length s) "0" +:+ s = String c rest
      /\ isBit c = true).
    { destruct (replicate (16 - String.length s) "0" +:+ s) as [|c rest] eqn:E.
      - destruct s; [cbn in Hlen; lia|].
        destruct (16 - String.length (String a s))%nat; discriminate E.
      - exists c, rest. split; [reflexivity|].
        cbn [allChars] in Hb. now apply andb_true_iff in Hb as [Hc _]. }
    destruct Hhead as (c & rest & Ehead & Hc).
    assert (Hplain : stripSign
                       (trimStart (replicate (16 - String.length s) "0" +:+ s))
                     = (false, replicate (16 - String.length s) "0" +:+ s)).
    { rewrite Ehead. unfold isBit in Hc. apply orb_true_iff in Hc.
      destruct Hc as [Hc|Hc]; apply Ascii.eqb_eq in Hc; subst c; reflexivity. }
    rewrite Hplain. change (2 =? 16) with false. cbv iota.
    rewrite parseDigits_zeros.
    + rewrite Hparse. now apply roundToDouble_word.
    + lia.
    + destruct s; [cbn in Hlen; lia | discriminate].
    + intros c0 s' Es. rewrite Es in Hbits. cbn [allChars] in Hbits.
      apply andb_true_iff in Hbits as [Hc0 _].
      unfold isBit in Hc0. apply orb_true_iff in Hc0.
      destruct Hc0 as [Hc0|Hc0]; apply Ascii.eqb_eq in Hc0; subst c0;
        discriminate.
Qed.

(** X6.  The binary rendering of a non-empty list of words splits on the
    space into one group per word; each group is exactly 16 binary digits
    and reads back as its word. *)
Theorem binary_rendering_roundtrip : forall w : list Z,
  w <> [] -> Forall (fun z => 0 <= z <= 0xffff) w ->
  let groups := split (IPv6Parser.toBinary (map Num w)) " " in
  map (fun s => parseInt s 2) groups = map Num w
  /\ Forall (fun s => String.length s = 16%nat /\ allChars isBit s = true)
       groups.
Proof.
  intros w Hne Hws. cbv zeta. unfold IPv6Parser.toBinary.
  rewrite map_map. cbv beta.
  set (bin := fun z => padStart (toString (Num z) 2) 16 "0").
  assert (Hsplit : split (join (map bin w) " ") " " = map bin w).
  { destruct w as [|z ws]; [contradiction|]. unfold split.
    cbn [map]. rewrite split_go_join_char; [reflexivity|].
    change (bin z :: map bin ws) with (map bin (z :: ws)).
    apply Forall_map. eapply Forall_impl; [|exact Hws].
    intros x Hx. destruct (bits_facts x Hx) as (_ & Hb & _).
    eapply allChars_impl; [|exact Hb].
    intros [[] [] [] [] [] [] [] []]; vm_compute; intros E;
      try discriminate E; reflexivity. }
  rewrite Hsplit. split.
  - rewrite map_map. apply map_ext_Forall.
    eapply Forall_impl; [|exact Hws].
    intros x Hx. apply (bits_facts x Hx).
  - apply Forall_map. eapply Forall_impl; [|exact Hws].
    intros x Hx. destruct (bits_facts x Hx) as (Hl & Hb & _). now split.
Qed.

Lemma binary_rendering_roundtrip_witness :
  map (fun s => parseInt s 2)
      (split (IPv6Parser.toBinary (map Num [0x2001; 0xdb8])) " ")
  = map Num [0x2001; 0xdb8].
Proof.
  assert (Hne : [0x2001; 0xdb8] <> []) by discriminate.
  assert (Hws : Forall (fun z => 0 <= z <= 0xffff) [0x2001; 0xdb8])
    by (repeat constructor; lia).
  exact (proj1 (binary_rendering_roundtrip _ Hne Hws)).
Defined.

(** *** The reverse DNS name *)

Lemma removeAll_append : forall c s t,
  removeAll c (s +:+ t) = removeAll c s +:+ removeAll c t.
Proof.
  intros c. induction s as [|x s IH]; intros t; cbn [append removeAll].
  - reflexivity.
  - rewrite IH. now destruct (x =? c)%char.
Qed.

Lemma removeAll_lacking : forall c s,
  allChars (isNot c) s = true -> removeAll c s = s.
Proof.
  intros c. induction s as [|x s IH]; cbn [allChars removeAll]; intros H.
  - reflexivity.
  - apply andb_true_iff in H as [Hx Hs]. unfold isNot in Hx.
    apply negb_true_iff in Hx. now rewrite Hx, IH.
Qed.

Lemma removeAll_join : forall c l,
  Forall (fun s => allChars (isNot c) s = true) l ->
  removeAll c (join l (String c "")) = join l "".
Proof.
  intros c. unfold join. induction 1 as [|s l Hs Hl IH]; [reflexivity|].
  rewrite concat_empty_cons. destruct l as [|s' l'].
  - cbn [String.concat]. rewrite append_empty_r.
    now apply removeAll_lacking.
  - change (String.concat (String c "") (s :: s' :: l'))
      with (s +:+ String c (String.concat (String c "") (s' :: l'))).
    rewrite removeAll_append, removeAll_lacking by assumption.
    cbn [removeAll]. rewrite Ascii.eqb_refl. now rewrite IH.
Qed.

Lemma chars_length : forall s, List.length (chars s) = String.length s.
Proof. induction s as [|c s IH]; cbn; [reflexivity | now rewrite IH]. Qed.

(** X7.  The reverse DNS name of eight words is made of the 32 hex digits
    of the hexadecimal rendering, last digit first, one label each, followed
    by [.ip6.arpa]. *)
Theorem reverse_dns_nibbles : forall w : list Z,
  Spec.Word128 w ->
  exists digits,
    IPv6Parser.toHex (map Num w) = "0x" +:+ digits
    /\ List.length (chars digits) = 32%nat
    /\ IPv6Parser.toReverseDNS (map Num w)
       = join (rev (chars digits)) "." +:+ ".ip6.arpa".
Proof.
  intros w [Hlen Hws]. exists (join (map hex4 w) "").
  destruct (parseDigits_hex w None Hws) as [Hl _];
    [left; intros ->; discriminate Hlen |].
  repeat split.
  - unfold IPv6Parser.toHex. now rewrite map_map.
  - rewrite chars_length, Hl, Hlen. reflexivity.
  - unfold IPv6Parser.toReverseDNS. rewrite toExpanded_words.
    rewrite (removeAll_join ":") by now apply hex4_lacks_colon.
    reflexivity.
Qed.

Lemma reverse_dns_nibbles_witness :
  exists digits,
    IPv6Parser.toHex (map Num [0x2001; 0xdb8; 0; 0; 0; 0; 0; 1])
    = "0x" +:+ digits
    /\ IPv6Parser.toReverseDNS (map Num [0x2001; 0xdb8; 0; 0; 0; 0; 0; 1])
       = join (rev (chars digits)) "." +:+ ".ip6.arpa".
Proof.
  assert (Hw : Spec.Word128 [0x2001; 0xdb8; 0; 0; 0; 0; 0; 1])
    by (split; [reflexivity | repeat constructor; lia]).
  destruct (reverse_dns_nibbles _ Hw) as (digits & H1 & _ & H2).
  exists digits. split; assumption.
Defined.

(** *** Base64 *)

Lemma word_bytes : forall z, 0 <= z <= 0xffff ->
  band (sar (ToInt32 (Num z)) 8) 0xff = z / 256
  /\ band (ToInt32 (Num z)) 0xff = z mod 256.
Proof.
  intros z Hz. unfold band, sar, ToInt32.
  assert (Hd : 0 <= z / 256 <= 255)
    by (split; [apply Z.div_pos; lia
               | apply Z.lt_succ_r, Z.div_lt_upper_bound; lia]).
  change (8 mod 32) with 8.
  rewrite !(wrap32_small z) by (change (2 ^ 31) with 2147483648; lia).
  rewrite (wrap32_small 255) by (change (2 ^ 31) with 2147483648; lia).
  rewrite Z.shiftr_div_pow2 by lia. change (2 ^ 8) with 256.
  rewrite (wrap32_small (z / 256)) by (change (2 ^ 31) with 2147483648; lia).
  change 255 with (Z.ones 8). rewrite !Z.land_ones by lia.
  change (2 ^ 8) with 256. split; [|reflexivity].
  apply Z.mod_small. lia.
Qed.

(** X8.  The Base64 rendering of eight words encodes their 16 bytes, the
    high byte of each word first; it is 24 characters long and ends with
    [==]. *)
Theorem base64_of_bytes : forall w : list Z,
  Spec.Word128 w ->
  IPv6Parser.toBase64 (map Num w)
  = btoa (flat_map (fun z => [z / 256; z mod 256]) w)
  /\ String.length (IPv6Parser.toBase64 (map Num w)) = 24%nat
  /\ substring 22 2 (IPv6Parser.toBase64 (map Num w)) = "==".
Proof.
  intros w [Hlen Hws].
  assert (Hbytes : IPv6Parser.toBase64 (map Num w)
                   = btoa (flat_map (fun z => [z / 256; z mod 256]) w)).
  { unfold IPv6Parser.toBase64. f_equal.
    clear Hlen. induction Hws as [|z ws Hz Hws IH]; [reflexivity|].
    cbn [map flat_map]. rewrite IH.
    destruct (word_bytes z Hz) as [-> ->]. reflexivity. }
  split; [exact Hbytes|]. rewrite Hbytes.
  destruct w as [|w0 [|w1 [|w2 [|w3 [|w4 [|w5 [|w6 [|w7 [|? ?]]]]]]]]];
    try discriminate Hlen.
  split; reflexivity.
Qed.

Lemma base64_of_bytes_witness :
  IPv6Parser.toBase64 (map Num [0x2001; 0xdb8; 0; 0; 0; 0; 0; 1])
  = btoa (flat_map (fun z => [z / 256; z mod 256])
            [0x2001; 0xdb8; 0; 0; 0; 0; 0; 1]).
Proof.
  assert (Hw : Spec.Word128 [0x2001; 0xdb8; 0; 0; 0; 0; 0; 1])
    by (split; [reflexivity | repeat constructor; lia]).
  exact (proj1 (base64_of_bytes _ Hw)).
Defined.

(** ** What the parser guarantees *)

(** X9.  Of every input it accepts, the parser returns exactly eight words,
    each a number that is at most [0xffff], and the body of the input splits
    on [::] into at most two pieces. *)
Theorem accepted_words_shape : forall input : string,
  ParsedIPv6.isValid (IPv6Parser.parseIPv6String input) = true ->
  let hextets := ParsedIPv6.hextets (IPv6Parser.parseIPv6String input) in
  List.length hextets = 8%nat
  /\ Forall bounded hextets
  /\ (List.length (split (body input) "::") <= 2)%nat.
Proof.
  intros input H. cbv zeta. repeat split.
  - now apply accepted_has_eight_words.
  - now apply accepted_words_bounded.
  - now apply accepted_single_marker.
Qed.

Lemma accepted_words_shape_witness :
  List.length
    (ParsedIPv6.hextets (IPv6Parser.parseIPv6String "2001:db8::1/64"))
  = 8%nat.
Proof.
  assert (H : ParsedIPv6.isValid
                (IPv6Parser.parseIPv6String "2001:db8::1/64") = true)
    by reflexivity.
  exact (proj1 (accepted_words_shape "2001:db8::1/64" H)).
Defined.

Lemma mapped_shorthand_chars : forall a b c d,
  0 <= a <= 255 -> 0 <= b <= 255 -> 0 <= c <= 255 -> 0 <= d <= 255 ->
  allChars (fun x => negb (isWhiteSpace x)) (Spec.mappedShorthand a b c d)
  = true.
Proof.
  intros a b c d Ha Hb Hc Hd. unfold Spec.mappedShorthand.
  assert (Hshow : forall x, 0 <= x <= 255 ->
    allChars (fun y => negb (isWhiteSpace y)) (show x) = true).
  { intros x Hx. destruct (octet_facts x Hx) as (_ & Hdig & _).
    eapply allChars_impl; [|exact Hdig].
    intros [[] [] [] [] [] [] [] []]; vm_compute; intros E;
      try discriminate E; reflexivity. }
  rewrite !allChars_append, !Hshow by assumption. reflexivity.
Qed.

(** X10.  The shorthand [::ffff:a.b.c.d] with the four octets in [0, 255]
    yields a valid record of the mapped address: its words are five zeros,
    [0xffff], [a * 256 + b] and [c * 256 + d], its prefix length is 128, its
    type is IPv4Mapped and the flag of mapped addresses is set. *)
Theorem mapped_shorthand_record : forall (host : Host) (a b c d : Z),
  0 <= a <= 255 -> 0 <= b <= 255 -> 0 <= c <= 255 -> 0 <= d <= 255 ->
  let record := IPv6Parser.parse (Spec.mappedShorthand a b c d) in
  let hextets := map Num [0; 0; 0; 0; 0; 0xffff; a * 256 + b; c * 256 + d] in
  IPv6Address.isValid record = true
  /\ word128 (Spec.mappedShorthand a b c d) = Some hextets
  /\ IPv6Address.expanded record = IPv6Parser.toExpanded hextets
  /\ IPv6Address.prefixLength record = 128
  /\ IPv6Address.addressType record = AddressType.IPv4Mapped
  /\ IPv6Address.isIPv4Mapped record = true.
Proof.
  intros host a b c d Ha Hb Hc Hd. cbv zeta.
  pose proof (mapped_in_range_accepted a b c d Ha Hb Hc Hd) as Hp.
  pose proof (trim_id _ (mapped_shorthand_chars a b c d Ha Hb Hc Hd)) as Ht.
  rewrite <- Ht in Hp.
  destruct (parse_derived _ _ _ Hp eq_refl).
  repeat split; try assumption.
  unfold word128. now rewrite Hp.
Qed.

Lemma mapped_shorthand_record_witness :
  IPv6Address.isValid
    (IPv6Parser.parse (host := sampleHost) (Spec.mappedShorthand 192 168 1 1))
  = true.
Proof.
  assert (Ha : 0 <= 192 <= 255) by lia.
  assert (Hb : 0 <= 168 <= 255) by lia.
  assert (Hc : 0 <= 1 <= 255) by lia.
  exact (proj1 (mapped_shorthand_record sampleHost 192 168 1 1 Ha Hb Hc Hc)).
Defined.

(** ** Reading the renderings back *)

Lemma parseHextets_expanded : forall w,
  w <> [] -> Forall (fun z => 0 <= z <= 0xffff) w ->
  IPv6Subnetting.parseHextets (join (map hex4 w) ":") = map Num w.
Proof.
  intros w Hne Hws. unfold IPv6Subnetting.parseHextets.
  rewrite split_join_colon;
    [| destruct w; [contradiction | discriminate]
     | now apply hex4_lacks_colon].
  rewrite map_map. apply map_ext_Forall.
  eapply Forall_impl; [|exact Hws].
  intros z Hz. apply (hex4_parse _ (word_facts _ Hz)).
Qed.

Lemma hextetsToAddress_words : forall w,
  IPv6Subnetting.hextetsToAddress (map Num w) = join (map hex4 w) ":".
Proof. intros w. unfold IPv6Subnetting.hextetsToAddress. now rewrite map_map. Qed.

(** X11.  The planner reads back what it writes, and what the codec writes
    in expanded notation: splitting the rendering of a non-empty list of
    words on the colon and reading each group gives the words again. *)
Theorem planner_reads_expanded : forall w : list Z,
  w <> [] -> Forall (fun z => 0 <= z <= 0xffff) w ->
  IPv6Subnetting.parseHextets (IPv6Subnetting.hextetsToAddress (map Num w))
  = map Num w
  /\ IPv6Subnetting.parseHextets (IPv6Parser.toExpanded (map Num w))
     = map Num w.
Proof.
  intros w Hne Hws. rewrite hextetsToAddress_words, toExpanded_words.
  split; now apply parseHextets_expanded.
Qed.

Lemma planner_reads_expanded_witness :
  IPv6Subnetting.parseHextets
    (IPv6Subnetting.hextetsToAddress (map Num [0x2001; 0xdb8; 0; 1]))
  = map Num [0x2001; 0xdb8; 0; 1].
Proof.
  assert (Hne : [0x2001; 0xdb8; 0; 1] <> []) by discriminate.
  assert (Hws : Forall (fun z => 0 <= z <= 0xffff) [0x2001; 0xdb8; 0; 1])
    by (repeat constructor; lia).
  exact (proj1 (planner_reads_expanded _ Hne Hws)).
Defined.

(** X12.  Parsing is stable on its own renderings: when an input is accepted
    with words in [0, 0xffff], parsing the compressed or the expanded field
    of its record gives a valid record with the same two renderings. *)
Theorem renderings_stable : forall (host : Host) (input : string) (w : list Z),
  word128 input = Some (map Num w) ->
  Forall (fun z => 0 <= z <= 0xffff) w ->
  let record := IPv6Parser.parse input in
  forall text,
    text = IPv6Address.compressed record
    \/ text = IPv6Address.expanded record ->
    IPv6Address.isValid (IPv6Parser.parse text) = true
    /\ IPv6Address.compressed (IPv6Parser.parse text)
       = IPv6Address.compressed record
    /\ IPv6Address.expanded (IPv6Parser.parse text)
       = IPv6Address.expanded record.
Proof.
  intros host input w Hin Hws. cbv zeta. intros text Htext.
  destruct (word128_parsed input w Hin) as (p & Hp & Hlen).
  assert (Hw : Spec.Word128 w) by now split.
  destruct (parse_accepts input w p Hp Hlen) as (_ & _ & He & Hc & _).
  rewrite He, Hc.
  assert (Hparsed : IPv6Parser.parseIPv6String (trim text)
                    = IPv6Parser.valid (map Num w) 128).
  { destruct Htext as [-> | ->]; [rewrite Hc | rewrite He].
    - destruct (parse_compressed_text w Hw) as [-> H]. exact H.
    - destruct (parse_expanded_text w Hw) as [-> H]. exact H. }
  destruct (parse_accepts text w 128 Hparsed Hlen) as (Hv & _ & He' & Hc' & _).
  now repeat split.
Qed.

Lemma renderings_stable_witness :
  IPv6Address.isValid
    (IPv6Parser.parse (host := sampleHost)
       (IPv6Address.compressed
          (IPv6Parser.parse (host := sampleHost) "2001:0DB8:0:0:0:0:0:1/64")))
  = true.
Proof.
  assert (Hin : word128 "2001:0DB8:0:0:0:0:0:1/64"
                = Some (map Num [0x2001; 0xdb8; 0; 0; 0; 0; 0; 1]))
    by reflexivity.
  assert (Hws : Forall (fun z => 0 <= z <= 0xffff)
                  [0x2001; 0xdb8; 0; 0; 0; 0; 0; 1])
    by (repeat constructor; lia).
  exact (proj1 (renderings_stable sampleHost _ _ Hin Hws _ (or_introl eq_refl))).
Defined.

(** ** Classification, again *)

Lemma masks_checked : forallb maskCheck allWords = true.
Proof. vm_cast_no_check (eq_refl true). Qed.

Lemma band_word : forall z m, 0 <= z <= 0xffff -> 0 <= m <= 0xffff ->
  band (ToInt32 (Num z)) m = Z.land z m.
Proof.
  intros z m Hz Hm. unfold band, ToInt32.
  now rewrite !wrap32_small by
    (rewrite ?wrap32_small; change (2 ^ 31) with 2147483648; lia).
Qed.

Lemma mask_facts : forall z, 0 <= z <= 0xffff ->
  (Z.land z 0xfe00 =? 0xfc00) = ((0xfc00 <=? z) && (z <=? 0xfdff))
  /\ (Z.land z 0xff00 =? 0xff00) = (0xff00 <=? z)
  /\ (Z.land z 0xfff8 =? 0x0db8) = ((0x0db8 <=? z) && (z <=? 0x0dbf))
  /\ (Z.land z 0xe000 =? 0x2000) = ((0x2000 <=? z) && (z <=? 0x3fff))
  /\ Z.land z 0x000f = z mod 16.
Proof.
  intros z Hz.
  assert (Hin : In z allWords) by (apply In_upTo; rewrite Z2Nat.id; lia).
  pose proof (proj1 (forallb_forall _ _) masks_checked _ Hin) as Hck.
  unfold maskCheck in Hck.
  repeat (apply andb_true_iff in Hck; destruct Hck as [Hck ?]).
  repeat split; try (now apply Bool.eqb_prop). now apply Z.eqb_eq.
Qed.

(** The classifier on eight words, with its masks written as ranges. *)
Lemma getAddressType_words : forall w0 w1 w2 w3 w4 w5 w6 w7,
  Forall (fun z => 0 <= z <= 0xffff) [w0; w1; w2; w3; w4; w5; w6; w7] ->
  IPv6Parser.getAddressType (map Num [w0; w1; w2; w3; w4; w5; w6; w7])
  = if (w0 =? 0) && ((w1 =? 0) && ((w2 =? 0) && ((w3 =? 0) && ((w4 =? 0)
         && ((w5 =? 0) && ((w6 =? 0) && ((w7 =? 0) && true)))))))
    then AddressType.Unspecified
    else if (w0 =? 0) && ((w1 =? 0) && ((w2 =? 0) && ((w3 =? 0) && ((w4 =? 0)
              && ((w5 =? 0) && ((w6 =? 0) && true)))))) && (w7 =? 1)
    then AddressType.Loopback
    else if w0 =? 0xfe80 then AddressType.LinkLocal
    else if (0xfc00 <=? w0) && (w0 <=? 0xfdff) then AddressType.UniqueLocal
    else if 0xff00 <=? w0 then AddressType.Multicast
    else if (w0 =? 0) && ((w1 =? 0) && ((w2 =? 0) && ((w3 =? 0)
              && ((w4 =? 0) && true)))) && (w5 =? 0xffff)
    then AddressType.IPv4Mapped
    else if (w0 =? 0) && ((w1 =? 0) && ((w2 =? 0) && ((w3 =? 0)
              && ((w4 =? 0) && ((w5 =? 0) && true)))))
    then AddressType.IPv4Compatible
    else if (w0 =? 0x2001) && (w1 =? 0) then AddressType.Teredo
    else if w0 =? 0x2002 then AddressType.SixToFour
    else if (w0 =? 0x2001) && ((0x0db8 <=? w1) && (w1 <=? 0x0dbf))
    then AddressType.Documentation
    else if (0x2000 <=? w0) && (w0 <=? 0x3fff) then AddressType.GlobalUnicast
    else AddressType.Reserved.
Proof.
  intros w0 w1 w2 w3 w4 w5 w6 w7 Hw.
  inversion Hw as [|? ? H0 Hw1]; subst. inversion Hw1 as [|? ? H1 _]; subst.
  destruct (mask_facts w0 H0) as (M1 & M2 & _ & M4 & _).
  destruct (mask_facts w1 H1) as (_ & _ & M3 & _ & _).
  unfold IPv6Parser.getAddressType, IPv6Parser.masked.
  change (get (map Num [w0; w1; w2; w3; w4; w5; w6; w7]) 0) with (Num w0).
  change (get (map Num [w0; w1; w2; w3; w4; w5; w6; w7]) 1) with (Num w1).
  rewrite !band_word by lia. rewrite M1, M2, M3, M4.
  reflexivity.
Qed.

Ltac chain :=
  repeat (match goal with
          | |- context [if ?c then _ else _] =>
              let E := fresh "E" in destruct c eqn:E
          end; cbv iota).

(** Comparisons in the context, as propositions; a failed conjunction of
    many tests is left as it is. *)
Ltac atoms :=
  repeat match goal with
         | H : _ && _ = true |- _ => apply andb_true_iff in H; destruct H
         | H : (_ =? _) = true |- _ => apply Z.eqb_eq in H
         | H : (_ =? _) = false |- _ => apply Z.eqb_neq in H
         | H : (_ <=? _) = true |- _ => apply Z.leb_le in H
         | H : (_ <=? _) = false |- _ => apply Z.leb_gt in H
         | H : (_ <=? _) && (_ <=? _) = false |- _ =>
             rewrite andb_false_iff, !Z.leb_gt in H
         | H : (_ =? _) && (_ =? _) = false |- _ =>
             rewrite andb_false_iff, !Z.eqb_neq in H
         | H : (_ =? _) && ((_ <=? _) && (_ <=? _)) = false |- _ =>
             rewrite !andb_false_iff, !Z.leb_gt, Z.eqb_neq in H
         end.

Ltac bounds :=
  repeat match goal with
         | H : Forall _ (_ :: _) |- _ =>
             let H1 := fresh "B" in
             let H2 := fresh "H" in
             apply Forall_cons_iff in H; destruct H as [H1 H2]
         | H : Forall _ [] |- _ => clear H
         end.

Ltac settle :=
  repeat match goal with
         | H : _ = true |- _ => clear H
         | H : _ = false |- _ => clear H
         end;
  repeat match goal with
         | |- _ /\ _ => split
         | |- _ <-> _ => split
         end;
  intros; first [reflexivity | discriminate | lia | exfalso; lia].

(** The first test of the classifier's tests on several words. *)
Ltac first_word w0 :=
  let E := fresh "E" in
  destruct (w0 =? 0) eqn:E; cbn [andb]; cbv iota.

(** X13.  On eight words, three types are decided by the first word alone,
    whatever the other words are: LinkLocal by the value [0xfe80],
    UniqueLocal by the range from [0xfc00] to [0xfdff], Multicast by the
    range from [0xff00] up. *)
Theorem types_by_first_word : forall w0 w1 w2 w3 w4 w5 w6 w7 : Z,
  Forall (fun z => 0 <= z <= 0xffff) [w0; w1; w2; w3; w4; w5; w6; w7] ->
  let type :=
    IPv6Parser.getAddressType (map Num [w0; w1; w2; w3; w4; w5; w6; w7]) in
  (type = AddressType.LinkLocal <-> w0 = 0xfe80)
  /\ (type = AddressType.UniqueLocal <-> 0xfc00 <= w0 <= 0xfdff)
  /\ (type = AddressType.Multicast <-> 0xff00 <= w0).
Proof.
  intros w0 w1 w2 w3 w4 w5 w6 w7 Hw. cbv zeta.
  rewrite getAddressType_words by assumption.
  bounds. first_word w0; chain; atoms; settle.
Qed.

Lemma types_by_first_word_witness :
  IPv6Parser.getAddressType (map Num [0xfd12; 0x3456; 0; 0; 0; 0; 0; 1])
  = AddressType.UniqueLocal.
Proof.
  assert (Hw : Forall (fun z => 0 <= z <= 0xffff)
                 [0xfd12; 0x3456; 0; 0; 0; 0; 0; 1])
    by (repeat constructor; lia).
  assert (Hr : 0xfc00 <= 0xfd12 <= 0xfdff) by lia.
  exact (proj2 (proj1 (proj2 (types_by_first_word _ _ _ _ _ _ _ _ Hw))) Hr).
Defined.

(** X14.  Inside [2000::/3] the classifier carves out, by the first two
    words: Teredo for [2001:0000], 6to4 for the first word [2002], and
    Documentation for [2001:0db8] up to [2001:0dbf], the mask of the second
    word being [0xfff8]; everything else there is GlobalUnicast. *)
Theorem types_in_global_range : forall w0 w1 w2 w3 w4 w5 w6 w7 : Z,
  Forall (fun z => 0 <= z <= 0xffff) [w0; w1; w2; w3; w4; w5; w6; w7] ->
  let type :=
    IPv6Parser.getAddressType (map Num [w0; w1; w2; w3; w4; w5; w6; w7]) in
  (type = AddressType.Teredo <-> w0 = 0x2001 /\ w1 = 0)
  /\ (type = AddressType.SixToFour <-> w0 = 0x2002)
  /\ (type = AddressType.Documentation
      <-> w0 = 0x2001 /\ 0x0db8 <= w1 <= 0x0dbf)
  /\ (type = AddressType.GlobalUnicast
      <-> 0x2000 <= w0 <= 0x3fff /\ w0 <> 0x2002
          /\ (w0 = 0x2001 -> w1 <> 0 /\ (w1 < 0x0db8 \/ 0x0dbf < w1))).
Proof.
  intros w0 w1 w2 w3 w4 w5 w6 w7 Hw. cbv zeta.
  rewrite getAddressType_words by assumption.
  bounds. first_word w0; chain; atoms; settle.
Qed.

Lemma types_in_global_range_witness :
  IPv6Parser.getAddressType (map Num [0x2001; 0xdbf; 0; 0; 0; 0; 0; 1])
  = AddressType.Documentation.
Proof.
  assert (Hw : Forall (fun z => 0 <= z <= 0xffff)
                 [0x2001; 0xdbf; 0; 0; 0; 0; 0; 1])
    by (repeat constructor; lia).
  assert (Hr : 0x2001 = 0x2001 /\ 0x0db8 <= 0xdbf <= 0x0dbf) by lia.
  exact (proj2 (proj1 (proj2 (proj2
           (types_in_global_range _ _ _ _ _ _ _ _ Hw)))) Hr).
Defined.

(** Every test in the context, as a proposition. *)
Ltac props :=
  repeat match goal with
         | H : true = true |- _ => clear H
         | H : _ = true |- _ =>
             rewrite ?andb_true_iff, ?negb_true_iff, ?orb_true_iff,
               ?Z.eqb_eq, ?Z.leb_le in H;
             match type of H with _ = true => fail 1 | _ => idtac end
         | H : _ = false |- _ =>
             rewrite ?andb_false_iff, ?negb_false_iff, ?orb_false_iff,
               ?Z.eqb_neq, ?Z.leb_gt in H;
             match type of H with _ = false => fail 1 | _ => idtac end
         end.

Ltac decide_all :=
  repeat match goal with
         | |- _ /\ _ => split
         | |- _ <-> _ => split
         end;
  intros;
  repeat match goal with H : _ /\ _ |- _ => destruct H end;
  props;
  rewrite ?andb_true_iff, ?orb_true_iff, ?negb_true_iff, ?Z.eqb_eq,
    ?Z.eqb_neq;
  first [ reflexivity | congruence | lia | exfalso; lia
        | repeat split; first [reflexivity | congruence | lia] ].

Lemma flags_words : forall w0 w1 w2 w3 w4 w5 w6 w7,
  IPv6Parser.isIPv4Mapped (map Num [w0; w1; w2; w3; w4; w5; w6; w7])
  = ((w0 =? 0) && ((w1 =? 0) && ((w2 =? 0) && ((w3 =? 0)
       && ((w4 =? 0) && true)))) && (w5 =? 0xffff))
  /\ IPv6Parser.isIPv4Compatible (map Num [w0; w1; w2; w3; w4; w5; w6; w7])
     = ((w0 =? 0) && ((w1 =? 0) && ((w2 =? 0) && ((w3 =? 0)
          && ((w4 =? 0) && ((w5 =? 0) && true)))))
        && (negb (w6 =? 0) || negb (w7 =? 0)) && negb (w7 =? 1)).
Proof. intros. split; reflexivity. Qed.

(** X15.  The types of the low addresses, on eight words: Unspecified for
    the all-zero address, Loopback for [::1], IPv4Mapped when the first five
    words are zero and the sixth is [0xffff], IPv4Compatible for every other
    address whose first six words are zero.  The flag of mapped addresses
    agrees with the type; the flag of compatible addresses is also off when
    the last word is 1. *)
Theorem types_of_low_addresses : forall w0 w1 w2 w3 w4 w5 w6 w7 : Z,
  Forall (fun z => 0 <= z <= 0xffff) [w0; w1; w2; w3; w4; w5; w6; w7] ->
  let hextets := map Num [w0; w1; w2; w3; w4; w5; w6; w7] in
  let type := IPv6Parser.getAddressType hextets in
  (type = AddressType.Unspecified
   <-> w0 = 0 /\ w1 = 0 /\ w2 = 0 /\ w3 = 0 /\ w4 = 0 /\ w5 = 0 /\ w6 = 0
       /\ w7 = 0)
  /\ (type = AddressType.Loopback
      <-> w0 = 0 /\ w1 = 0 /\ w2 = 0 /\ w3 = 0 /\ w4 = 0 /\ w5 = 0 /\ w6 = 0
          /\ w7 = 1)
  /\ (type = AddressType.IPv4Mapped
      <-> w0 = 0 /\ w1 = 0 /\ w2 = 0 /\ w3 = 0 /\ w4 = 0 /\ w5 = 0xffff)
  /\ (type = AddressType.IPv4Compatible
      <-> w0 = 0 /\ w1 = 0 /\ w2 = 0 /\ w3 = 0 /\ w4 = 0 /\ w5 = 0
          /\ (w6 <> 0 \/ 2 <= w7))
  /\ (IPv6Parser.isIPv4Mapped hextets = true
      <-> type = AddressType.IPv4Mapped)
  /\ (IPv6Parser.isIPv4Compatible hextets = true
      <-> type = AddressType.IPv4Compatible /\ w7 <> 1).
Proof.
  intros w0 w1 w2 w3 w4 w5 w6 w7 Hw. cbv zeta.
  destruct (flags_words w0 w1 w2 w3 w4 w5 w6 w7) as [-> ->].
  rewrite getAddressType_words by assumption.
  bounds. first_word w0.
  - apply Z.eqb_eq in E. subst w0.
    destruct (w1 =? 0) eqn:E1; cbn [andb]; cbv iota;
    destruct (w2 =? 0) eqn:E2; cbn [andb]; cbv iota;
    destruct (w3 =? 0) eqn:E3; cbn [andb]; cbv iota;
    destruct (w4 =? 0) eqn:E4; cbn [andb]; cbv iota;
    chain; props; decide_all.
  - chain; props; decide_all.
Qed.

Lemma types_of_low_addresses_witness :
  IPv6Parser.isIPv4Compatible (map Num [0; 0; 0; 0; 0; 0; 1; 1]) = true
  <-> IPv6Parser.getAddressType (map Num [0; 0; 0; 0; 0; 0; 1; 1])
      = AddressType.IPv4Compatible /\ 1 <> 1.
Proof.
  assert (Hw : Forall (fun z => 0 <= z <= 0xffff) [0; 0; 0; 0; 0; 0; 1; 1])
    by (repeat constructor; lia).
  exact (proj2 (proj2 (proj2 (proj2 (proj2
           (types_of_low_addresses _ _ _ _ _ _ _ _ Hw)))))).
Defined.

(** X16.  The scope on eight words.  A multicast address takes the scope
    named by the last hex digit of its first word, Global when that digit
    names none; otherwise the scope is InterfaceLocal for the all-zero
    address and [::1], LinkLocal for the first word [0xfe80],
    OrganizationLocal for the first words from [0xfc00] to [0xfdff], and
    Global for the rest. *)
Theorem scope_by_words : forall w0 w1 w2 w3 w4 w5 w6 w7 : Z,
  Forall (fun z => 0 <= z <= 0xffff) [w0; w1; w2; w3; w4; w5; w6; w7] ->
  let hextets := map Num [w0; w1; w2; w3; w4; w5; w6; w7] in
  let scope :=
    IPv6Parser.getAddressScope hextets (IPv6Parser.getAddressType hextets) in
  let multicast := fun digit => 0xff00 <= w0 /\ w0 mod 16 = digit in
  (scope = AddressScope.InterfaceLocal
   <-> (w0 = 0 /\ w1 = 0 /\ w2 = 0 /\ w3 = 0 /\ w4 = 0 /\ w5 = 0 /\ w6 = 0
        /\ w7 <= 1)
       \/ multicast 1)
  /\ (scope = AddressScope.LinkLocal <-> w0 = 0xfe80 \/ multicast 2)
  /\ (scope = AddressScope.AdminLocal <-> multicast 4)
  /\ (scope = AddressScope.SiteLocal <-> multicast 5)
  /\ (scope = AddressScope.OrganizationLocal
      <-> 0xfc00 <= w0 <= 0xfdff \/ multicast 8).
Proof.
  intros w0 w1 w2 w3 w4 w5 w6 w7 Hw. cbv zeta.
  rewrite getAddressType_words by assumption.
  unfold IPv6Parser.getAddressScope.
  change (get (map Num [w0; w1; w2; w3; w4; w5; w6; w7]) 0) with (Num w0).
  bounds.
  rewrite band_word by lia.
  destruct (mask_facts w0 ltac:(lia)) as (_ & _ & _ & _ & ->).
  cbv zeta. first_word w0.
  - apply Z.eqb_eq in E. subst w0. change (0 mod 16) with 0.
    destruct (w1 =? 0) eqn:E1; cbn [andb]; cbv iota;
    destruct (w2 =? 0) eqn:E2; cbn [andb]; cbv iota;
    destruct (w3 =? 0) eqn:E3; cbn [andb]; cbv iota;
    destruct (w4 =? 0) eqn:E4; cbn [andb]; cbv iota;
    chain; props; decide_all.
  - chain; props; decide_all.
Qed.

Lemma scope_by_words_witness :
  IPv6Parser.getAddressScope (map Num [0xff05; 0; 0; 0; 0; 0; 0; 2])
    (IPv6Parser.getAddressType (map Num [0xff05; 0; 0; 0; 0; 0; 0; 2]))
  = AddressScope.SiteLocal.
Proof.
  assert (Hw : Forall (fun z => 0 <= z <= 0xffff) [0xff05; 0; 0; 0; 0; 0; 0; 2])
    by (repeat constructor; lia).
  assert (Hm : 0xff00 <= 0xff05 /\ 0xff05 mod 16 = 5) by (split; [lia | reflexivity]).
  exact (proj2 (proj1 (proj2 (proj2 (proj2
           (scope_by_words _ _ _ _ _ _ _ _ Hw))))) Hm).
Defined.

(** ** The interface identifier *)

Lemma lor_shiftl_add : forall a b k, 0 <= k -> 0 <= b < 2 ^ k ->
  Z.lor (Z.shiftl a k) b = a * 2 ^ k + b.
Proof.
  intros a b k Hk Hb.
  rewrite <- Z.lxor_lor, <- Z.add_nocarry_lxor
    by now apply land_shiftl_small.
  now rewrite Z.shiftl_mul_pow2.
Qed.

Lemma middle_bits : forall h4 h5 h6 h7,
  0 <= h4 -> 0 <= h5 <= 0xffff -> 0 <= h6 <= 0xffff -> 0 <= h7 <= 0xffff ->
  Z.land
    (Z.shiftr
       (Z.lor (Z.lor (Z.lor (Z.shiftl h4 48) (Z.shiftl h5 32))
                     (Z.shiftl h6 16)) h7) 24) 0xffff
  = h5 mod 256 * 256 + h6 / 256.
Proof.
  intros h4 h5 h6 h7 H4 H5 H6 H7.
  assert (E1 : Z.lor (Z.shiftl h4 48) (Z.shiftl h5 32)
               = Z.shiftl (h4 * 65536 + h5) 32).
  { replace (Z.shiftl h4 48) with (Z.shiftl (Z.shiftl h4 16) 32)
      by (rewrite Z.shiftl_shiftl by lia; reflexivity).
    rewrite <- Z.shiftl_lor. f_equal.
    rewrite lor_shiftl_add by (change (2 ^ 16) with 65536; lia).
    reflexivity. }
  assert (E2 : Z.lor (Z.shiftl (h4 * 65536 + h5) 32) (Z.shiftl h6 16)
               = Z.shiftl ((h4 * 65536 + h5) * 65536 + h6) 16).
  { replace (Z.shiftl (h4 * 65536 + h5) 32)
      with (Z.shiftl (Z.shiftl (h4 * 65536 + h5) 16) 16)
      by (rewrite Z.shiftl_shiftl by lia; reflexivity).
    rewrite <- Z.shiftl_lor. f_equal.
    rewrite lor_shiftl_add by (change (2 ^ 16) with 65536; lia).
    reflexivity. }
  rewrite E1, E2.
  rewrite lor_shiftl_add by (change (2 ^ 16) with 65536; lia).
  rewrite Z.shiftr_div_pow2 by lia.
  change 65535 with (Z.ones 16). rewrite Z.land_ones by lia.
  change (2 ^ 16) with 65536. change (2 ^ 24) with 16777216.
  pose proof (Z.div_mod h6 256 ltac:(lia)) as D6.
  pose proof (Z.mod_pos_bound h6 256 ltac:(lia)) as M6.
  pose proof (Z.div_mod h5 256 ltac:(lia)) as D5.
  pose proof (Z.mod_pos_bound h5 256 ltac:(lia)) as M5.
  assert (Hq : (((h4 * 65536 + h5) * 65536 + h6) * 65536 + h7) / 16777216
               = (h4 * 256 + h5 / 256) * 65536 + (h5 mod 256 * 256 + h6 / 256)).
  { symmetry. apply Z.div_unique with (r := h6 mod 256 * 65536 + h7); lia. }
  rewrite Hq.
  rewrite Z.add_comm, Z.mod_add by lia.
  apply Z.mod_small.
  assert (0 <= h6 / 256 < 256)
    by (split; [apply Z.div_pos; lia | apply Z.div_lt_upper_bound; lia]).
  lia.
Qed.

(** X17.  On eight words the EUI-64 flag is set exactly when the low byte of
    the sixth word is [0xff] and the high byte of the seventh word is
    [0xfe]: the bytes [ff:fe] in the middle of the interface identifier. *)
Theorem eui64_by_words : forall (host : Host) (w0 w1 w2 w3 w4 w5 w6 w7 : Z),
  Forall (fun z => 0 <= z <= 0xffff) [w0; w1; w2; w3; w4; w5; w6; w7] ->
  IPv6Parser.isEUI64 (map Num [w0; w1; w2; w3; w4; w5; w6; w7])
  = Normal ((w5 mod 256 =? 0xff) && (w6 / 256 =? 0xfe)).
Proof.
  intros host w0 w1 w2 w3 w4 w5 w6 w7 Hw. bounds.
  unfold IPv6Parser.isEUI64.
  change (get (map Num [w0; w1; w2; w3; w4; w5; w6; w7]) 4) with (Num w4).
  change (get (map Num [w0; w1; w2; w3; w4; w5; w6; w7]) 5) with (Num w5).
  change (get (map Num [w0; w1; w2; w3; w4; w5; w6; w7]) 6) with (Num w6).
  change (get (map Num [w0; w1; w2; w3; w4; w5; w6; w7]) 7) with (Num w7).
  cbv beta iota zeta delta [bind BigInt].
  rewrite middle_bits by lia. f_equal.
  pose proof (Z.mod_pos_bound w5 256 ltac:(lia)) as M5.
  assert (0 <= w6 / 256 < 256)
    by (split; [apply Z.div_pos; lia | apply Z.div_lt_upper_bound; lia]).
  destruct (w5 mod 256 =? 255) eqn:Ea; destruct (w6 / 256 =? 254) eqn:Eb;
    cbn [andb];
    rewrite ?Z.eqb_eq, ?Z.eqb_neq in *; lia.
Qed.

Lemma eui64_by_words_witness :
  IPv6Parser.isEUI64 (host := sampleHost)
    (map Num [0xfe80; 0; 0; 0; 0x0211; 0x22ff; 0xfe33; 0x4455])
  = Normal true.
Proof.
  assert (Hw : Forall (fun z => 0 <= z <= 0xffff)
                 [0xfe80; 0; 0; 0; 0x0211; 0x22ff; 0xfe33; 0x4455])
    by (repeat constructor; lia).
  exact (eui64_by_words sampleHost _ _ _ _ _ _ _ _ Hw).
Defined.

(** ** Counts *)

(** X18.  The count of /64 subnets of a /48 allocation is given for prefix
    lengths from 64 on only, and is then the host's rendering of
    [2^(p - 48)]: the branch that answers [1] is never taken. *)
Theorem total_subnets_cases : forall (host : Host) (p : Z),
  IPv6Parser.calculateTotalSubnets p
  = (if 64 <=? p then toLocaleString (2 ^ (p - 48))
     else "N/A (prefix too short)")
  /\ (64 <= p -> 65536 <= 2 ^ (p - 48)).
Proof.
  intros host p. unfold IPv6Parser.calculateTotalSubnets. cbv zeta. split.
  - destruct (64 <=? p) eqn:E; [|reflexivity].
    apply Z.leb_le in E.
    now replace (p - 48 <=? 0) with false by (symmetry; apply Z.leb_gt; lia).
  - intros Hp. change 65536 with (2 ^ 16).
    apply Z.pow_le_mono_r; lia.
Qed.

(** ** Network address and address range *)

Lemma word_cases : forall q, 0 <= q <= 8 ->
  q = 0 \/ q = 1 \/ q = 2 \/ q = 3 \/ q = 4 \/ q = 5 \/ q = 6 \/ q = 7
  \/ q = 8.
Proof. intros q Hq. lia. Qed.

(** The loops of [getNetworkAddress] and [getAddressRange] on eight
    words. *)
Lemma maskLoop : forall (c : bool) (f : Number -> Number) (v : Number)
    (hs : list Number) (q : Z),
  List.length hs = 8%nat -> 0 <= q <= 8 ->
  forRange q 8
    (fun i a => if (i =? q) && c then set a i (f (get a i)) else set a i v)
    hs
  = maskFrom (Z.to_nat q) (fun h => if c then f h else v) v hs.
Proof.
  intros c f v hs q Hlen Hq.
  destruct hs as [|h0 [|h1 [|h2 [|h3 [|h4 [|h5 [|h6 [|h7 [|? ?]]]]]]]]];
    try discriminate Hlen.
  destruct (word_cases q Hq) as [-> | [-> | [-> | [-> | [-> | [-> | [->
    | [-> | ->]]]]]]]]; destruct c; reflexivity.
Qed.

(** The loop of [getSubnetRange], which fills two arrays at once. *)
Lemma maskLoop2 : forall (c : bool) (f g : Number -> Number) (v u : Number)
    (hs : list Number) (q : Z),
  List.length hs = 8%nat -> 0 <= q <= 8 ->
  forRange q 8
    (fun i '(a, b) =>
       if (i =? q) && c
       then (set a i (f (get a i)), set b i (g (get b i)))
       else (set a i v, set b i u))
    (hs, hs)
  = (maskFrom (Z.to_nat q) (fun h => if c then f h else v) v hs,
     maskFrom (Z.to_nat q) (fun h => if c then g h else u) u hs).
Proof.
  intros c f g v u hs q Hlen Hq.
  destruct hs as [|h0 [|h1 [|h2 [|h3 [|h4 [|h5 [|h6 [|h7 [|? ?]]]]]]]]];
    try discriminate Hlen.
  destruct (word_cases q Hq) as [-> | [-> | [-> | [-> | [-> | [-> | [->
    | [-> | ->]]]]]]]]; destruct c; reflexivity.
Qed.

Lemma maskFrom_map : forall (A B : Type) (h : A -> B) q f f' v v' l,
  (forall x rest, skipn q l = x :: rest -> f' (h x) = h (f x)) -> v' = h v ->
  maskFrom q f' v' (map h l) = map h (maskFrom q f v l).
Proof.
  intros A B h q f f' v v' l Hf ->. unfold maskFrom.
  rewrite map_app, <- firstn_map, skipn_map. f_equal.
  destruct (skipn q l) as [|x rest] eqn:E; [reflexivity|].
  cbn [map]. rewrite (Hf x rest eq_refl).
  f_equal. rewrite !map_map. reflexivity.
Qed.

Lemma skipn_In : forall (A : Type) q (l : list A) x rest,
  skipn q l = x :: rest -> In x l.
Proof.
  intros A q l x rest E. rewrite <- (firstn_skipn q l), E.
  apply in_or_app. right. now left.
Qed.

Lemma maskFrom_ext : forall (A : Type) q (f g : A -> A) v l,
  (forall x, In x l -> f x = g x) -> maskFrom q f v l = maskFrom q g v l.
Proof.
  intros A q f g v l H. unfold maskFrom. f_equal.
  destruct (skipn q l) as [|x rest] eqn:E; [reflexivity|].
  rewrite H; [reflexivity|].
  rewrite <- (firstn_skipn q l), E. apply in_or_app. right. now left.
Qed.

Lemma maskFrom_length : forall (A : Type) q (f : A -> A) v l,
  List.length (maskFrom q f v l) = List.length l.
Proof.
  intros A q f v l. unfold maskFrom.
  rewrite <- (firstn_skipn q l) at 3. rewrite !length_app. f_equal.
  destruct (skipn q l); cbn; [reflexivity | now rewrite length_map].
Qed.

Lemma maskFrom_Forall : forall (A : Type) (P : A -> Prop) q f v l,
  Forall P l -> (forall x, P x -> P (f x)) -> P v ->
  Forall P (maskFrom q f v l).
Proof.
  intros A P q f v l Hl Hf Hv. unfold maskFrom.
  apply Forall_app. split; [now apply Forall_firstn|].
  pose proof (Forall_skipn _ P q l Hl) as Hs.
  destruct (skipn q l) as [|x rest]; [constructor|].
  inversion Hs; subst. constructor; [now apply Hf|].
  apply Forall_map. apply Forall_forall. intros; exact Hv.
Qed.

(** *** The masks *)

Lemma keepBits_shift : forall n x, 0 <= n <= 16 ->
  keepBits n x = Z.shiftl (Z.shiftr x (16 - n)) (16 - n).
Proof.
  intros n x Hn. unfold keepBits.
  now rewrite Z.shiftr_div_pow2, Z.shiftl_mul_pow2 by lia.
Qed.

Lemma keepBits_bounds : forall n x, 0 <= n <= 16 -> 0 <= x <= 0xffff ->
  0 <= keepBits n x <= x /\ x < keepBits n x + 2 ^ (16 - n)
  /\ 0 < 2 ^ (16 - n) <= 65536.
Proof.
  intros n x Hn Hx. unfold keepBits.
  assert (Hpos : 0 < 2 ^ (16 - n)) by (apply Z.pow_pos_nonneg; lia).
  assert (Hle : 2 ^ (16 - n) <= 2 ^ 16) by (apply Z.pow_le_mono_r; lia).
  change (2 ^ 16) with 65536 in Hle.
  pose proof (Z.div_mod x (2 ^ (16 - n)) ltac:(lia)) as Hd.
  pose proof (Z.mod_pos_bound x (2 ^ (16 - n)) Hpos) as Hm.
  assert (0 <= x / 2 ^ (16 - n)) by (apply Z.div_pos; lia).
  nia.
Qed.

Lemma keepBits_zero : forall x, 0 <= x <= 0xffff -> keepBits 0 x = 0.
Proof.
  intros x Hx. unfold keepBits. change (2 ^ (16 - 0)) with 65536.
  rewrite Z.div_small by lia. reflexivity.
Qed.

(** [x & mask] with the mask of [getNetworkAddress]. *)
Lemma network_mask : forall r x, 1 <= r <= 15 -> 0 <= x <= 0xffff ->
  band (ToInt32 (Num x)) (band (shl 0xffff (16 - r)) 0xffff) = keepBits r x.
Proof.
  intros r x Hr Hx.
  assert (Hmask : band (shl 0xffff (16 - r)) 0xffff
                  = Z.shiftl (Z.ones r) (16 - r)).
  { assert (H : r = 1 \/ r = 2 \/ r = 3 \/ r = 4 \/ r = 5 \/ r = 6 \/ r = 7
                \/ r = 8 \/ r = 9 \/ r = 10 \/ r = 11 \/ r = 12 \/ r = 13
                \/ r = 14 \/ r = 15) by lia.
    repeat (destruct H as [->|H]; [reflexivity|]). subst. reflexivity. }
  rewrite Hmask, keepBits_shift by lia.
  assert (Hm : 0 <= Z.shiftl (Z.ones r) (16 - r) <= 0xffff).
  { rewrite Z.shiftl_mul_pow2, Z.ones_equiv by lia.
    assert (Hp : 2 ^ r * 2 ^ (16 - r) = 65536)
      by (rewrite <- Z.pow_add_r by lia; replace (r + (16 - r)) with 16 by lia;
          reflexivity).
    assert (0 < 2 ^ r) by (apply Z.pow_pos_nonneg; lia).
    assert (0 < 2 ^ (16 - r)) by (apply Z.pow_pos_nonneg; lia).
    nia. }
  rewrite band_word by lia.
  apply Z.bits_inj'. intros n Hn.
  rewrite Z.land_spec.
  destruct (Z.lt_ge_cases n (16 - r)) as [Hlow|Hhigh].
  - rewrite !Z.shiftl_spec_low by lia. apply andb_false_r.
  - rewrite !Z.shiftl_spec by lia. rewrite Z.shiftr_spec by lia.
    replace (n - (16 - r) + (16 - r)) with n by lia.
    destruct (Z.lt_ge_cases n 16) as [Hin|Hout].
    + rewrite Z.ones_spec_low by lia. apply andb_true_r.
    + rewrite Z.ones_spec_high by lia. rewrite andb_false_r.
      symmetry. rewrite <- (Z.mod_small x (2 ^ 16))
        by (change (2 ^ 16) with 65536; lia).
      apply Z.mod_pow2_bits_high. lia.
Qed.

Lemma shl_one : forall k, 0 <= k <= 30 -> shl 1 k = 2 ^ k.
Proof.
  intros k Hk. unfold shl.
  rewrite (wrap32_small 1) by (change (2 ^ 31) with 2147483648; lia).
  rewrite Z.mod_small by lia. rewrite Z.shiftl_1_l.
  apply wrap32_small.
  assert (0 < 2 ^ k) by (apply Z.pow_pos_nonneg; lia).
  assert (2 ^ k <= 2 ^ 30) by (apply Z.pow_le_mono_r; lia).
  change (2 ^ 30) with 1073741824 in *. change (2 ^ 31) with 2147483648. lia.
Qed.

(** [x & ~hostMask] with the mask of [getSubnetRange]. *)
Lemma host_mask_clear : forall r x, 1 <= r <= 15 -> 0 <= x <= 0xffff ->
  band (ToInt32 (Num x)) (bnot (shl 1 (16 - r) - 1)) = keepBits r x.
Proof.
  intros r x Hr Hx. rewrite shl_one by lia.
  assert (Hp : 0 < 2 ^ (16 - r) <= 32768).
  { split; [apply Z.pow_pos_nonneg; lia|].
    change 32768 with (2 ^ 15). apply Z.pow_le_mono_r; lia. }
  unfold band, bnot, ToInt32.
  rewrite (wrap32_small x) by (change (2 ^ 31) with 2147483648; lia).
  rewrite (wrap32_small (2 ^ (16 - r) - 1))
    by (change (2 ^ 31) with 2147483648; lia).
  rewrite (wrap32_small x) by (change (2 ^ 31) with 2147483648; lia).
  rewrite wrap32_small
    by (unfold Z.lnot; change (2 ^ 31) with 2147483648; lia).
  replace (2 ^ (16 - r) - 1) with (Z.ones (16 - r))
    by (rewrite Z.ones_equiv; unfold Z.pred; lia).
  rewrite <- Z.ldiff_land.
  rewrite Z.ldiff_ones_r by lia. now rewrite keepBits_shift by lia.
Qed.

(** [x | hostMask] with the mask of [getAddressRange] and
    [getSubnetRange]. *)
Lemma host_mask_set : forall r x, 1 <= r <= 15 -> 0 <= x <= 0xffff ->
  bor (ToInt32 (Num x)) (shl 1 (16 - r) - 1)
  = keepBits r x + 2 ^ (16 - r) - 1.
Proof.
  intros r x Hr Hx. rewrite shl_one by lia.
  assert (Hp : 0 < 2 ^ (16 - r) <= 32768).
  { split; [apply Z.pow_pos_nonneg; lia|].
    change 32768 with (2 ^ 15). apply Z.pow_le_mono_r; lia. }
  unfold bor, ToInt32.
  rewrite !(wrap32_small x) by (change (2 ^ 31) with 2147483648; lia).
  rewrite (wrap32_small (2 ^ (16 - r) - 1))
    by (change (2 ^ 31) with 2147483648; lia).
  replace (2 ^ (16 - r) - 1) with (Z.ones (16 - r))
    by (rewrite Z.ones_equiv; unfold Z.pred; lia).
  rewrite keepBits_shift by lia.
  assert (Hsplit : x = Z.lor (Z.shiftl (Z.shiftr x (16 - r)) (16 - r))
                         (Z.land x (Z.ones (16 - r)))).
  { rewrite <- Z.ldiff_ones_r by lia.
    apply Z.bits_inj'. intros n Hn.
    rewrite Z.lor_spec, Z.ldiff_spec, Z.land_spec.
    destruct (Z.testbit x n), (Z.testbit (Z.ones (16 - r)) n); reflexivity. }
  rewrite Hsplit at 1. rewrite <- Z.lor_assoc.
  replace (Z.lor (Z.land x (Z.ones (16 - r))) (Z.ones (16 - r)))
    with (Z.ones (16 - r)).
  - rewrite lor_shiftl_add.
    + rewrite Z.shiftl_mul_pow2 by lia. rewrite Z.ones_equiv.
      unfold Z.pred. lia.
    + lia.
    + rewrite Z.ones_equiv. unfold Z.pred. lia.
  - apply Z.bits_inj'. intros n Hn.
    rewrite Z.lor_spec, Z.land_spec.
    destruct (Z.testbit x n), (Z.testbit (Z.ones (16 - r)) n); reflexivity.
Qed.

Lemma keepBits_idem : forall n x, 0 <= n <= 16 ->
  keepBits n (keepBits n x) = keepBits n x.
Proof.
  intros n x Hn. unfold keepBits.
  assert (0 < 2 ^ (16 - n)) by (apply Z.pow_pos_nonneg; lia).
  now rewrite Z.div_mul by lia.
Qed.

Lemma skipn_maskFrom : forall (A : Type) q (f : A -> A) v l,
  skipn q (maskFrom q f v l)
  = match skipn q l with
    | [] => []
    | x :: rest => f x :: map (fun _ => v) rest
    end.
Proof.
  intros A q f v l. unfold maskFrom.
  destruct (Nat.le_gt_cases (List.length l) q) as [Hle|Hgt].
  - rewrite (skipn_all2 l) by assumption. rewrite app_nil_r.
    apply skipn_all2. rewrite length_firstn. lia.
  - assert (Hq : List.length (firstn q l) = q)
      by (rewrite length_firstn; lia).
    rewrite skipn_app, Hq, Nat.sub_diag.
    rewrite (skipn_all2 (firstn q l)) by lia. reflexivity.
Qed.

Lemma firstn_maskFrom : forall (A : Type) q (f : A -> A) v l,
  firstn q (maskFrom q f v l) = firstn q l.
Proof.
  intros A q f v l. unfold maskFrom.
  destruct (Nat.le_gt_cases (List.length l) q) as [Hle|Hgt].
  - rewrite (skipn_all2 l) by assumption. rewrite app_nil_r.
    rewrite firstn_firstn. now rewrite Nat.min_id.
  - assert (Hq : List.length (firstn q l) = q)
      by (rewrite length_firstn; lia).
    rewrite firstn_app, Hq, Nat.sub_diag, firstn_firstn, Nat.min_id.
    cbn [firstn]. apply app_nil_r.
Qed.

Lemma maskFrom_compose : forall (A : Type) q (f g : A -> A) v u l,
  maskFrom q g u (maskFrom q f v l) = maskFrom q (fun x => g (f x)) u l.
Proof.
  intros A q f g v u l. unfold maskFrom at 1.
  rewrite firstn_maskFrom, skipn_maskFrom. unfold maskFrom. f_equal.
  destruct (skipn q l) as [|x rest]; [reflexivity|].
  now rewrite map_map.
Qed.

Lemma rem_mod_prefix : forall p, 0 <= p <= 128 ->
  Z.rem p 16 = p mod 16 /\ 0 <= p / 16 <= 8 /\ 0 <= p mod 16 <= 15.
Proof.
  intros p Hp. rewrite Z.rem_mod_nonneg by lia.
  pose proof (Z.mod_pos_bound p 16 ltac:(lia)).
  assert (0 <= p / 16) by (apply Z.div_pos; lia).
  assert (p / 16 < 9) by (apply Z.div_lt_upper_bound; lia).
  lia.
Qed.

Lemma getNetworkAddress_words : forall w p,
  Spec.Word128 w -> 0 <= p <= 128 ->
  IPv6Parser.getNetworkAddress (map Num w) p = map Num (networkWords w p).
Proof.
  intros w p [Hlen Hws] Hp.
  destruct (rem_mod_prefix p Hp) as (Hrem & Hq & Hr).
  unfold IPv6Parser.getNetworkAddress, networkWords. cbv zeta. rewrite Hrem.
  pose proof (maskLoop (0 <? p mod 16)
                (fun h => Num (band (ToInt32 h)
                                 (band (shl 0xffff (16 - p mod 16)) 0xffff)))
                (Num 0) (map Num w) (p / 16)) as Hloop.
  cbv beta in Hloop. rewrite Hloop by (rewrite ?length_map; assumption).
  apply maskFrom_map; [|reflexivity].
  intros x rest Hx. apply skipn_In in Hx.
  pose proof (proj1 (Forall_forall _ _) Hws x Hx) as Hb.
  cbv beta in Hb.
  destruct (0 <? p mod 16) eqn:E.
  - apply Z.ltb_lt in E. now rewrite network_mask by lia.
  - apply Z.ltb_ge in E. replace (p mod 16) with 0 by lia.
    now rewrite keepBits_zero.
Qed.

Lemma networkWords_word128 : forall w p,
  Spec.Word128 w -> 0 <= p <= 128 -> Spec.Word128 (networkWords w p).
Proof.
  intros w p [Hlen Hws] Hp.
  destruct (rem_mod_prefix p Hp) as (_ & _ & Hr).
  split; [unfold networkWords; now rewrite maskFrom_length|].
  apply maskFrom_Forall; [assumption | | cbv beta; lia].
  intros x Hx. cbv beta in *. pose proof (keepBits_bounds (p mod 16) x ltac:(lia) Hx). lia.
Qed.

Lemma lastWords_word128 : forall w p,
  Spec.Word128 w -> 0 <= p <= 128 -> Spec.Word128 (lastWords w p).
Proof.
  intros w p [Hlen Hws] Hp.
  destruct (rem_mod_prefix p Hp) as (_ & _ & Hr).
  split; [unfold lastWords; now rewrite maskFrom_length|].
  apply maskFrom_Forall; [assumption | | cbv beta; lia].
  intros x Hx. cbv beta in *.
  destruct (Z.eq_dec (p mod 16) 0) as [E0|Hne].
  - rewrite E0, keepBits_zero by assumption. change (2 ^ (16 - 0)) with 65536.
    lia.
  - rewrite <- host_mask_set by lia.
    pose proof (keepBits_bounds (p mod 16) x ltac:(lia) Hx) as Hk.
    rewrite host_mask_set by lia.
    unfold keepBits in *.
    assert (Hpow : 2 ^ (p mod 16) * 2 ^ (16 - p mod 16) = 65536)
      by (rewrite <- Z.pow_add_r by lia;
          replace (p mod 16 + (16 - p mod 16)) with 16 by lia; reflexivity).
    assert (Hd : x / 2 ^ (16 - p mod 16) < 2 ^ (p mod 16)).
    { apply Z.div_lt_upper_bound; [lia|]. rewrite Z.mul_comm, Hpow. lia. }
    nia.
Qed.

Lemma getAddressRange_words : forall w p,
  Spec.Word128 w -> 0 <= p <= 128 ->
  IPv6Parser.getAddressRange (map Num w) p
  = (IPv6Parser.toCompressed (map Num (networkWords w p)),
     IPv6Parser.toCompressed (map Num (lastWords w p))).
Proof.
  intros w p Hw Hp.
  destruct (rem_mod_prefix p Hp) as (Hrem & Hq & Hr).
  unfold IPv6Parser.getAddressRange. cbv zeta.
  rewrite getNetworkAddress_words by assumption. rewrite Hrem.
  pose proof (maskLoop (0 <? p mod 16)
                (fun h => Num (bor (ToInt32 h) (shl 1 (16 - p mod 16) - 1)))
                (Num 0xffff) (map Num (networkWords w p)) (p / 16)) as Hloop.
  cbv beta in Hloop.
  rewrite Hloop
    by (rewrite ?length_map; try apply networkWords_word128; assumption).
  f_equal. f_equal.
  unfold lastWords.
  rewrite <- (maskFrom_compose _ _ (keepBits (p mod 16))
                (fun x => x + 2 ^ (16 - p mod 16) - 1) 0 0xffff).
  fold (networkWords w p).
  apply maskFrom_map; [|reflexivity].
  intros x rest Hx. unfold networkWords in Hx.
  rewrite skipn_maskFrom in Hx.
  destruct (skipn (Z.to_nat (p / 16)) w) as [|x0 rest0] eqn:E0;
    [discriminate Hx|].
  inversion Hx; subst x rest. apply skipn_In in E0.
  pose proof (proj1 (Forall_forall _ _) (proj2 Hw) x0 E0) as Hb.
  cbv beta in Hb.
  pose proof (keepBits_bounds (p mod 16) x0 ltac:(lia) Hb) as Hk.
  destruct (0 <? p mod 16) eqn:E.
  - apply Z.ltb_lt in E. rewrite host_mask_set by lia.
    now rewrite keepBits_idem by lia.
  - apply Z.ltb_ge in E. replace (p mod 16) with 0 by lia.
    rewrite keepBits_zero by assumption. reflexivity.
Qed.

(** *** The value of the masked words *)

Lemma toValue_from : forall l acc,
  fold_left (fun a h => a * 65536 + h) l acc
  = acc * 65536 ^ Z.of_nat (List.length l) + Spec.toValue l.
Proof.
  unfold Spec.toValue. induction l as [|x l IH]; intros acc.
  - cbn. lia.
  - cbn [fold_left List.length]. rewrite IH, (IH (0 * 65536 + x)).
    rewrite Nat2Z.inj_succ, Z.pow_succ_r by lia. ring.
Qed.

Lemma toValue_cons : forall x l,
  Spec.toValue (x :: l) = x * 65536 ^ Z.of_nat (List.length l) + Spec.toValue l.
Proof.
  intros x l. unfold Spec.toValue at 1. cbn [fold_left].
  rewrite toValue_from. ring.
Qed.

Lemma toValue_app : forall a b,
  Spec.toValue (a ++ b)
  = Spec.toValue a * 65536 ^ Z.of_nat (List.length b) + Spec.toValue b.
Proof.
  intros a b. unfold Spec.toValue at 1. rewrite fold_left_app.
  rewrite toValue_from. reflexivity.
Qed.

Lemma toValue_range : forall l, Forall (fun z => 0 <= z <= 0xffff) l ->
  0 <= Spec.toValue l < 65536 ^ Z.of_nat (List.length l).
Proof.
  intros l Hl. pose proof (toValue_bounds l 0 Hl ltac:(lia)) as H.
  unfold Spec.toValue. lia.
Qed.

Lemma toValue_zeros : forall (A : Type) (l : list A),
  Spec.toValue (map (fun _ => 0) l) = 0.
Proof.
  intros A. induction l as [|x l IH]; [reflexivity|].
  cbn [map]. rewrite toValue_cons, IH. lia.
Qed.

Lemma toValue_ones : forall (A : Type) (l : list A),
  Spec.toValue (map (fun _ => 0xffff) l)
  = 65536 ^ Z.of_nat (List.length l) - 1.
Proof.
  intros A. induction l as [|x l IH]; [reflexivity|].
  cbn [map List.length]. rewrite toValue_cons, IH, length_map.
  rewrite Nat2Z.inj_succ, Z.pow_succ_r by lia. ring.
Qed.

(** Clearing the low bits of a number written as words: the arithmetic of
    the masks. *)
Lemma floor_block : forall P x B E r,
  0 <= r <= 16 -> 0 <= x -> 0 < E -> 0 <= B < E ->
  ((P * 65536 + x) * E + B) / (2 ^ (16 - r) * E) * (2 ^ (16 - r) * E)
  = (P * 65536 + keepBits r x) * E.
Proof.
  intros P x B E r Hr Hx HE HB. unfold keepBits.
  set (T := 2 ^ (16 - r)). set (U := 2 ^ r).
  assert (HT : 0 < T) by (apply Z.pow_pos_nonneg; lia).
  assert (HUT : U * T = 65536).
  { unfold U, T. rewrite <- Z.pow_add_r by lia.
    replace (r + (16 - r)) with 16 by lia. reflexivity. }
  pose proof (Z.div_mod x T ltac:(lia)) as Hd.
  pose proof (Z.mod_pos_bound x T HT) as Hm.
  assert (Hq : ((P * 65536 + x) * E + B) / (T * E) = P * U + x / T).
  { symmetry. apply Z.div_unique with (r := x mod T * E + B).
    - left. nia.
    - rewrite <- HUT. rewrite Hd at 1. ring. }
  rewrite Hq, <- HUT. ring.
Qed.

Lemma block_size : forall p n, 0 <= p <= 128 ->
  Z.of_nat n = 7 - p / 16 ->
  2 ^ (128 - p) = 2 ^ (16 - p mod 16) * 65536 ^ Z.of_nat n.
Proof.
  intros p n Hp Hn.
  destruct (rem_mod_prefix p Hp) as (_ & Hq & Hr).
  pose proof (Z.div_mod p 16 ltac:(lia)) as Hd.
  change 65536 with (2 ^ 16).
  rewrite <- Z.pow_mul_r, <- Z.pow_add_r by lia.
  f_equal. lia.
Qed.

Lemma masked_values : forall w p,
  Spec.Word128 w -> 0 <= p <= 128 ->
  Spec.toValue (networkWords w p)
  = Spec.toValue w / 2 ^ (128 - p) * 2 ^ (128 - p)
  /\ Spec.toValue (lastWords w p)
     = Spec.toValue (networkWords w p) + 2 ^ (128 - p) - 1.
Proof.
  intros w p [Hlen Hws] Hp.
  destruct (rem_mod_prefix p Hp) as (_ & Hq & Hr).
  unfold networkWords, lastWords, maskFrom.
  set (q := Z.to_nat (p / 16)).
  pose proof (firstn_skipn q w) as Hsplit.
  assert (Hskip : List.length (skipn q w) = (8 - q)%nat)
    by (rewrite length_skipn; lia).
  destruct (skipn q w) as [|x rest] eqn:E.
  - assert (Hp128 : p = 128).
    { cbn [List.length] in Hskip. pose proof (Z.div_mod p 16 ltac:(lia)).
      assert (p / 16 = 8) by (unfold q in Hskip; lia). lia. }
    subst p. rewrite app_nil_r in *. rewrite Hsplit.
    change (2 ^ (128 - 128)) with 1. rewrite Z.div_1_r. lia.
  - cbn [List.length] in Hskip.
    assert (Hn : Z.of_nat (List.length rest) = 7 - p / 16)
      by (unfold q in Hskip; lia).
    rewrite (block_size p (List.length rest) Hp Hn).
    assert (Hx : 0 <= x <= 0xffff /\ Forall (fun z => 0 <= z <= 0xffff) rest).
    { pose proof (Forall_skipn _ _ q w Hws) as Hs. rewrite E in Hs.
      inversion Hs; subst. now split. }
    destruct Hx as [Hx Hrest].
    pose proof (toValue_range rest Hrest) as HB.
    assert (HE : 0 < 65536 ^ Z.of_nat (List.length rest))
      by (apply Z.pow_pos_nonneg; lia).
    rewrite <- Hsplit at 2.
    rewrite !toValue_app, !toValue_cons. cbn [List.length].
    rewrite !length_map, toValue_zeros, toValue_ones.
    rewrite !Nat2Z.inj_succ, !Z.pow_succ_r by lia.
    set (En := 65536 ^ Z.of_nat (List.length rest)) in *.
    set (P := Spec.toValue (firstn q w)).
    replace (P * (65536 * En) + (x * En + Spec.toValue rest))
      with ((P * 65536 + x) * En + Spec.toValue rest) by ring.
    rewrite floor_block by lia.
    split; ring.
Qed.

Lemma getSubnetRange_words : forall w p,
  Spec.Word128 w -> 0 <= p <= 128 ->
  IPv6Subnetting.getSubnetRange (map Num w) p
  = (IPv6Subnetting.hextetsToAddress (map Num (networkWords w p)),
     IPv6Subnetting.hextetsToAddress (map Num (lastWords w p))).
Proof.
  intros w p [Hlen Hws] Hp.
  destruct (rem_mod_prefix p Hp) as (Hrem & Hq & Hr).
  unfold IPv6Subnetting.getSubnetRange. cbv zeta. rewrite Hrem.
  pose proof (maskLoop2 (0 <? p mod 16)
                (fun h => Num (band (ToInt32 h)
                                 (bnot (shl 1 (16 - p mod 16) - 1))))
                (fun h => Num (bor (ToInt32 h) (shl 1 (16 - p mod 16) - 1)))
                (Num 0) (Num 0xffff) (map Num w) (p / 16)) as Hloop.
  cbv beta in Hloop. rewrite Hloop by (rewrite ?length_map; assumption).
  f_equal; f_equal; apply maskFrom_map; try reflexivity;
    intros x rest Hx; apply skipn_In in Hx;
    pose proof (proj1 (Forall_forall _ _) Hws x Hx) as Hb; cbv beta in Hb;
    destruct (0 <? p mod 16) eqn:E;
    try (apply Z.ltb_lt in E;
         now rewrite ?host_mask_clear, ?host_mask_set by lia);
    apply Z.ltb_ge in E; replace (p mod 16) with 0 by lia;
    now rewrite keepBits_zero.
Qed.

(** X19.  On eight words and a prefix length [p] from 0 to 128, the network
    address is the address with every bit after the first [p] cleared: its
    words are in range, their value is the value of the address rounded down
    to a multiple of [2^(128 - p)], and taking the network address again
    changes nothing. *)
Theorem network_address_value : forall (w : list Z) (p : Z),
  Spec.Word128 w -> 0 <= p <= 128 ->
  exists net,
    IPv6Parser.getNetworkAddress (map Num w) p = map Num net
    /\ Spec.Word128 net
    /\ Spec.toValue net = Spec.toValue w / 2 ^ (128 - p) * 2 ^ (128 - p)
    /\ IPv6Parser.getNetworkAddress (map Num net) p = map Num net.
Proof.
  intros w p Hw Hp. exists (networkWords w p).
  pose proof (networkWords_word128 w p Hw Hp) as Hn.
  destruct (rem_mod_prefix p Hp) as (_ & _ & Hr).
  repeat split; try apply Hn.
  - now apply getNetworkAddress_words.
  - apply (masked_values w p Hw Hp).
  - rewrite getNetworkAddress_words by assumption. f_equal.
    unfold networkWords at 1. unfold networkWords at 1.
    rewrite maskFrom_compose. unfold networkWords.
    apply maskFrom_ext. intros x _. apply keepBits_idem. lia.
Qed.

Lemma network_address_value_witness :
  exists net,
    IPv6Parser.getNetworkAddress
      (map Num [0x2001; 0xdb8; 0xabcd; 0xef01; 0; 0; 0; 1]) 36
    = map Num net
    /\ Spec.Word128 net.
Proof.
  assert (Hw : Spec.Word128 [0x2001; 0xdb8; 0xabcd; 0xef01; 0; 0; 0; 1])
    by (split; [reflexivity | repeat constructor; lia]).
  assert (Hp : 0 <= 36 <= 128) by lia.
  destruct (network_address_value _ 36 Hw Hp) as (net & H1 & H2 & _).
  exists net. split; assumption.
Defined.

(** X20.  The first and last addresses of the range are the compressed
    renderings of two addresses in range: the network address, and the
    address [2^(128 - p) - 1] above it; the address itself lies between
    them. *)
Theorem address_range_values : forall (w : list Z) (p : Z),
  Spec.Word128 w -> 0 <= p <= 128 ->
  exists net last,
    IPv6Parser.getAddressRange (map Num w) p
    = (IPv6Parser.toCompressed (map Num net),
       IPv6Parser.toCompressed (map Num last))
    /\ Spec.Word128 net /\ Spec.Word128 last
    /\ IPv6Parser.getNetworkAddress (map Num w) p = map Num net
    /\ Spec.toValue last = Spec.toValue net + 2 ^ (128 - p) - 1
    /\ Spec.toValue net <= Spec.toValue w <= Spec.toValue last.
Proof.
  intros w p Hw Hp. exists (networkWords w p), (lastWords w p).
  destruct (masked_values w p Hw Hp) as [Hn Hl].
  repeat split.
  - now apply getAddressRange_words.
  - apply (networkWords_word128 w p Hw Hp).
  - apply (networkWords_word128 w p Hw Hp).
  - apply (lastWords_word128 w p Hw Hp).
  - apply (lastWords_word128 w p Hw Hp).
  - now apply getNetworkAddress_words.
  - exact Hl.
  - rewrite Hn, Z.mul_comm. apply Z.mul_div_le. apply Z.pow_pos_nonneg; lia.
  - rewrite Hl, Hn.
    assert (HM : 0 < 2 ^ (128 - p)) by (apply Z.pow_pos_nonneg; lia).
    pose proof (Z.div_mod (Spec.toValue w) (2 ^ (128 - p)) ltac:(lia)) as Hd.
    pose proof (Z.mod_pos_bound (Spec.toValue w) (2 ^ (128 - p)) HM) as Hm.
    lia.
Qed.

Lemma address_range_values_witness :
  exists net last,
    IPv6Parser.getAddressRange
      (map Num [0x2001; 0xdb8; 0xabcd; 0xef01; 0; 0; 0; 1]) 36
    = (IPv6Parser.toCompressed (map Num net),
       IPv6Parser.toCompressed (map Num last))
    /\ Spec.toValue last = Spec.toValue net + 2 ^ (128 - 36) - 1.
Proof.
  assert (Hw : Spec.Word128 [0x2001; 0xdb8; 0xabcd; 0xef01; 0; 0; 0; 1])
    by (split; [reflexivity | repeat constructor; lia]).
  assert (Hp : 0 <= 36 <= 128) by lia.
  destruct (address_range_values _ 36 Hw Hp)
    as (net & last & H1 & _ & _ & _ & H2 & _).
  exists net, last. split; assumption.
Defined.

(** X21.  The planner and the codec delimit the same range: on eight words
    and a prefix length from 0 to 128, the planner's first and last
    addresses are the expanded renderings of the words whose compressed
    renderings the codec gives. *)
Theorem planner_range_agrees : forall (w : list Z) (p : Z),
  Spec.Word128 w -> 0 <= p <= 128 ->
  exists net last,
    Spec.Word128 net /\ Spec.Word128 last
    /\ IPv6Subnetting.getSubnetRange (map Num w) p
       = (IPv6Subnetting.hextetsToAddress (map Num net),
          IPv6Subnetting.hextetsToAddress (map Num last))
    /\ IPv6Parser.getAddressRange (map Num w) p
       = (IPv6Parser.toCompressed (map Num net),
          IPv6Parser.toCompressed (map Num last))
    /\ IPv6Subnetting.parseHextets
         (fst (IPv6Subnetting.getSubnetRange (map Num w) p))
       = IPv6Parser.getNetworkAddress (map Num w) p.
Proof.
  intros w p Hw Hp. exists (networkWords w p), (lastWords w p).
  pose proof (networkWords_word128 w p Hw Hp) as Hn.
  repeat split; try apply Hn; try apply (lastWords_word128 w p Hw Hp).
  - now apply getSubnetRange_words.
  - now apply getAddressRange_words.
  - rewrite getSubnetRange_words, getNetworkAddress_words by assumption.
    cbn [fst]. rewrite hextetsToAddress_words.
    apply parseHextets_expanded; [|apply Hn].
    destruct Hn as [Hlen _]. intros E. rewrite E in Hlen. discriminate Hlen.
Qed.

Lemma planner_range_agrees_witness :
  IPv6Subnetting.parseHextets
    (fst (IPv6Subnetting.getSubnetRange
            (map Num [0x2001; 0xdb8; 0xabcd; 0xef01; 0; 0; 0; 1]) 36))
  = IPv6Parser.getNetworkAddress
      (map Num [0x2001; 0xdb8; 0xabcd; 0xef01; 0; 0; 0; 1]) 36.
Proof.
  assert (Hw : Spec.Word128 [0x2001; 0xdb8; 0xabcd; 0xef01; 0; 0; 0; 1])
    by (split; [reflexivity | repeat constructor; lia]).
  assert (Hp : 0 <= 36 <= 128) by lia.
  destruct (planner_range_agrees _ 36 Hw Hp) as (net & last & _ & _ & _ & _ & H).
  exact H.
Defined.

(** ** The network address of a record *)

Lemma accepted_prefix_range : forall input hextets p,
  IPv6Parser.parseIPv6String input = IPv6Parser.valid hextets p ->
  0 <= p <= 128.
Proof.
  intros input hextets p. unfold IPv6Parser.parseIPv6String.
  assert (Hany : forall address q,
    IPv6Parser.parseAddress address q = IPv6Parser.valid hextets p -> p = q).
  { intros address q H.
    destruct (parseAddress_any_prefix address) as [[m Hm] | [h Hh]].
    - rewrite Hm in H. discriminate H.
    - rewrite Hh in H. now inversion H. }
  destruct (IPv6Parser.prefixMatch input) as [[address digits]|].
  - destruct ((decimalValue digits <? 0) || (128 <? decimalValue digits))
      eqn:E; [discriminate|].
    intros H. apply Hany in H. subst p.
    apply orb_false_iff in E as [E1 E2].
    apply Z.ltb_ge in E1, E2. lia.
  - intros H. apply Hany in H. lia.
Qed.

Lemma networkWords_idem : forall w p, 0 <= p <= 128 ->
  networkWords (networkWords w p) p = networkWords w p.
Proof.
  intros w p Hp. destruct (rem_mod_prefix p Hp) as (_ & _ & Hr).
  unfold networkWords. rewrite maskFrom_compose.
  apply maskFrom_ext. intros x _. apply keepBits_idem. lia.
Qed.

Lemma lastWords_network : forall w p, 0 <= p <= 128 ->
  lastWords (networkWords w p) p = lastWords w p.
Proof.
  intros w p Hp. destruct (rem_mod_prefix p Hp) as (_ & _ & Hr).
  unfold lastWords, networkWords. rewrite maskFrom_compose.
  apply maskFrom_ext. intros x _. cbv beta. now rewrite keepBits_idem by lia.
Qed.

(** X22.  The network address of a record is itself a network: when an
    input is accepted with words in [0, 0xffff], parsing the
    [networkAddress] field of its record gives a valid record with the same
    prefix length, the same network address and the same first and last
    addresses, and whose own address is the first address. *)
Theorem network_address_stable : forall (host : Host) (input : string)
    (w : list Z),
  word128 input = Some (map Num w) ->
  Forall (fun z => 0 <= z <= 0xffff) w ->
  let record := IPv6Parser.parse input in
  let network := IPv6Parser.parse (IPv6Address.networkAddress record) in
  IPv6Address.isValid network = true
  /\ IPv6Address.prefixLength network = IPv6Address.prefixLength record
  /\ IPv6Address.networkAddress network = IPv6Address.networkAddress record
  /\ IPv6Address.firstAddress network = IPv6Address.firstAddress record
  /\ IPv6Address.lastAddress network = IPv6Address.lastAddress record
  /\ IPv6Address.compressed network = IPv6Address.firstAddress record.
Proof.
  intros host input w Hin Hws. cbv zeta.
  destruct (word128_parsed input w Hin) as (p & Hparsed & Hlen).
  assert (Hw : Spec.Word128 w) by now split.
  pose proof (accepted_prefix_range _ _ _ Hparsed) as Hp.
  pose proof (networkWords_word128 w p Hw Hp) as Hn.
  pose proof (parse_derived input w p Hparsed Hlen) as S1.
  rewrite (@derived_networkAddress _ _ _ _ S1), (@derived_prefixLength _ _ _ _ S1),
    (@derived_firstAddress _ _ _ _ S1), (@derived_lastAddress _ _ _ _ S1).
  rewrite getNetworkAddress_words, getAddressRange_words by assumption.
  cbn [fst snd].
  destruct (parse_rendered_with_prefix _ _ p
              (compressed_rendered _ Hn) Hp) as [Htrim Hagain].
  rewrite <- Htrim in Hagain.
  pose proof (parse_derived _ _ _ Hagain (proj1 Hn)) as S2.
  rewrite (@derived_networkAddress _ _ _ _ S2), (@derived_prefixLength _ _ _ _ S2),
    (@derived_firstAddress _ _ _ _ S2), (@derived_lastAddress _ _ _ _ S2),
    (@derived_compressed _ _ _ _ S2), (@derived_valid _ _ _ _ S2).
  rewrite getNetworkAddress_words, getAddressRange_words by assumption.
  cbn [fst snd].
  rewrite networkWords_idem, lastWords_network by assumption.
  now repeat split.
Qed.

Lemma network_address_stable_witness :
  IPv6Address.isValid
    (IPv6Parser.parse (host := sampleHost)
       (IPv6Address.networkAddress
          (IPv6Parser.parse (host := sampleHost) "2001:db8:abcd:ef01::1/36")))
  = true.
Proof.
  assert (Hin : word128 "2001:db8:abcd:ef01::1/36"
                = Some (map Num [0x2001; 0xdb8; 0xabcd; 0xef01; 0; 0; 0; 1]))
    by reflexivity.
  assert (Hws : Forall (fun z => 0 <= z <= 0xffff)
                  [0x2001; 0xdb8; 0xabcd; 0xef01; 0; 0; 0; 1])
    by (repeat constructor; lia).
  exact (proj1 (network_address_stable sampleHost _ _ Hin Hws)).
Defined.

(** ** The outcome of the planner *)

Section Outcomes.
Context {host : Host}.

Lemma bare_address_prefix : forall input,
  IPv6Parser.prefixMatch (trim input) = None ->
  IPv6Address.isValid (IPv6Parser.parse input) = true ->
  IPv6Address.prefixLength (IPv6Parser.parse input) = 128.
Proof.
  intros input Hbare Hvalid.
  destruct (parseIPv6String_cases (trim input))
    as [(m & _ & E) | (hextets & p & Hlen & E)].
  - unfold IPv6Parser.parse, IPv6Parser.parseTry in Hvalid.
    rewrite E in Hvalid. discriminate Hvalid.
  - assert (Hp : p = 128).
    { unfold IPv6Parser.parseIPv6String in E. rewrite Hbare in E.
      destruct (parseAddress_any_prefix (trim input)) as [[m Hm] | [h Hh]].
      - rewrite Hm in E. discriminate E.
      - rewrite Hh in E. now inversion E. }
    subst p.
    unfold IPv6Parser.parse, IPv6Parser.parseTry in *. rewrite E in *.
    cbv beta iota zeta delta [IPv6Parser.valid ParsedIPv6.isValid
      ParsedIPv6.hextets ParsedIPv6.prefixLength negb] in *.
    destruct (IPv6Parser.getAddressRange hextets 128) as [first last].
    destruct (IPv6Parser.toInteger hextets) as [text|m];
      [|discriminate Hvalid].
    destruct (IPv6Parser.isEUI64 hextets) as [b|m]; [|discriminate Hvalid].
    reflexivity.
Qed.

End Outcomes.

(** The subnets to generate fit an array when the limit is absent or 0
    exactly when there are fewer than 32 subnet bits. *)
Lemma total_fits_array : forall bits, 0 <= bits ->
  (2 ^ bits <= maxArrayLength <-> bits < 32).
Proof.
  intros bits Hbits. unfold maxArrayLength. split.
  - intros Hle. destruct (Z.lt_ge_cases bits 32) as [Hlt|Hge]; [exact Hlt|].
    pose proof (Z.pow_le_mono_r 2 32 bits) as Hmono. lia.
  - intros Hlt. pose proof (Z.pow_le_mono_r 2 bits 31) as Hmono.
    change (2 ^ 31) with 2147483648 in Hmono.
    change (2 ^ 32) with 4294967296. lia.
Qed.

(** X23.  The planner returns a plan exactly when the prefix is valid, the
    target prefix length is longer than the prefix length and at most 128,
    and the subnets to generate are no more than an array can hold, which
    with an absent or zero limit means fewer than 32 subnet bits; otherwise
    it throws, the validity of the prefix being judged first, the lower
    bound before the upper bound, and the array last.  A prefix written
    without a prefix length counts as a /128, so that no target is accepted
    for it. *)
Theorem plan_outcome : forall (host : Host) (prefix : string) (t : Z)
    (count : option Z),
  let parsed := IPv6Parser.parse prefix in
  let p := IPv6Address.prefixLength parsed in
  let total := 2 ^ (t - p) in
  let generated :=
    match count with
    | Some c => if c =? 0 then total else Z.min c total
    | None => total
    end in
  let outcome := IPv6Subnetting.calculateSubnets prefix t count in
  ((exists plan, outcome = Normal plan)
   <-> IPv6Address.isValid parsed = true /\ p < t <= 128
       /\ generated <= maxArrayLength)
  /\ (count = None \/ count = Some 0 ->
      ((exists plan, outcome = Normal plan)
       <-> IPv6Address.isValid parsed = true /\ p < t <= 128 /\ t - p < 32))
  /\ (IPv6Address.isValid parsed = false ->
      outcome = Throw "Invalid IPv6 prefix")
  /\ (IPv6Address.isValid parsed = true -> t <= p ->
      outcome
      = Throw "Target prefix length must be longer than current prefix")
  /\ (IPv6Address.isValid parsed = true -> p < t -> 128 < t ->
      outcome = Throw "Target prefix length cannot exceed 128")
  /\ (IPv6Address.isValid parsed = true -> p < t <= 128 ->
      maxArrayLength < generated -> outcome = Throw arrayLengthError)
  /\ (IPv6Parser.prefixMatch (trim prefix) = None ->
      exists message, outcome = Throw message).
Proof.
  intros host prefix t count. cbv zeta.
  pose proof (bare_address_prefix prefix) as Hbare.
  pose proof (subnets_generated prefix t count) as Hplan.
  pose proof (subnets_overflow prefix t count) as Hover.
  cbv zeta in Hplan, Hover.
  set (parsed := IPv6Parser.parse prefix) in *.
  set (p := IPv6Address.prefixLength parsed) in *.
  set (generated :=
         match count with
         | Some c => if c =? 0 then 2 ^ (t - p) else Z.min c (2 ^ (t - p))
         | None => 2 ^ (t - p)
         end) in *.
  set (outcome := IPv6Subnetting.calculateSubnets prefix t count) in *.
  assert (Hcases :
    (IPv6Address.isValid parsed = false
     /\ outcome = Throw "Invalid IPv6 prefix")
    \/ (IPv6Address.isValid parsed = true /\ t <= p
        /\ outcome
           = Throw "Target prefix length must be longer than current prefix")
    \/ (IPv6Address.isValid parsed = true /\ p < t /\ 128 < t
        /\ outcome = Throw "Target prefix length cannot exceed 128")
    \/ (IPv6Address.isValid parsed = true /\ p < t <= 128
        /\ maxArrayLength < generated
        /\ outcome = Throw arrayLengthError)
    \/ (IPv6Address.isValid parsed = true /\ p < t <= 128
        /\ generated <= maxArrayLength
        /\ exists plan, outcome = Normal plan)).
  { destruct (IPv6Address.isValid parsed) eqn:Hv.
    - right.
      destruct (Z.le_gt_cases t p) as [Hle|Hgt].
      + left. repeat split; [exact Hle|].
        unfold outcome, IPv6Subnetting.calculateSubnets. fold parsed.
        rewrite Hv. cbn [negb]. fold p.
        now replace (t <=? p) with true by (symmetry; apply Z.leb_le; lia).
      + right. destruct (Z.le_gt_cases t 128) as [Hsmall|Hbig].
        * right.
          destruct (Z.le_gt_cases generated maxArrayLength) as [Hfits|Hfull].
          -- right. repeat split; try lia.
             eexists. apply Hplan; [reflexivity | lia | exact Hfits].
          -- left. repeat split; try lia.
             apply Hover; [reflexivity | lia | exact Hfull].
        * left. repeat split; try lia.
          unfold outcome, IPv6Subnetting.calculateSubnets. fold parsed.
          rewrite Hv. cbn [negb]. fold p.
          replace (t <=? p) with false by (symmetry; apply Z.leb_gt; lia).
          now replace (128 <? t) with true by (symmetry; apply Z.ltb_lt; lia).
    - left. split; [reflexivity|].
      unfold outcome, IPv6Subnetting.calculateSubnets. fold parsed.
      now rewrite Hv. }
  clearbody outcome. clear Hplan Hover.
  assert (Hiff : (exists plan, outcome = Normal plan)
                 <-> IPv6Address.isValid parsed = true /\ p < t <= 128
                     /\ generated <= maxArrayLength).
  { split.
    - intros [plan Hplan].
      destruct Hcases
        as [(Hv & E) | [(Hv & Hle & E) | [(Hv & Hlt & Hbig & E)
           | [(Hv & Hpt & Hfull & E) | (Hv & Hpt & Hfits & _)]]]];
        try (rewrite E in Hplan; discriminate Hplan).
      repeat split; (assumption || lia).
    - intros (Hv & Hpt & Hfits).
      destruct Hcases
        as [(Hv' & E) | [(_ & Hle & E) | [(_ & Hlt & Hbig & E)
           | [(_ & _ & Hfull & E) | (_ & _ & _ & Hplan)]]]];
        try congruence; try lia; try exact Hplan. }
  split; [exact Hiff|].
  split.
  { intros Hc. rewrite Hiff.
    assert (Hbits : p < t -> (generated <= maxArrayLength <-> t - p < 32)).
    { intros Hpt. unfold generated.
      destruct Hc as [-> | ->]; cbn [Z.eqb]; apply total_fits_array; lia. }
    split; intros (Hv & Hpt & H); repeat split; try assumption; try lia;
      apply Hbits; (assumption || lia). }
  destruct Hcases
    as [(Hv & E) | [(Hv & Hle & E) | [(Hv & Hlt & Hbig & E)
       | [(Hv & Hpt & Hfull & E) | (Hv & Hpt & Hfits & plan & E)]]]];
    (repeat split; intros; try congruence; try lia; try exact E;
     try (eexists; exact E)).
  exfalso. rewrite Hbare in Hpt by assumption. lia.
Qed.

(** ** Subnet bits within one word *)

(** The words of a value: [ofValue] undoes [toValue]. *)
Lemma words_of_value : forall l acc,
  Forall (fun z => 0 <= z <= 0xffff) l ->
  map (fun k =>
         fold_left (fun a h => a * 65536 + h) l acc
         / 65536 ^ Z.of_nat (List.length l - 1 - k) mod 65536)
      (seq 0 (List.length l))
  = l.
Proof.
  induction l as [|x l IH]; intros acc Hl; [reflexivity|].
  inversion Hl as [|? ? Hx Hrest]; subst.
  change (List.length (x :: l)) with (S (List.length l)).
  cbn [seq map fold_left]. f_equal.
  - replace (S (List.length l) - 1 - 0)%nat with (List.length l) by lia.
    rewrite toValue_from.
    pose proof (toValue_range l Hrest) as HB.
    assert (HE : 0 < 65536 ^ Z.of_nat (List.length l))
      by (apply Z.pow_pos_nonneg; lia).
    rewrite Z.div_add_l by lia. rewrite Z.div_small by lia.
    rewrite Z.add_0_r, Z.add_comm, Z.mod_add by lia.
    apply Z.mod_small. lia.
  - rewrite <- seq_shift, map_map.
    rewrite <- (IH (acc * 65536 + x) Hrest) at 2.
    apply map_ext_in. intros k Hk. apply in_seq in Hk.
    do 3 f_equal. lia.
Qed.

Lemma ofValue_toValue : forall l, Spec.Word128 l ->
  Spec.ofValue (Spec.toValue l) = l.
Proof.
  intros l [Hlen Hl]. unfold Spec.ofValue, Spec.toValue.
  pose proof (words_of_value l 0 Hl) as Hwords. rewrite Hlen in Hwords.
  etransitivity; [|exact Hwords].
  apply map_ext_in. intros k Hk. apply in_seq in Hk.
  do 2 f_equal. change 65536 with (2 ^ 16).
  rewrite <- Z.pow_mul_r by lia. f_equal. lia.
Qed.

Lemma shl_small : forall a k, 0 <= a -> 0 <= k <= 31 -> a * 2 ^ k < 2 ^ 31 ->
  shl a k = a * 2 ^ k.
Proof.
  intros a k Ha Hk Hlt. unfold shl.
  assert (0 < 2 ^ k) by (apply Z.pow_pos_nonneg; lia).
  assert (Hsmall : - 2 ^ 31 <= a < 2 ^ 31) by nia.
  rewrite (wrap32_small a) by assumption.
  rewrite Z.mod_small by lia. rewrite Z.shiftl_mul_pow2 by lia.
  apply wrap32_small. nia.
Qed.

(** The mask of [calculateSubnetAddress] cuts the bits [s] to [s + n) out of
    a word. *)
Lemma ldiff_field : forall x n s, 0 <= n -> 0 <= s ->
  Z.ldiff x (Z.shiftl (Z.ones n) s)
  = Z.lor (Z.shiftl (Z.shiftr x (s + n)) (s + n)) (Z.land x (Z.ones s)).
Proof.
  intros x n s Hn Hs. apply Z.bits_inj'. intros k Hk.
  rewrite Z.ldiff_spec, Z.lor_spec, Z.land_spec.
  destruct (Z.lt_ge_cases k s) as [Hlow|Hge].
  - rewrite !Z.shiftl_spec_low by lia.
    rewrite Z.ones_spec_low by lia. cbn. now rewrite andb_true_r.
  - rewrite (Z.shiftl_spec (Z.ones n)) by lia.
    rewrite (Z.ones_spec_high s) by lia. rewrite andb_false_r, orb_false_r.
    destruct (Z.lt_ge_cases k (s + n)) as [Hmid|Hhigh].
    + rewrite Z.ones_spec_low by lia.
      rewrite Z.shiftl_spec_low by lia. apply andb_false_r.
    + rewrite Z.ones_spec_high by lia.
      rewrite Z.shiftl_spec by lia. rewrite Z.shiftr_spec by lia.
      replace (k - (s + n) + (s + n)) with k by lia.
      apply andb_true_r.
Qed.

(** One turn of the loop of [calculateSubnetAddress] that takes all the
    subnet bits: the index goes into the bits below the first [r] bits of
    the word. *)
Lemma write_word : forall x i r n,
  0 <= r -> 1 <= n -> r + n <= 16 -> 0 <= x <= 0xffff -> 0 <= i < 2 ^ n ->
  bor (band (ToInt32 (Num x)) (bnot (shl (shl 1 n - 1) (16 - r - n))))
      (shl (band (sar i 0) (shl 1 n - 1)) (16 - r - n))
  = keepBits r x + i * 2 ^ (16 - r - n) + x mod 2 ^ (16 - r - n).
Proof.
  intros x i r n Hr Hn Hrn Hx Hi.
  set (s := 16 - r - n).
  assert (Hs : 0 <= s <= 15) by (unfold s; lia).
  assert (HS : 0 < 2 ^ s) by (apply Z.pow_pos_nonneg; lia).
  assert (HN : 0 < 2 ^ n) by (apply Z.pow_pos_nonneg; lia).
  assert (Hsn : 2 ^ n * 2 ^ s <= 65536).
  { rewrite <- Z.pow_add_r by lia. change 65536 with (2 ^ 16).
    apply Z.pow_le_mono_r; lia. }
  assert (HN16 : 2 ^ n <= 65536) by nia.
  rewrite shl_one by lia.
  rewrite (shl_small (2 ^ n - 1) s)
    by (try lia; change (2 ^ 31) with 2147483648; nia).
  assert (Hpart : band (sar i 0) (2 ^ n - 1) = i).
  { unfold band, sar. change (0 mod 32) with 0. rewrite Z.shiftr_0_r.
    rewrite !(wrap32_small i) by (change (2 ^ 31) with 2147483648; lia).
    rewrite wrap32_small by (change (2 ^ 31) with 2147483648; lia).
    replace (2 ^ n - 1) with (Z.ones n)
      by (rewrite Z.ones_equiv; unfold Z.pred; lia).
    rewrite Z.land_ones by lia. apply Z.mod_small. lia. }
  rewrite Hpart.
  rewrite (shl_small i s) by (try lia; change (2 ^ 31) with 2147483648; nia).
  assert (Hmask : (2 ^ n - 1) * 2 ^ s = Z.shiftl (Z.ones n) s)
    by (rewrite Z.shiftl_mul_pow2, Z.ones_equiv by lia; unfold Z.pred; lia).
  assert (Hlow : Z.land x (Z.ones s) = x mod 2 ^ s)
    by (apply Z.land_ones; lia).
  pose proof (Z.mod_pos_bound x (2 ^ s) HS) as Hm.
  assert (Hcut : band (ToInt32 (Num x)) (bnot ((2 ^ n - 1) * 2 ^ s))
                 = Z.lor (Z.shiftl (Z.shiftr x (s + n)) (s + n))
                         (x mod 2 ^ s)).
  { unfold band, bnot, ToInt32.
    rewrite !(wrap32_small x) by (change (2 ^ 31) with 2147483648; lia).
    rewrite (wrap32_small ((2 ^ n - 1) * 2 ^ s))
      by (change (2 ^ 31) with 2147483648; nia).
    rewrite wrap32_small
      by (unfold Z.lnot, Z.pred; change (2 ^ 31) with 2147483648; nia).
    rewrite <- Z.ldiff_land, Hmask, ldiff_field, Hlow by lia.
    reflexivity. }
  rewrite Hcut.
  assert (Hkeep : Z.shiftl (Z.shiftr x (s + n)) (s + n) = keepBits r x)
    by (replace (s + n) with (16 - r) by (unfold s; lia);
        symmetry; apply keepBits_shift; lia).
  pose proof (keepBits_bounds r x ltac:(lia) Hx) as Hk.
  assert (Hsum : Z.lor (Z.lor (Z.shiftl (Z.shiftr x (s + n)) (s + n))
                              (x mod 2 ^ s)) (i * 2 ^ s)
                 = keepBits r x + i * 2 ^ s + x mod 2 ^ s).
  { rewrite <- Z.lor_assoc, (Z.lor_comm (x mod 2 ^ s)).
    replace (i * 2 ^ s) with (Z.shiftl i s)
      by (rewrite Z.shiftl_mul_pow2 by lia; reflexivity).
    rewrite (lor_shiftl_add i) by lia.
    rewrite lor_shiftl_add.
    - rewrite <- (Z.shiftl_mul_pow2 (Z.shiftr x (s + n)) (s + n)) by lia.
      rewrite Hkeep, (Z.shiftl_mul_pow2 i s) by lia. lia.
    - lia.
    - rewrite Z.pow_add_r by lia. nia. }
  unfold bor.
  rewrite (wrap32_small (i * 2 ^ s)) by (change (2 ^ 31) with 2147483648; nia).
  rewrite wrap32_small; [exact Hsum|].
  rewrite lor_shiftl_add; [|lia|].
  - rewrite <- (Z.shiftl_mul_pow2 (Z.shiftr x (s + n)) (s + n)) by lia.
    rewrite Hkeep. change (2 ^ 31) with 2147483648. nia.
  - assert (2 ^ s <= 2 ^ (s + n)) by (apply Z.pow_le_mono_r; lia). lia.
Qed.

Lemma writeSubnetBits_done : forall steps q r i current result,
  IPv6Subnetting.writeSubnetBits steps q r i 0 current result = result.
Proof. intros [|steps]; reflexivity. Qed.

Lemma update_words : forall ws k v, (k < List.length ws)%nat ->
  update (map Num ws) k (Num v)
  = map Num (firstn k ws ++ v :: skipn (S k) ws).
Proof.
  induction ws as [|x ws IH]; intros k v Hk; [cbn in Hk; lia|].
  destruct k as [|k]; [reflexivity|].
  cbn [map update firstn skipn app]. rewrite IH by (cbn in Hk; lia).
  reflexivity.
Qed.

Lemma set_words : forall ws q v, 0 <= q < Z.of_nat (List.length ws) ->
  set (map Num ws) q (Num v)
  = map Num (firstn (Z.to_nat q) ws ++ v :: skipn (S (Z.to_nat q)) ws).
Proof.
  intros ws q v Hq. unfold set. cbv zeta. rewrite length_map.
  replace (Z.to_nat q <? List.length ws)%nat with true
    by (symmetry; apply Nat.ltb_lt; lia).
  apply update_words. lia.
Qed.

(** When the subnet bits end within the word that holds the first of them,
    the loop takes one turn and changes that word only. *)
Lemma calculateSubnetAddress_one_word : forall w p t i,
  Spec.Word128 w -> 0 <= p -> p < t <= 128 ->
  p mod 16 + (t - p) <= 16 -> 0 <= i < 2 ^ (t - p) ->
  let q := Z.to_nat (p / 16) in
  let x := nth q w 0 in
  let s := 16 - p mod 16 - (t - p) in
  IPv6Subnetting.calculateSubnetAddress (map Num w) p t i
  = map Num (firstn q w
             ++ (keepBits (p mod 16) x + i * 2 ^ s + x mod 2 ^ s)
             :: skipn (S q) w).
Proof.
  intros w p t i [Hlen Hws] Hp0 Hpt Hfit Hi. cbv zeta.
  destruct (rem_mod_prefix p ltac:(lia)) as (Hrem & Hq & Hr).
  assert (Hq7 : p / 16 <= 7).
  { pose proof (Z.div_mod p 16 ltac:(lia)). lia. }
  unfold IPv6Subnetting.calculateSubnetAddress. cbv zeta. rewrite Hrem.
  destruct (Z.to_nat (8 - p / 16)) as [|steps] eqn:Esteps; [lia|].
  cbn [IPv6Subnetting.writeSubnetBits].
  replace (0 <? t - p) with true by (symmetry; apply Z.ltb_lt; lia).
  replace (p / 16 <? 8) with true by (symmetry; apply Z.ltb_lt; lia).
  rewrite Z.eqb_refl. cbn [andb]. cbv zeta.
  rewrite Z.min_l by lia.
  replace (t - p - (t - p)) with 0 by lia.
  rewrite writeSubnetBits_done.
  rewrite get_words by lia.
  assert (Hx : 0 <= nth (Z.to_nat (p / 16)) w 0 <= 0xffff).
  { apply (proj1 (Forall_forall _ _) Hws). apply nth_In. lia. }
  rewrite write_word by lia.
  apply set_words. lia.
Qed.

Lemma nth_split_at : forall (l : list Z) q, (q < List.length l)%nat ->
  l = firstn q l ++ nth q l 0 :: skipn (S q) l.
Proof.
  induction l as [|x l IH]; intros q Hq; [cbn in Hq; lia|].
  destruct q as [|q]; [reflexivity|].
  cbn [firstn nth skipn app]. f_equal. apply IH. cbn in Hq. lia.
Qed.

Lemma mod_block : forall P x B E s,
  0 <= s <= 16 -> 0 <= x -> 0 < E -> 0 <= B < E ->
  ((P * 65536 + x) * E + B) mod (2 ^ s * E) = x mod 2 ^ s * E + B.
Proof.
  intros P x B E s Hs Hx HE HB.
  assert (HS : 0 < 2 ^ s) by (apply Z.pow_pos_nonneg; lia).
  pose proof (floor_block P x B E (16 - s) ltac:(lia) Hx HE HB) as Hf.
  unfold keepBits in Hf. replace (16 - (16 - s)) with s in Hf by lia.
  pose proof (Z.div_mod ((P * 65536 + x) * E + B) (2 ^ s * E) ltac:(nia))
    as Hd.
  pose proof (Z.div_mod x (2 ^ s) ltac:(lia)) as Hdx.
  nia.
Qed.

Lemma calculateSubnetAddress_writeBits : forall (w : list Z) (p t i : Z),
  Spec.Word128 w -> 0 <= p -> p < t <= 128 ->
  p mod 16 + (t - p) <= 16 -> 0 <= i < 2 ^ (t - p) ->
  IPv6Subnetting.calculateSubnetAddress (map Num w) p t i
  = map Num (Spec.writeBits w p t i).
Proof.
  intros w p t i Hw Hp0 Hpt Hfit Hi.
  rewrite calculateSubnetAddress_one_word by assumption. cbv zeta. f_equal.
  destruct Hw as [Hlen Hws].
  destruct (rem_mod_prefix p ltac:(lia)) as (_ & Hq & Hr).
  assert (Hq7 : p / 16 <= 7)
    by (pose proof (Z.div_mod p 16 ltac:(lia)); lia).
  set (q := Z.to_nat (p / 16)). set (x := nth q w 0).
  set (s := 16 - p mod 16 - (t - p)).
  set (new := keepBits (p mod 16) x + i * 2 ^ s + x mod 2 ^ s).
  assert (Hqlen : (q < List.length w)%nat) by (unfold q; lia).
  pose proof (nth_split_at w q Hqlen) as Hsplit. fold x in Hsplit.
  assert (Hx : 0 <= x <= 0xffff)
    by (apply (proj1 (Forall_forall _ _) Hws); apply nth_In; exact Hqlen).
  assert (Hrest : Forall (fun z => 0 <= z <= 0xffff) (skipn (S q) w))
    by now apply Forall_skipn.
  assert (Hn : Z.of_nat (List.length (skipn (S q) w)) = 7 - p / 16)
    by (rewrite length_skipn; unfold q; lia).
  assert (Hs : 0 <= s <= 15) by (unfold s; lia).
  assert (HS : 0 < 2 ^ s) by (apply Z.pow_pos_nonneg; lia).
  assert (HN : 0 < 2 ^ (t - p)) by (apply Z.pow_pos_nonneg; lia).
  assert (HT : 2 ^ (t - p) * 2 ^ s = 2 ^ (16 - p mod 16))
    by (rewrite <- Z.pow_add_r by lia; f_equal; unfold s; lia).
  pose proof (keepBits_bounds (p mod 16) x ltac:(lia) Hx) as Hk.
  pose proof (Z.mod_pos_bound x (2 ^ s) HS) as Hm.
  assert (Hnew : 0 <= new <= 0xffff).
  { unfold new. split; [nia|].
    assert (Hd : x / 2 ^ (16 - p mod 16) * 2 ^ (16 - p mod 16)
                 + 2 ^ (16 - p mod 16) <= 65536).
    { assert (Hpow : 2 ^ (p mod 16) * 2 ^ (16 - p mod 16) = 65536)
        by (rewrite <- Z.pow_add_r by lia;
            replace (p mod 16 + (16 - p mod 16)) with 16 by lia; reflexivity).
      assert (x / 2 ^ (16 - p mod 16) < 2 ^ (p mod 16)).
      { apply Z.div_lt_upper_bound; [lia|]. rewrite Z.mul_comm, Hpow. lia. }
      nia. }
    unfold keepBits in *. nia. }
  assert (Hword : Spec.Word128 (firstn q w ++ new :: skipn (S q) w)).
  { split.
    - rewrite length_app. cbn [List.length].
      rewrite length_firstn, length_skipn. lia.
    - apply Forall_app. split; [now apply Forall_firstn|].
      constructor; assumption. }
  rewrite <- (ofValue_toValue _ Hword). unfold Spec.writeBits. cbv zeta.
  f_equal.
  pose proof (toValue_range _ Hrest) as HB.
  assert (HE : 0 < 65536 ^ Z.of_nat (List.length (skipn (S q) w)))
    by (apply Z.pow_pos_nonneg; lia).
  rewrite (Z.mod_small i) by lia.
  rewrite (block_size p _ ltac:(lia) Hn).
  assert (Ht : 2 ^ (128 - t)
               = 2 ^ s * 65536 ^ Z.of_nat (List.length (skipn (S q) w))).
  { rewrite Hn. change 65536 with (2 ^ 16).
    rewrite <- Z.pow_mul_r, <- Z.pow_add_r by lia.
    f_equal. unfold s. pose proof (Z.div_mod p 16 ltac:(lia)). lia. }
  rewrite Ht.
  set (En := 65536 ^ Z.of_nat (List.length (skipn (S q) w))) in *.
  set (P := Spec.toValue (firstn q w)).
  set (B := Spec.toValue (skipn (S q) w)) in *.
  assert (HV : Spec.toValue w = (P * 65536 + x) * En + B).
  { rewrite Hsplit at 1. rewrite toValue_app, toValue_cons.
    cbn [List.length]. rewrite Nat2Z.inj_succ, Z.pow_succ_r by lia.
    fold En P B. ring. }
  rewrite HV, floor_block, mod_block by lia.
  rewrite toValue_app, toValue_cons.
  cbn [List.length]. rewrite Nat2Z.inj_succ, Z.pow_succ_r by lia.
  fold En P B. unfold new. ring.
Qed.

(** X24.  When the subnet bits end within the word that holds the first of
    them, that is when [p mod 16 + (t - p) <= 16], the planner writes the
    index as the specification says: into the bit positions from [p] to [t],
    the bits outside kept. *)
Theorem subnet_write_within_word : forall (w : list Z) (p t i : Z),
  Spec.Word128 w -> 0 <= p -> p < t <= 128 ->
  p mod 16 + (t - p) <= 16 -> 0 <= i < 2 ^ (t - p) ->
  IPv6Subnetting.calculateSubnetAddress (map Num w) p t i
  = map Num (Spec.writeBits w p t i).
Proof. exact calculateSubnetAddress_writeBits. Qed.

Lemma subnet_write_within_word_witness :
  IPv6Subnetting.calculateSubnetAddress
    (map Num [0x2001; 0xdb8; 0; 0; 0; 0; 0; 0]) 36 44 0xab
  = map Num (Spec.writeBits [0x2001; 0xdb8; 0; 0; 0; 0; 0; 0] 36 44 0xab).
Proof.
  assert (Hw : Spec.Word128 [0x2001; 0xdb8; 0; 0; 0; 0; 0; 0])
    by (split; [reflexivity | repeat constructor; lia]).
  assert (Hp0 : 0 <= 36) by lia.
  assert (Hpt : 36 < 44 <= 128) by lia.
  assert (Hfit : 36 mod 16 + (44 - 36) <= 16) by (vm_compute; discriminate).
  assert (Hi : 0 <= 0xab < 2 ^ (44 - 36)) by (vm_compute; split; [discriminate | reflexivity]).
  exact (subnet_write_within_word _ 36 44 0xab Hw Hp0 Hpt Hfit Hi).
Defined.




(** ** The common prefix of two addresses *)

Lemma land_bit : forall z b, 0 <= b ->
  Z.land z (2 ^ b) = if Z.testbit z b then 2 ^ b else 0.
Proof.
  intros z b Hb. apply Z.bits_inj'. intros k Hk.
  rewrite Z.land_spec, Z.pow2_bits_eqb by lia.
  destruct (Z.eqb_spec b k) as [->|Hne].
  - destruct (Z.testbit z k) eqn:E.
    + now rewrite Z.pow2_bits_true.
    + now rewrite Z.bits_0.
  - rewrite andb_false_r.
    destruct (Z.testbit z b).
    + now rewrite Z.pow2_bits_false.
    + now rewrite Z.bits_0.
Qed.

Lemma band_bit : forall z b, 0 <= z <= 0xffff -> 0 <= b <= 15 ->
  (band z (shl 1 b) =? 0) = negb (Z.testbit z b).
Proof.
  intros z b Hz Hb. rewrite shl_one by lia. unfold band.
  assert (0 < 2 ^ b) by (apply Z.pow_pos_nonneg; lia).
  assert (2 ^ b <= 2 ^ 15) by (apply Z.pow_le_mono_r; lia).
  rewrite !wrap32_small
    by (change (2 ^ 31) with 2147483648; change (2 ^ 15) with 32768 in *; lia).
  rewrite land_bit by lia.
  destruct (Z.testbit z b); [|reflexivity].
  apply Z.eqb_neq. lia.
Qed.

(** The inner loop counts the zero bits above the highest set bit. *)
Lemma countLeadingZeros_log2 : forall z, 0 < z <= 0xffff ->
  IPv6Subnetting.countLeadingZeros IPv6Subnetting.bitsDown z 0
  = 15 - Z.log2 z.
Proof.
  intros z Hz.
  assert (Hlog : 0 <= Z.log2 z < 16).
  { split; [apply Z.log2_nonneg|].
    apply Z.log2_lt_pow2; [lia|]. change (2 ^ 16) with 65536. lia. }
  pose proof (Z.bit_log2 z ltac:(lia)) as Hset.
  assert (Habove : forall k, Z.log2 z < k -> Z.testbit z k = false)
    by (intros k Hk; now apply Z.bits_above_log2; lia).
  assert (Hcases : Z.log2 z = 0 \/ Z.log2 z = 1 \/ Z.log2 z = 2
                   \/ Z.log2 z = 3 \/ Z.log2 z = 4 \/ Z.log2 z = 5
                   \/ Z.log2 z = 6 \/ Z.log2 z = 7 \/ Z.log2 z = 8
                   \/ Z.log2 z = 9 \/ Z.log2 z = 10 \/ Z.log2 z = 11
                   \/ Z.log2 z = 12 \/ Z.log2 z = 13 \/ Z.log2 z = 14
                   \/ Z.log2 z = 15) by lia.
  unfold IPv6Subnetting.bitsDown.
  repeat (destruct Hcases as [E|Hcases]; [
    rewrite E in *;
    repeat (cbn [IPv6Subnetting.countLeadingZeros];
            rewrite band_bit by lia;
            first [rewrite Hset | rewrite Habove by lia];
            cbn [negb]);
    reflexivity |]).
  rewrite Hcases in *.
  cbn [IPv6Subnetting.countLeadingZeros]. rewrite band_bit by lia.
  rewrite Hset. reflexivity.
Qed.

Lemma lxor_words : forall x y,
  0 <= x <= 0xffff -> 0 <= y <= 0xffff ->
  bxor (ToInt32 (Num x)) (ToInt32 (Num y)) = Z.lxor x y
  /\ 0 <= Z.lxor x y <= 0xffff.
Proof.
  intros x y Hx Hy. unfold bxor, ToInt32.
  rewrite !wrap32_small by
    (rewrite ?wrap32_small; change (2 ^ 31) with 2147483648; lia).
  split; [reflexivity|].
  assert (Hnn : 0 <= Z.lxor x y) by (apply Z.lxor_nonneg; lia).
  split; [exact Hnn|].
  destruct (Z.eq_dec (Z.lxor x y) 0) as [->|Hne]; [lia|].
  assert (Hl : Z.log2 (Z.lxor x y) < 16).
  { eapply Z.le_lt_trans; [apply Z.log2_lxor; lia|].
    apply Z.max_lub_lt.
    - destruct (Z.eq_dec x 0) as [->|]; [reflexivity|].
      apply Z.log2_lt_pow2; [lia|]. change (2 ^ 16) with 65536. lia.
    - destruct (Z.eq_dec y 0) as [->|]; [reflexivity|].
      apply Z.log2_lt_pow2; [lia|]. change (2 ^ 16) with 65536. lia. }
  apply Z.log2_lt_pow2 in Hl; [|lia]. change (2 ^ 16) with 65536 in Hl. lia.
Qed.

(** Two different words agree on their first [15 - log2 (x xor y)] bits and
    on no more. *)
Lemma differing_words : forall x y,
  0 <= x <= 0xffff -> 0 <= y <= 0xffff -> x <> y ->
  let c := 15 - Z.log2 (Z.lxor x y) in
  0 <= c <= 15
  /\ keepBits c x = keepBits c y
  /\ keepBits (c + 1) x <> keepBits (c + 1) y.
Proof.
  intros x y Hx Hy Hne. cbv zeta.
  destruct (lxor_words x y Hx Hy) as [_ Hz].
  assert (Hz0 : Z.lxor x y <> 0) by (rewrite Z.lxor_eq_0_iff; exact Hne).
  set (L := Z.log2 (Z.lxor x y)).
  assert (HL : 0 <= L < 16).
  { split; [apply Z.log2_nonneg|].
    apply Z.log2_lt_pow2; [lia|]. change (2 ^ 16) with 65536. lia. }
  split; [lia|]. rewrite !keepBits_shift by lia.
  replace (16 - (15 - L)) with (L + 1) by lia.
  replace (16 - (15 - L + 1)) with L by lia.
  split.
  - f_equal. apply Z.lxor_eq_0_iff. rewrite <- Z.shiftr_lxor.
    apply Z.shiftr_eq_0; [lia | unfold L; lia].
  - intros E. rewrite !Z.shiftl_mul_pow2 in E by lia.
    assert (0 < 2 ^ L) by (apply Z.pow_pos_nonneg; lia).
    apply Z.mul_reg_r in E; [|lia].
    apply Z.lxor_eq_0_iff in E. rewrite <- Z.shiftr_lxor in E.
    pose proof (Z.bit_log2 (Z.lxor x y) ltac:(lia)) as Hset. fold L in Hset.
    assert (Hbit : Z.testbit (Z.shiftr (Z.lxor x y) L) 0 = true)
      by (rewrite Z.shiftr_spec by lia; exact Hset).
    rewrite E in Hbit. discriminate Hbit.
Qed.

Lemma commonBitsLoop_from : forall ra rb pa pb acc,
  List.length pa = List.length pb ->
  List.length ra = List.length rb ->
  Forall (fun z => 0 <= z <= 0xffff) ra ->
  Forall (fun z => 0 <= z <= 0xffff) rb ->
  IPv6Subnetting.commonBitsLoop
    (upTo (List.length ra) (Z.of_nat (List.length pa)))
    (map Num (pa ++ ra)) (map Num (pb ++ rb)) acc
  = acc + commonBits ra rb.
Proof.
  induction ra as [|x ra IH]; intros rb pa pb acc Hp Hr Ha Hb.
  - destruct rb; [cbn; lia | discriminate Hr].
  - destruct rb as [|y rb]; [discriminate Hr|].
    inversion Ha as [|? ? Hx Ha']; subst.
    inversion Hb as [|? ? Hy Hb']; subst.
    cbn [List.length upTo IPv6Subnetting.commonBitsLoop commonBits].
    rewrite !get_words by (rewrite length_app; cbn [List.length]; lia).
    rewrite !Nat2Z.id, !app_nth2 by lia.
    rewrite <- Hp, !Nat.sub_diag. cbn [nth].
    destruct (lxor_words x y Hx Hy) as [-> Hz].
    destruct (Z.eqb_spec x y) as [->|Hne].
    + rewrite Z.lxor_nilpotent. cbn [Z.eqb].
      replace (pa ++ y :: ra) with ((pa ++ [y]) ++ ra)
        by (rewrite <- app_assoc; reflexivity).
      replace (pb ++ y :: rb) with ((pb ++ [y]) ++ rb)
        by (rewrite <- app_assoc; reflexivity).
      replace (Z.of_nat (List.length pa) + 1)
        with (Z.of_nat (List.length (pa ++ [y])))
        by (rewrite length_app; cbn [List.length]; lia).
      rewrite IH; try assumption;
        [lia | rewrite !length_app; cbn [List.length]; lia
        | cbn [List.length] in Hr; lia].
    + assert (Hz0 : Z.lxor x y <> 0) by (rewrite Z.lxor_eq_0_iff; exact Hne).
      replace (Z.lxor x y =? 0) with false by (symmetry; now apply Z.eqb_neq).
      rewrite countLeadingZeros_log2 by lia. reflexivity.
Qed.

Lemma findCommonPrefixLength_words : forall a b,
  Spec.Word128 a -> Spec.Word128 b ->
  IPv6Subnetting.findCommonPrefixLength
    (IPv6Parser.toExpanded (map Num a)) (IPv6Parser.toExpanded (map Num b))
  = commonBits a b.
Proof.
  intros a b [Hla Ha] [Hlb Hb]. unfold IPv6Subnetting.findCommonPrefixLength.
  cbv zeta. rewrite !toExpanded_words.
  rewrite !parseHextets_expanded; try assumption;
    try (intros E; subst; discriminate).
  pose proof (commonBitsLoop_from a b [] [] 0 eq_refl ltac:(lia) Ha Hb) as H.
  rewrite Hla in H. exact H.
Qed.

Lemma networkWords_cons : forall x l p, 16 <= p ->
  networkWords (x :: l) p = x :: networkWords l (p - 16).
Proof.
  intros x l p Hp. unfold networkWords.
  replace (p / 16) with ((p - 16) / 16 + 1)
    by (replace p with ((p - 16) + 1 * 16) at 2 by lia;
        now rewrite Z.div_add by lia).
  replace (p mod 16) with ((p - 16) mod 16)
    by (replace p with ((p - 16) + 1 * 16) at 2 by lia;
        now rewrite Z.mod_add by lia).
  assert (0 <= (p - 16) / 16) by (apply Z.div_pos; lia).
  rewrite Z2Nat.inj_add by lia. rewrite Nat.add_comm. reflexivity.
Qed.

Lemma networkWords_head : forall x l p, 0 <= p < 16 ->
  networkWords (x :: l) p = keepBits p x :: map (fun _ => 0) l.
Proof.
  intros x l p Hp. unfold networkWords.
  rewrite Z.div_small, Z.mod_small by lia. reflexivity.
Qed.

(** The bits two lists of words have in common are the longest prefix under
    which their network words agree. *)
Lemma commonBits_spec : forall a b,
  List.length a = List.length b ->
  Forall (fun z => 0 <= z <= 0xffff) a ->
  Forall (fun z => 0 <= z <= 0xffff) b ->
  let n := commonBits a b in
  0 <= n <= 16 * Z.of_nat (List.length a)
  /\ networkWords a n = networkWords b n
  /\ (n < 16 * Z.of_nat (List.length a) ->
      networkWords a (n + 1) <> networkWords b (n + 1))
  /\ (n = 16 * Z.of_nat (List.length a) <-> a = b)
  /\ commonBits b a = n.
Proof.
  induction a as [|x a IH]; intros b Hlen Ha Hb; cbv zeta.
  - destruct b; [|discriminate Hlen]. cbn. repeat split; try lia; tauto.
  - destruct b as [|y b]; [discriminate Hlen|].
    inversion Ha as [|? ? Hx Ha']; subst.
    inversion Hb as [|? ? Hy Hb']; subst.
    cbn [commonBits List.length]. rewrite Nat2Z.inj_succ.
    rewrite (Z.eqb_sym y x), (Z.lxor_comm y x).
    destruct (Z.eqb_spec x y) as [->|Hne].
    + specialize (IH b ltac:(cbn in Hlen; lia) Ha' Hb'). cbv zeta in IH.
      destruct IH as (Hr & He & Hd & Hi & Hs).
      repeat split; try lia.
      * rewrite !networkWords_cons by lia.
        replace (16 + commonBits a b - 16) with (commonBits a b) by lia.
        now rewrite He.
      * intros Hlt. rewrite !networkWords_cons by lia.
        replace (16 + commonBits a b + 1 - 16) with (commonBits a b + 1)
          by lia.
        intros E. assert (E' : networkWords a (commonBits a b + 1)
                               = networkWords b (commonBits a b + 1))
          by congruence.
        revert E'. apply Hd. lia.
      * intros Hn. f_equal. apply Hi. lia.
      * intros E. assert (E' : a = b) by congruence. apply Hi in E'. lia.
    + destruct (differing_words x y Hx Hy Hne) as (Hc & Hk & Hk').
      set (c := 15 - Z.log2 (Z.lxor x y)) in *.
      repeat split; try lia.
      * rewrite !networkWords_head by lia. rewrite Hk. f_equal.
        rewrite <- (map_map (fun _ => tt) (fun _ => 0) a).
        rewrite <- (map_map (fun _ => tt) (fun _ => 0) b).
        f_equal. clear - Hlen. cbn in Hlen.
        assert (Hl : List.length a = List.length b) by lia. clear Hlen.
        revert b Hl. induction a as [|? a IHa]; intros [|? b] Hl;
          try discriminate Hl; [reflexivity|].
        cbn [map]. f_equal. apply IHa. cbn in Hl. lia.
      * intros _. destruct (Z.eq_dec c 15) as [E15|Hlt15].
        -- rewrite E15. change (15 + 1) with 16.
           rewrite !networkWords_cons by lia.
           intros E. inversion E. contradiction.
        -- rewrite !networkWords_head by lia.
           intros E. inversion E. contradiction.
      * intros E. inversion E. contradiction.
Qed.

Lemma map_Num_inj : forall a b : list Z, map Num a = map Num b -> a = b.
Proof.
  induction a as [|x a IH]; intros [|y b] H; try discriminate H.
  - reflexivity.
  - inversion H; subst. f_equal. now apply IH.
Qed.

Lemma quotient_of_network : forall w m,
  Spec.Word128 w -> 0 <= m <= 128 ->
  Spec.toValue (networkWords w m) / 2 ^ (128 - m)
  = Spec.toValue w / 2 ^ (128 - m).
Proof.
  intros w m Hw Hm. destruct (masked_values w m Hw Hm) as [-> _].
  apply Z.div_mul. apply Z.pow_nonzero; lia.
Qed.

(** Addresses with the same network address under a prefix length have the
    same network address under every shorter one. *)
Lemma networkWords_shorter : forall a b k m,
  Spec.Word128 a -> Spec.Word128 b -> 0 <= k <= m -> m <= 128 ->
  networkWords a m = networkWords b m ->
  networkWords a k = networkWords b k.
Proof.
  intros a b k m Ha Hb Hk Hm E.
  assert (Hq : Spec.toValue a / 2 ^ (128 - m) = Spec.toValue b / 2 ^ (128 - m)).
  { rewrite <- (quotient_of_network a m), <- (quotient_of_network b m)
      by (assumption || lia).
    now rewrite E. }
  assert (Hpow : 2 ^ (128 - k) = 2 ^ (128 - m) * 2 ^ (m - k))
    by (rewrite <- Z.pow_add_r by lia; f_equal; lia).
  assert (Hv : Spec.toValue (networkWords a k)
               = Spec.toValue (networkWords b k)).
  { destruct (masked_values a k Ha ltac:(lia)) as [-> _].
    destruct (masked_values b k Hb ltac:(lia)) as [-> _].
    rewrite Hpow.
    rewrite <- !Z.div_div
      by (try apply Z.pow_nonzero; try apply Z.pow_pos_nonneg; lia).
    now rewrite Hq. }
  rewrite <- (ofValue_toValue (networkWords a k))
    by (apply networkWords_word128; [assumption | lia]).
  rewrite <- (ofValue_toValue (networkWords b k))
    by (apply networkWords_word128; [assumption | lia]).
  now rewrite Hv.
Qed.

(** X26.  On the expanded renderings of two addresses, the common prefix
    length is the greatest prefix length under which the two addresses have
    the same network address: it lies between 0 and 128, and the network
    addresses agree under the prefix lengths up to it and under no longer
    one; it is 128 exactly for equal addresses, and it does not depend on
    the order of the two. *)
Theorem common_prefix_length : forall a b : list Z,
  Spec.Word128 a -> Spec.Word128 b ->
  let n := IPv6Subnetting.findCommonPrefixLength
             (IPv6Parser.toExpanded (map Num a))
             (IPv6Parser.toExpanded (map Num b)) in
  0 <= n <= 128
  /\ (forall m, 0 <= m <= 128 ->
      (IPv6Parser.getNetworkAddress (map Num a) m
       = IPv6Parser.getNetworkAddress (map Num b) m
       <-> m <= n))
  /\ (n = 128 <-> a = b)
  /\ IPv6Subnetting.findCommonPrefixLength
       (IPv6Parser.toExpanded (map Num b))
       (IPv6Parser.toExpanded (map Num a)) = n.
Proof.
  intros a b Ha Hb. cbv zeta.
  rewrite !findCommonPrefixLength_words by assumption.
  destruct (commonBits_spec a b) as (Hr & He & Hd & Hi & Hs);
    [destruct Ha, Hb; congruence | apply Ha | apply Hb |].
  replace (16 * Z.of_nat (List.length a)) with 128 in *
    by (destruct Ha as [-> _]; reflexivity).
  split; [exact Hr|]. split; [|split; [exact Hi | exact Hs]].
  intros m Hm. rewrite !getNetworkAddress_words by assumption. split.
  - intros E. apply map_Num_inj in E.
    destruct (Z.le_gt_cases m (commonBits a b)) as [Hle|Hgt]; [exact Hle|].
    exfalso. apply Hd; [lia|].
    apply (networkWords_shorter a b (commonBits a b + 1) m);
      assumption || lia.
  - intros Hle. f_equal.
    apply (networkWords_shorter a b m (commonBits a b)); assumption || lia.
Qed.

Lemma common_prefix_length_witness :
  IPv6Subnetting.findCommonPrefixLength
    (IPv6Parser.toExpanded (map Num [0x2001; 0xdb8; 0; 0; 0; 0; 0; 1]))
    (IPv6Parser.toExpanded (map Num [0x2001; 0xdb8; 0x8000; 0; 0; 0; 0; 0]))
  = IPv6Subnetting.findCommonPrefixLength
      (IPv6Parser.toExpanded (map Num [0x2001; 0xdb8; 0x8000; 0; 0; 0; 0; 0]))
      (IPv6Parser.toExpanded (map Num [0x2001; 0xdb8; 0; 0; 0; 0; 0; 1])).
Proof.
  assert (Ha : Spec.Word128 [0x2001; 0xdb8; 0; 0; 0; 0; 0; 1])
    by (split; [reflexivity | repeat constructor; lia]).
  assert (Hb : Spec.Word128 [0x2001; 0xdb8; 0x8000; 0; 0; 0; 0; 0])
    by (split; [reflexivity | repeat constructor; lia]).
  symmetry.
  exact (proj2 (proj2 (proj2 (common_prefix_length _ _ Ha Hb)))).
Defined.

(** ** Route summaries *)

Lemma forRange_ext : forall (St : Type) lo hi (f g : Z -> St -> St) s,
  (forall i a, lo <= i -> f i a = g i a) ->
  forRange lo hi f s = forRange lo hi g s.
Proof.
  intros St lo hi f g s H. unfold forRange.
  generalize (seq 0 (Z.to_nat (hi - lo))) as ks. intros ks. revert s.
  induction ks as [|k ks IH]; intros s; [reflexivity|].
  cbn [fold_left]. rewrite H by lia. apply IH.
Qed.

Lemma getNetworkHextets_words : forall w p,
  Spec.Word128 w -> 0 <= p <= 128 ->
  IPv6Subnetting.getNetworkHextets (IPv6Parser.toExpanded (map Num w)) p
  = map Num (networkWords w p).
Proof.
  intros w p Hw Hp. rewrite <- getNetworkAddress_words by assumption.
  unfold IPv6Subnetting.getNetworkHextets, IPv6Parser.getNetworkAddress.
  cbv zeta. rewrite toExpanded_words, parseHextets_expanded;
    [| destruct Hw as [Hlen _]; intros E; rewrite E in Hlen;
       discriminate Hlen
     | apply Hw].
  apply forRange_ext. intros i a Hi.
  assert (0 <= p / 16) by (apply Z.div_pos; lia).
  unfold assign.
  replace (i <? 0) with false by (symmetry; apply Z.ltb_ge; lia).
  reflexivity.
Qed.

Lemma summarizeLoop_length : forall networks current summarized,
  (List.length summarized + 1
   <= List.length (IPv6Subnetting.summarizeLoop networks current summarized)
   <= List.length summarized + 1 + List.length networks)%nat.
Proof.
  induction networks as [|next rest IH]; intros current summarized;
    cbn [IPv6Subnetting.summarizeLoop List.length].
  - rewrite length_app. cbn. lia.
  - cbv zeta.
    destruct (_ <=? _).
    + match goal with
      | |- context [IPv6Subnetting.summarizeLoop rest ?c summarized] =>
          specialize (IH c summarized)
      end. lia.
    + specialize (IH next
                    (summarized ++ [IPv6Address.networkAddress current])).
      rewrite length_app in IH. cbn [List.length] in IH. lia.
Qed.

(** X27.  The summary of a list of prefixes: the inputs that do not parse
    are dropped; without a valid input the summary is empty; otherwise it
    has at least one entry and at most as many as there are valid inputs; a
    single valid input is answered with its network address. *)
Theorem summary_size : forall (host : Host) (collation : Collation)
    (prefixes : list string),
  let networks :=
    filter IPv6Address.isValid (map IPv6Parser.parse prefixes) in
  let summary := IPv6Subnetting.summarizeRoutes prefixes in
  (networks = [] -> summary = [])
  /\ (networks <> [] ->
      (1 <= List.length summary <= List.length networks)%nat)
  /\ (forall network, networks = [network] ->
      summary = [IPv6Address.networkAddress network]).
Proof.
  intros host collation prefixes. cbv zeta.
  unfold IPv6Subnetting.summarizeRoutes. cbv zeta.
  set (valid := filter IPv6Address.isValid (map IPv6Parser.parse prefixes)).
  pose proof (sortWith_permutation _
                (fun a b => localeCompare (IPv6Address.expanded a)
                                          (IPv6Address.expanded b))
                valid) as Hperm.
  destruct (sortWith _ _ valid) as [|first rest] eqn:Es.
  - apply Permutation_nil in Hperm. rewrite Hperm.
    split; [reflexivity|]. split; [intros Hne; now elim Hne|].
    intros network E. discriminate E.
  - pose proof (summarizeLoop_length rest first []) as Hl.
    pose proof (Permutation_length Hperm) as Hlen.
    cbn [List.length] in Hl, Hlen.
    split; [|split].
    + intros E. rewrite E in Hlen. discriminate Hlen.
    + intros _. lia.
    + intros network E. rewrite E in Hperm.
      apply Permutation_sym, Permutation_length_1_inv in Hperm.
      inversion Hperm; subst. reflexivity.
Qed.

Lemma commonBits_same : forall w, Spec.Word128 w -> commonBits w w = 128.
Proof.
  intros w [Hlen Hws].
  destruct (commonBits_spec w w eq_refl Hws Hws) as (_ & _ & _ & Hi & _).
  rewrite Hlen in Hi. now apply Hi.
Qed.

Lemma getNetworkHextets_below : forall w, Spec.Word128 w ->
  IPv6Subnetting.getNetworkHextets (IPv6Parser.toExpanded (map Num w)) (-1)
  = repeat (Num 0) 8.
Proof.
  intros w [Hlen Hws]. unfold IPv6Subnetting.getNetworkHextets. cbv zeta.
  rewrite toExpanded_words, parseHextets_expanded;
    [| intros E; rewrite E in Hlen; discriminate Hlen | assumption].
  destruct w as [|w0 [|w1 [|w2 [|w3 [|w4 [|w5 [|w6 [|w7 [|? ?]]]]]]]]];
    try discriminate Hlen.
  reflexivity.
Qed.

(** X28.  A prefix given twice is summarized to a prefix one bit shorter:
    for a valid prefix of length [p >= 1] whose words are in [0, 0xffff],
    the summary of the prefix and itself is the single network of length
    [p - 1] that holds it, in expanded notation; for [p = 0] it is the
    all-zero address followed by [/-1]. *)
Theorem summary_of_duplicates : forall (host : Host) (collation : Collation)
    (prefix : string) (w : list Z),
  word128 prefix = Some (map Num w) ->
  Forall (fun z => 0 <= z <= 0xffff) w ->
  let p := IPv6Address.prefixLength (IPv6Parser.parse prefix) in
  (1 <= p ->
   IPv6Subnetting.summarizeRoutes [prefix; prefix]
   = [IPv6Parser.toExpanded
        (IPv6Parser.getNetworkAddress (map Num w) (p - 1))
      +:+ "/" +:+ show (p - 1)])
  /\ (p = 0 ->
      IPv6Subnetting.summarizeRoutes [prefix; prefix]
      = ["0000:0000:0000:0000:0000:0000:0000:0000/-1"]).
Proof.
  intros host collation prefix w Hin Hws. cbv zeta.
  destruct (word128_parsed prefix w Hin) as (p & Hparsed & Hlen).
  assert (Hw : Spec.Word128 w) by now split.
  pose proof (accepted_prefix_range _ _ _ Hparsed) as Hp.
  destruct (parse_accepts prefix w p Hparsed Hlen) as (Hv & _ & He & _ & Hpl).
  rewrite Hpl.
  unfold IPv6Subnetting.summarizeRoutes. cbv zeta.
  cbn [map filter]. rewrite Hv.
  match goal with
  | |- context [sortWith ?A ?c ?l] =>
      pose proof (sortWith_permutation A c l) as Hperm;
      destruct (Permutation_length_2_inv (Permutation_sym Hperm))
        as [-> | ->]
  end;
  cbn [IPv6Subnetting.summarizeLoop]; cbv zeta;
  rewrite He, Hpl, findCommonPrefixLength_words, commonBits_same
    by assumption;
  (replace (Z.min p p - 1 <=? 128) with true
     by (symmetry; apply Z.leb_le; lia));
  rewrite Z.min_r by lia;
  cbn [IPv6Subnetting.withNetwork IPv6Address.networkAddress app];
  (split; intros Hcase;
   [ rewrite getNetworkHextets_words, getNetworkAddress_words
       by (assumption || lia);
     reflexivity
   | rewrite Hcase; change (0 - 1) with (-1);
     rewrite getNetworkHextets_below by assumption; reflexivity ]).
Qed.

Lemma summary_of_duplicates_witness :
  IPv6Subnetting.summarizeRoutes (host := sampleHost)
    (collation := sampleCollation) ["2001:db8::/32"; "2001:db8::/32"]
  = [IPv6Parser.toExpanded
       (IPv6Parser.getNetworkAddress
          (map Num [0x2001; 0xdb8; 0; 0; 0; 0; 0; 0])
          (IPv6Address.prefixLength
             (IPv6Parser.parse (host := sampleHost) "2001:db8::/32") - 1))
     +:+ "/"
     +:+ show (IPv6Address.prefixLength
                 (IPv6Parser.parse (host := sampleHost) "2001:db8::/32") - 1)].
Proof.
  assert (Hin : word128 "2001:db8::/32"
                = Some (map Num [0x2001; 0xdb8; 0; 0; 0; 0; 0; 0]))
    by reflexivity.
  assert (Hws : Forall (fun z => 0 <= z <= 0xffff)
                  [0x2001; 0xdb8; 0; 0; 0; 0; 0; 0])
    by (repeat constructor; lia).
  assert (Hp : 1 <= IPv6Address.prefixLength
                      (IPv6Parser.parse (host := sampleHost) "2001:db8::/32"))
    by (vm_compute; discriminate).
  exact (proj1 (summary_of_duplicates sampleHost sampleCollation _ _ Hin Hws)
           Hp).
Defined.

(** The summary of the example: [2001:db8::/32] given twice answers
    [2001:db8::/31]. *)
Lemma summary_of_duplicates_example :
  IPv6Subnetting.summarizeRoutes (host := sampleHost)
    (collation := sampleCollation) ["2001:db8::/32"; "2001:db8::/32"]
  = ["2001:0db8:0000:0000:0000:0000:0000:0000/31"].
Proof. vm_compute. reflexivity. Qed.
